(** * AI-audit: batch audit orchestration, rule import and CSV export

    A shallow embedding of the TypeScript sources
      - types.ts                      (data model)
      - services/auditService.ts      (analyzeReport, the judgment client)
      - api/analyze-report.ts         (handler, the server side of the judgment call)
      - services/ruleImporter.ts      (parseRulesFile)
      - components/Dashboard.tsx      (processNewFiles, processFile,
                                       runBatchAudit, exportToCSV, rule list)
    followed by the properties of the specification that they decide.

    Conventions.
      - A JavaScript string is the list of its UTF-16 code units.
      - An [async] function is a tree of suspension points ([Proc]): every
        [await] on an external promise is a node whose continuation receives
        the way the promise settled; [try]/[catch] is [try_catch].
      - React state setters are applied in the order in which they are
        called; the worker pool of [runBatchAudit] is a transition system
        whose steps are the settlements of pending promises. *)

From Stdlib Require Import NArith ZArith List String Ascii Lia Bool DecimalString.
From Stdlib Require Import DecimalN DecimalPos.
From stdpp Require Import base list.
Import ListNotations.
Open Scope N_scope.

(* ================================================================== *)
(** ** JavaScript strings *)
(* ================================================================== *)

Definition jsstring := list N.

(** Source literals are written as UTF-8 text and decoded to code units. *)
Fixpoint utf16_of_utf8 (bs : list N) : jsstring :=
  match bs with
  | [] => []
  | b0 :: r0 =>
      if b0 <? 128 then b0 :: utf16_of_utf8 r0
      else
        match r0 with
        | [] => [65533]
        | b1 :: r1 =>
            if b0 <? 224 then ((b0 - 192) * 64 + (b1 - 128)) :: utf16_of_utf8 r1
            else
              match r1 with
              | [] => [65533]
              | b2 :: r2 =>
                  if b0 <? 240
                  then ((b0 - 224) * 4096 + (b1 - 128) * 64 + (b2 - 128))
                         :: utf16_of_utf8 r2
                  else
                    match r2 with
                    | [] => [65533]
                    | b3 :: r3 =>
                        let cp := (b0 - 240) * 262144 + (b1 - 128) * 4096
                                  + (b2 - 128) * 64 + (b3 - 128) in
                        (55296 + (cp - 65536) / 1024)
                          :: (56320 + (cp - 65536) mod 1024)
                          :: utf16_of_utf8 r3
                    end
              end
        end
  end.

Definition js (s : string) : jsstring :=
  utf16_of_utf8 (map N_of_ascii (list_ascii_of_string s)).
Arguments js s%_string.

(** [a === b] on strings. *)
Fixpoint jseq (a b : jsstring) : bool :=
  match a, b with
  | [], [] => true
  | x :: a', y :: b' => (x =? y) && jseq a' b'
  | _, _ => false
  end.

(** Truthiness of a string: only the empty string is falsy. *)
Definition truthy (s : jsstring) : bool :=
  match s with [] => false | _ :: _ => true end.

(** [s.includes(c)] for a one-character needle. *)
Definition includes (s : jsstring) (c : N) : bool := existsb (N.eqb c) s.

(** ECMAScript WhiteSpace and LineTerminator code units, as stripped by
    [String.prototype.trim]. *)
Definition is_ws (c : N) : bool :=
  existsb (N.eqb c)
    [9; 10; 11; 12; 13; 32; 160; 5760; 8232; 8233; 8239; 8287; 12288; 65279]
  || ((8192 <=? c) && (c <=? 8202)).

Fixpoint trimStart (s : jsstring) : jsstring :=
  match s with
  | [] => []
  | c :: r => if is_ws c then trimStart r else s
  end.

Definition trimEnd (s : jsstring) : jsstring := rev (trimStart (rev s)).

Definition trim (s : jsstring) : jsstring := trimEnd (trimStart s).

(** [String(n)] for a non-negative integer. *)
Definition decimal (n : N) : jsstring :=
  map N_of_ascii (list_ascii_of_string (NilZero.string_of_uint (N.to_uint n))).

(** Character constants used by the sources. *)
Definition COMMA : N := 44.
Definition DQUOTE : N := 34.
Definition NEWLINE : N := 10.
Definition BOM : N := 65279.

(* ================================================================== *)
(** ** Data model (types.ts) *)
(* ================================================================== *)

Inductive AuditStatus := IDLE | PROCESSING | PASS | FAIL | WARNING | ERROR.

(** The string value of an enum member. *)
Definition status_string (s : AuditStatus) : jsstring :=
  match s with
  | IDLE => js "IDLE"
  | PROCESSING => js "PROCESSING"
  | PASS => js "PASS"
  | FAIL => js "FAIL"
  | WARNING => js "WARNING"
  | ERROR => js "ERROR"
  end.

Inductive RuleCategory :=
  text_editing | workflow_logic | result_determination | special_rules.

Inductive Severity := high | medium | low.

Record AuditIssue := mkIssue {
  rule : jsstring;
  description : jsstring;
  severity : Severity;
  location : option jsstring;
  category : RuleCategory
}.

Record AuditResult := mkResult {
  status : AuditStatus;
  summary : jsstring;
  issues : list AuditIssue;
  processedAt : jsstring
}.

(** A browser [File]: its name and an opaque handle to the binary data. *)
Record File := mkFile {
  name : jsstring;
  handle : N
}.

Record DocFile := mkDocFile {
  id : jsstring;
  file : File;
  content : jsstring;
  auditResult : option AuditResult;
  isProcessing : bool
}.

(** What the [category] field of a rule holds at run time.  Its declared
    type is [RuleCategory], and that is what the default rules and [addRule]
    store; [parseRulesFile] stores what indexing an object literal gives,
    which can also be a member the literal inherits from [Object.prototype]
    (a function, or the prototype itself), named here by its property key. *)
Inductive CategoryValue :=
| Category (c : RuleCategory)
| ProtoMember (key : jsstring).

Coercion Category : RuleCategory >-> CategoryValue.

Record RuleConfig := mkRule {
  rule_id : jsstring;
  text : jsstring;
  enabled : bool;
  rule_category : CategoryValue
}.

(** [new Error(message)] and other thrown values: name and message. *)
Record JsError := mkError {
  err_name : jsstring;
  message : jsstring
}.

Definition Error (msg : jsstring) : JsError := mkError (js "Error") msg.

(** How a promise settles. *)
Inductive Settled (T : Type) :=
| Fulfilled (v : T)
| Rejected (e : JsError).
Arguments Fulfilled {T} v.
Arguments Rejected {T} e.

(* ================================================================== *)
(** ** Asynchronous computations *)
(* ================================================================== *)

(** The body sent by [analyzeReport]: [JSON.stringify({ docContent, rules })]. *)
Record Request := mkRequest {
  docContent : jsstring;
  req_rules : list jsstring
}.

(** What [analyzeReport] reads of a [fetch] response before its body. *)
Record Response := mkResponse {
  ok : bool;
  http_status : N
}.

(** An [async] function run up to its next suspension point.
    [Now] is the synchronous clock read [new Date().toISOString()];
    the three [Await] nodes are the external promises of the client:
    [extractContentFromDocx(file)], [fetch("/api/analyze-report", ...)]
    (which carries the 30 s [AbortSignal.timeout]) and [response.json()]. *)
Inductive Proc (A : Type) : Type :=
| Ret (a : A)
| Throw (e : JsError)
| Now (k : jsstring -> Proc A)
| AwaitExtract (f : File) (k : Settled jsstring -> Proc A)
| AwaitFetch (req : Request) (k : Settled Response -> Proc A)
| AwaitJson (r : Response) (k : Settled AuditResult -> Proc A).
Arguments Ret {A} a.
Arguments Throw {A} e.
Arguments Now {A} k.
Arguments AwaitExtract {A} f k.
Arguments AwaitFetch {A} req k.
Arguments AwaitJson {A} r k.

Fixpoint bind {A B} (p : Proc A) (f : A -> Proc B) : Proc B :=
  match p with
  | Ret a => f a
  | Throw e => Throw e
  | Now k => Now (fun t => bind (k t) f)
  | AwaitExtract x k => AwaitExtract x (fun s => bind (k s) f)
  | AwaitFetch x k => AwaitFetch x (fun s => bind (k s) f)
  | AwaitJson x k => AwaitJson x (fun s => bind (k s) f)
  end.

#[export] Instance Proc_ret : MRet Proc := @Ret.
#[export] Instance Proc_bind : MBind Proc := fun A B f p => bind p f.

(** [try { p } catch (error) { h error }]. *)
Fixpoint try_catch {A} (p : Proc A) (h : JsError -> Proc A) : Proc A :=
  match p with
  | Ret a => Ret a
  | Throw e => h e
  | Now k => Now (fun t => try_catch (k t) h)
  | AwaitExtract x k => AwaitExtract x (fun s => try_catch (k s) h)
  | AwaitFetch x k => AwaitFetch x (fun s => try_catch (k s) h)
  | AwaitJson x k => AwaitJson x (fun s => try_catch (k s) h)
  end.

(** [await promise]: the value, or the rejection thrown. *)
Definition settle {A} (s : Settled A) : Proc A :=
  match s with
  | Fulfilled v => Ret v
  | Rejected e => Throw e
  end.

Definition now : Proc jsstring := Now Ret.
Definition extractContentFromDocx (f : File) : Proc jsstring := AwaitExtract f settle.
Definition fetch (req : Request) : Proc Response := AwaitFetch req settle.
Definition json (r : Response) : Proc AuditResult := AwaitJson r settle.

(* ================================================================== *)
(** ** services/auditService.ts *)
(* ================================================================== *)

Definition analyzeReport (docContent : jsstring) (rules : list jsstring)
  : Proc AuditResult :=
  try_catch
    (response ← fetch (mkRequest docContent rules);
     if negb (ok response)
     then Throw (Error (js "请求失败啦 [" ++ decimal (http_status response) ++ js "]"))
     else
       result ← json response;
       mret result)
    (fun error =>
       let errorMessage :=
         if jseq (err_name error) (js "AbortError")
         then js "请求超时啦（文档太大或网络慢）"
         else if truthy (message error) then message error
         else js "审核服务调用失败，请稍后重试" in
       t ← now;
       mret (mkResult ERROR errorMessage
               [ mkIssue (js "服务调用失败") errorMessage high (Some [])
                         special_rules ]
               t)).

(* ================================================================== *)
(** ** components/Dashboard.tsx: rules and single-file processing *)
(* ================================================================== *)

(** [rules.filter(r => r.enabled).map(r => r.text)] *)
Definition activeRuleTexts (rules : list RuleConfig) : list jsstring :=
  map text (List.filter enabled rules).

Definition processFile (rules : list RuleConfig) (docFile : DocFile) : Proc DocFile :=
  try_catch
    (content' ← (if truthy (content docFile)
                 then mret (content docFile)
                 else extractContentFromDocx (file docFile));
     result ← analyzeReport content' (activeRuleTexts rules);
     mret (mkDocFile (id docFile) (file docFile) content' (Some result) false))
    (fun error =>
       t ← now;
       mret (mkDocFile (id docFile) (file docFile) (content docFile)
               (Some (mkResult ERROR (js "文件处理失败。") [] t))
               false)).

(* ================================================================== *)
(** ** components/Dashboard.tsx: the batch worker pool *)
(* ================================================================== *)

Definition CONCURRENT_LIMIT : nat := 3.

(** One [worker()] task: suspended inside [await processFile(...)], returned
    after its loop ended, or rejected by an uncaught exception. *)
Inductive Worker :=
| Running (p : Proc DocFile)
| Exited
| Crashed (e : JsError).

(** The state shared by the tasks of one [runBatchAudit] call.  [files] and
    [expandedFiles] are the React states, [queue] the local array of
    [runBatchAudit], [workers] the tasks in the order in which they were
    started.  [dequeued] and [extractions] are ghost logs: which worker
    shifted which document off the queue, and the files for which a worker
    suspended on [extractContentFromDocx]. *)
Record Batch := mkBatch {
  files : list DocFile;
  expandedFiles : list jsstring;
  queue : list DocFile;
  workers : list Worker;
  dequeued : list (nat * DocFile);
  extractions : list File
}.

(** [prev.map(f => f.id === processed.id ? processed : f)] *)
Definition complete (processed : DocFile) (prev : list DocFile) : list DocFile :=
  map (fun f => if jseq (id f) (id processed) then processed else f) prev.

(** [new Set(prev).add(x)], a set kept in insertion order. *)
Definition set_add (x : jsstring) (prev : list jsstring) : list jsstring :=
  if existsb (jseq x) prev then prev else prev ++ [x].

(** The two state updates a worker makes after [processFile] returned. *)
Definition write_back (processed : DocFile) (st : Batch) : Batch :=
  mkBatch
    (complete processed (files st))
    (match auditResult processed with
     | Some r =>
         if (0 <? length (issues r))%nat
         then set_add (id processed) (expandedFiles st)
         else expandedFiles st
     | None => expandedFiles st
     end)
    (queue st) (workers st) (dequeued st) (extractions st).

(** [{ ...file, isProcessing: true }] *)
Definition in_processing (f : DocFile) : DocFile :=
  mkDocFile (id f) (file f) (content f) (auditResult f) true.

(** Run the synchronous clock reads at the head of a computation. *)
Fixpoint advance {A} (t : jsstring) (p : Proc A) : Proc A :=
  match p with
  | Now k => advance t (k t)
  | _ => p
  end.

(** Ghost: record a call of the extractor. *)
Definition note_extraction (p : Proc DocFile) (st : Batch) : Batch :=
  match p with
  | AwaitExtract f _ =>
      mkBatch (files st) (expandedFiles st) (queue st) (workers st)
              (dequeued st) (extractions st ++ [f])
  | _ => st
  end.

(** [queue.shift()] by worker [i], with the ghost record of it. *)
Definition shift (i : nat) (f : DocFile) (rest : list DocFile) (st : Batch) : Batch :=
  mkBatch (files st) (expandedFiles st) rest (workers st)
          (dequeued st ++ [(i, f)]) (extractions st).

(** The loop of [worker], from its head to the next suspension:
    [while (queue.length > 0) { const file = queue.shift(); ...
       const processed = await processFile({ ...file, isProcessing: true });
       setFiles(...); setExpandedFiles(...) }].
    [q] is the queue of [st]; [t] is the clock at the time of the step. *)
Fixpoint worker_loop (rules : list RuleConfig) (i : nat) (t : jsstring)
    (q : list DocFile) (st : Batch) : Batch * Worker :=
  match q with
  | [] => (st, Exited)
  | f :: rest =>
      let st1 := shift i f rest st in
      match advance t (processFile rules (in_processing f)) with
      | Ret processed => worker_loop rules i t rest (write_back processed st1)
      | Throw e => (st1, Crashed e)
      | p => (note_extraction p st1, Running p)
      end
  end.

(** A worker resumed with [p], the rest of its pending [processFile] call. *)
Definition continue (rules : list RuleConfig) (i : nat) (t : jsstring)
    (p : Proc DocFile) (st : Batch) : Batch * Worker :=
  match advance t p with
  | Ret processed =>
      let st1 := write_back processed st in
      worker_loop rules i t (queue st1) st1
  | Throw e => (st, Crashed e)
  | p' => (note_extraction p' st, Running p')
  end.

(** The settlement of a pending promise. *)
Inductive Outcome :=
| ExtractSettled (s : Settled jsstring)
| FetchSettled (s : Settled Response)
| JsonSettled (s : Settled AuditResult).

Definition resume {A} (p : Proc A) (o : Outcome) : option (Proc A) :=
  match p, o with
  | AwaitExtract _ k, ExtractSettled s => Some (k s)
  | AwaitFetch _ k, FetchSettled s => Some (k s)
  | AwaitJson _ k, JsonSettled s => Some (k s)
  | _, _ => None
  end.

(** One turn of the event loop: the promise worker [ev_worker] waits for
    settles as [ev_outcome] at time [ev_time], and the worker runs on to its
    next suspension. *)
Record Event := mkEvent {
  ev_worker : nat;
  ev_time : jsstring;
  ev_outcome : Outcome
}.

Definition set_workers (ws : list Worker) (st : Batch) : Batch :=
  mkBatch (files st) (expandedFiles st) (queue st) ws
          (dequeued st) (extractions st).

Definition resolve (rules : list RuleConfig) (ev : Event) (st : Batch) : option Batch :=
  match workers st !! ev_worker ev with
  | Some (Running p) =>
      match resume p (ev_outcome ev) with
      | Some p' =>
          let '(st1, w) := continue rules (ev_worker ev) (ev_time ev) p' st in
          Some (set_workers (<[ev_worker ev := w]> (workers st1)) st1)
      | None => None
      end
  | _ => None
  end.

Fixpoint run (rules : list RuleConfig) (st : Batch) (evs : list Event) : option Batch :=
  match evs with
  | [] => Some st
  | ev :: rest =>
      match resolve rules ev st with
      | Some st1 => run rules st1 rest
      | None => None
      end
  end.

Definition has_result (f : DocFile) : bool :=
  match auditResult f with Some _ => true | None => false end.

(** [files.filter(f => !f.auditResult)] *)
Definition filesToProcess (files : list DocFile) : list DocFile :=
  List.filter (fun f => negb (has_result f)) files.

(** [prev.map(f => filesToProcess.find(ftp => ftp.id === f.id)
                    ? { ...f, isProcessing: true } : f)] *)
Definition mark_processing (toProcess prev : list DocFile) : list DocFile :=
  map (fun f => if existsb (fun ftp => jseq (id ftp) (id f)) toProcess
                then in_processing f else f) prev.

(** [Array(n).fill(null).map(() => worker())]: the workers are started one
    after the other, each running to its first suspension. *)
Fixpoint spawn (rules : list RuleConfig) (t : jsstring) (n i : nat) (st : Batch) : Batch :=
  match n with
  | O => st
  | S n' =>
      let '(st1, w) := worker_loop rules i t (queue st) st in
      spawn rules t n' (S i) (set_workers (workers st1 ++ [w]) st1)
  end.

(** [runBatchAudit] up to [await Promise.all(workers)], called at time [t]
    with the React states [files] and [expandedFiles]. *)
Definition runBatchAudit (rules : list RuleConfig) (t : jsstring)
    (files : list DocFile) (expanded : list jsstring) : Batch :=
  let toProcess := filesToProcess files in
  spawn rules t (Nat.min (length toProcess) CONCURRENT_LIMIT) 0
    (mkBatch (mark_processing toProcess files) expanded toProcess [] [] []).

(** [Promise.all(workers)] is fulfilled: every worker returned. *)
Definition exited (w : Worker) : bool :=
  match w with Exited => true | _ => false end.

Definition batch_done (st : Batch) : bool := forallb exited (workers st).

(** A worker with a judgment call in flight: it waits for the [fetch] of
    [analyzeReport] or for the body of its response. *)
Definition judging (w : Worker) : bool :=
  match w with
  | Running (AwaitFetch _ _) | Running (AwaitJson _ _) => true
  | _ => false
  end.

Definition in_flight (st : Batch) : nat := length (List.filter judging (workers st)).

(** *** Reasoning about computations *)

(** [wp Q E p]: however the awaited promises settle and whatever the clock
    shows, [p] returns a value in [Q] or throws an error in [E]. *)
Fixpoint wp {A} (Q : A -> Prop) (E : JsError -> Prop) (p : Proc A) : Prop :=
  match p with
  | Ret a => Q a
  | Throw e => E e
  | Now k => forall t, wp Q E (k t)
  | AwaitExtract _ k => forall s, wp Q E (k s)
  | AwaitFetch _ k => forall s, wp Q E (k s)
  | AwaitJson _ k => forall s, wp Q E (k s)
  end.

(** [p] reaches its end after at most [n] settlements. *)
Fixpoint within {A} (p : Proc A) (n : nat) : Prop :=
  match p with
  | Ret _ | Throw _ => True
  | Now k => forall t, within (k t) n
  | AwaitExtract _ k =>
      match n with O => False | S m => forall s, within (k s) m end
  | AwaitFetch _ k =>
      match n with O => False | S m => forall s, within (k s) m end
  | AwaitJson _ k =>
      match n with O => False | S m => forall s, within (k s) m end
  end.

(** [p] never calls the content extractor. *)
Fixpoint no_extract {A} (p : Proc A) : Prop :=
  match p with
  | Ret _ | Throw _ => True
  | Now k => forall t, no_extract (k t)
  | AwaitExtract _ _ => False
  | AwaitFetch _ k => forall s, no_extract (k s)
  | AwaitJson _ k => forall s, no_extract (k s)
  end.

(** Every judgment request [p] sends carries the rule texts [rs]. *)
Fixpoint sends_rules {A} (rs : list jsstring) (p : Proc A) : Prop :=
  match p with
  | Ret _ | Throw _ => True
  | Now k => forall t, sends_rules rs (k t)
  | AwaitExtract _ k => forall s, sends_rules rs (k s)
  | AwaitFetch req k => req_rules req = rs /\ forall s, sends_rules rs (k s)
  | AwaitJson _ k => forall s, sends_rules rs (k s)
  end.

(* ================================================================== *)
(** ** components/Dashboard.tsx: adding files *)
(* ================================================================== *)

(** [setFiles(prev => prev.filter(f => f.id !== id))] *)
Definition removeFile (id0 : jsstring) (prev : list DocFile) : list DocFile :=
  List.filter (fun f => negb (jseq (id f) id0)) prev.

Definition newDocFile (id0 : jsstring) (f : File) : DocFile :=
  mkDocFile id0 f [] None false.

(** The [forEach] of [processNewFiles].  [files] is the state the function
    closed over; [confirm i] is the operator's answer to [window.confirm]
    for the file at position [i], [randomId i] the id drawn for it.  The
    result is [newDocFiles] and the state updates queued by [removeFile]. *)
Fixpoint scan_files (files : list DocFile) (confirm : nat -> bool)
    (randomId : nat -> jsstring) (i : nat) (fileList : list File)
    (newDocFiles : list DocFile) (updates : list (list DocFile -> list DocFile))
  : list DocFile * list (list DocFile -> list DocFile) :=
  match fileList with
  | [] => (newDocFiles, updates)
  | f :: rest =>
      match find (fun d => jseq (name (file d)) (name f)) files with
      | Some existing =>
          if negb (confirm i)
          then scan_files files confirm randomId (S i) rest newDocFiles updates
          else scan_files files confirm randomId (S i) rest
                 (newDocFiles ++ [newDocFile (randomId i) f])
                 (updates ++ [removeFile (id existing)])
      | None =>
          scan_files files confirm randomId (S i) rest
            (newDocFiles ++ [newDocFile (randomId i) f]) updates
      end
  end.

(** The final merge:
    [prev => [...prev.filter(f => !namesToRemove.has(f.file.name)), ...newDocFiles]] *)
Definition merge_new (newDocFiles prev : list DocFile) : list DocFile :=
  let namesToRemove := map (fun nf => name (file nf)) newDocFiles in
  let filteredPrev :=
    List.filter (fun f => negb (existsb (jseq (name (file f))) namesToRemove)) prev in
  filteredPrev ++ newDocFiles.

(** [processNewFiles(fileList)]: the [files] state after the queued updates
    ran, in order, on the state [prev]. *)
Definition processNewFiles (files : list DocFile) (confirm : nat -> bool)
    (randomId : nat -> jsstring) (fileList : list File) (prev : list DocFile)
  : list DocFile :=
  let '(newDocFiles, updates) := scan_files files confirm randomId 0 fileList [] [] in
  let prev1 := fold_left (fun p u => u p) updates prev in
  if (0 <? length newDocFiles)%nat then merge_new newDocFiles prev1 else prev1.

(* ================================================================== *)
(** ** components/Dashboard.tsx: CSV export *)
(* ================================================================== *)

(** [stringText.replace] with the global pattern of one double-quote
    character and a replacement of two of them. *)
Fixpoint double_quotes (s : jsstring) : jsstring :=
  match s with
  | [] => []
  | c :: r =>
      if c =? DQUOTE then DQUOTE :: DQUOTE :: double_quotes r
      else c :: double_quotes r
  end.

Definition escape (text0 : jsstring) : jsstring :=
  if negb (truthy text0) then []
  else if includes text0 COMMA || includes text0 DQUOTE || includes text0 NEWLINE
       then [DQUOTE] ++ double_quotes text0 ++ [DQUOTE]
       else text0.

(** [CATEGORY_MAP[c].label] *)
Definition CATEGORY_MAP_label (c : RuleCategory) : jsstring :=
  match c with
  | text_editing => js "文本编辑"
  | workflow_logic => js "流转逻辑"
  | result_determination => js "结果判定"
  | special_rules => js "特殊规则"
  end.

Definition statusLabel (s : AuditStatus) : jsstring :=
  match s with
  | PASS => js "通过"
  | FAIL => js "不通过"
  | WARNING => js "警告"
  | _ => status_string s
  end.

Definition severityLabel (s : Severity) : jsstring :=
  match s with
  | high => js "高"
  | medium => js "中"
  | low => js "低"
  end.

Definition csv_header : jsstring :=
  js "文件名,审批状态,执行摘要,错误分类,规则名称,详细描述,严重程度,位置" ++ [NEWLINE].

Definition commonData (f : DocFile) (r : AuditResult) : jsstring :=
  escape (name (file f)) ++ [COMMA] ++ escape (statusLabel (status r))
    ++ [COMMA] ++ escape (summary r).

(** The row of one issue, without its line end. *)
Definition issue_row (common : jsstring) (issue : AuditIssue) : jsstring :=
  common ++ [COMMA] ++ escape (CATEGORY_MAP_label (category issue))
    ++ [COMMA] ++ escape (rule issue)
    ++ [COMMA] ++ escape (description issue)
    ++ [COMMA] ++ escape (severityLabel (severity issue))
    ++ [COMMA] ++ escape (match location issue with
                          | Some l => if truthy l then l else []
                          | None => []
                          end).

(** [exportToCSV(file)]: the text written to the blob; [None] when the
    function returns at once because there is no audit result. *)
Definition exportToCSV (f : DocFile) : option jsstring :=
  match auditResult f with
  | None => None
  | Some r =>
      let csvContent := [BOM] ++ csv_header in
      let common := commonData f r in
      Some
        (if (length (issues r) =? 0)%nat
         then csvContent ++ common ++ js ",,,,," ++ [NEWLINE]
         else fold_left
                (fun csv issue => csv ++ issue_row common issue ++ [NEWLINE])
                (issues r) csvContent)
  end.

(* ================================================================== *)
(** ** services/ruleImporter.ts *)
(* ================================================================== *)

(** A cell of [sheet_to_json(worksheet, { header: 1 })]: a string, or
    [undefined] for a hole. *)
Definition Cell := option jsstring.
Definition Row := list Cell.

(** What the file reader and the spreadsheet library make of the file. *)
Inductive Workbook :=
| Unreadable                      (* reader.onerror *)
| Unparsable                      (* XLSX.read or sheet_to_json throws *)
| Sheet (jsonData : list Row).

(** The property keys every object literal inherits from
    [Object.prototype]; each names a function, [__proto__] the prototype
    object: truthy values, none of them a category. *)
Definition Object_prototype_keys : list jsstring :=
  [ js "constructor"; js "hasOwnProperty"; js "isPrototypeOf";
    js "propertyIsEnumerable"; js "toLocaleString"; js "toString"; js "valueOf";
    js "__proto__"; js "__defineGetter__"; js "__defineSetter__";
    js "__lookupGetter__"; js "__lookupSetter__" ].

(** [CATEGORY_REVERSE_MAP[typeCN]]: one of the four entries of the literal,
    an inherited member, or [undefined]. *)
Definition CATEGORY_REVERSE_MAP (typeCN : jsstring) : option CategoryValue :=
  if jseq typeCN (js "文本编辑") then Some (Category text_editing)
  else if jseq typeCN (js "流转逻辑") then Some (Category workflow_logic)
  else if jseq typeCN (js "结果判定") then Some (Category result_determination)
  else if jseq typeCN (js "特殊规则") then Some (Category special_rules)
  else if existsb (jseq typeCN) Object_prototype_keys then Some (ProtoMember typeCN)
  else None.

(** [row[i]?.trim()] *)
Definition cell_trim (row : Row) (i : nat) : option jsstring :=
  match row !! i with
  | Some (Some s) => Some (trim s)
  | _ => None
  end.

(** [x !== label] for [x] a string or [undefined]. *)
Definition differs (x : option jsstring) (label : jsstring) : bool :=
  match x with
  | Some s => negb (jseq s label)
  | None => true
  end.

Definition opt_truthy (x : option jsstring) : bool :=
  match x with Some s => truthy s | None => false end.

(** The [for] loop over the data rows; [i] is the index of the first row of
    [rows] in [jsonData], [dateNow i] the value of [Date.now()] there. *)
Fixpoint data_rows (dateNow : nat -> N) (i : nat) (rows : list Row)
    (newRules : list RuleConfig) : list RuleConfig :=
  match rows with
  | [] => newRules
  | row :: rest =>
      if (length row <? 2)%nat then data_rows dateNow (S i) rest newRules
      else
        let typeCN := cell_trim row 0 in
        let text0 := cell_trim row 1 in
        if opt_truthy typeCN && opt_truthy text0
        then
          let category0 :=
            match CATEGORY_REVERSE_MAP (default [] typeCN) with
            | Some c => c
            | None => Category special_rules
            end in
          data_rows dateNow (S i) rest
            (newRules ++
               [ mkRule (js "import-" ++ decimal (dateNow i) ++ js "-"
                           ++ decimal (N.of_nat i))
                        (default [] text0) true category0 ])
        else data_rows dateNow (S i) rest newRules
  end.

(** [jsonData[0]] *)
Definition header_row (jsonData : list Row) : Row := default [] (jsonData !! 0%nat).

Definition parseRulesFile (dateNow : nat -> N) (w : Workbook) : Settled (list RuleConfig) :=
  match w with
  | Unreadable => Rejected (Error (js "文件读取失败"))
  | Unparsable =>
      Rejected (Error (js "文件解析失败，请确保文件是有效的 .xlsx, .xls 或 .csv 格式。"))
  | Sheet jsonData =>
      if (length jsonData <? 2)%nat
      then Rejected (Error (js "文件内容为空或格式不正确。"))
      else
        let headers := header_row jsonData in
        if differs (cell_trim headers 0) (js "规则类型")
           || differs (cell_trim headers 1) (js "规则内容")
        then Rejected (Error (js "表格格式错误。首行必须包含“规则类型”和“规则内容”两列。"))
        else
          let newRules := data_rows dateNow 1 (tail jsonData) [] in
          if (length newRules =? 0)%nat
          then Rejected (Error (js "未在文件中找到有效的规则数据。"))
          else Fulfilled newRules
  end.

(** [handleRuleImport]: the rule list after the import; the alert shown is
    not modelled. *)
Definition handleRuleImport (dateNow : nat -> N) (w : Workbook)
    (prev : list RuleConfig) : list RuleConfig :=
  match parseRulesFile dateNow w with
  | Fulfilled importedRules => prev ++ importedRules
  | Rejected _ => prev
  end.

(* ================================================================== *)
(** ** api/analyze-report.ts *)
(* ================================================================== *)

(** A value produced by [JSON.parse].  Numbers are kept as integers: the
    handler only tests them for truthiness and passes them on. *)
#[local] Unset Elimination Schemes.
Inductive Json :=
| JNull
| JBool (b : bool)
| JNum (z : Z)
| JStr (s : jsstring)
| JArr (items : list Json)
| JObj (fields : list (jsstring * Json)).
#[local] Set Elimination Schemes.

(** A JavaScript value of the handler: [None] is [undefined]. *)
Definition JsValue := option Json.

Definition json_truthy (v : JsValue) : bool :=
  match v with
  | None | Some JNull => false
  | Some (JBool b) => b
  | Some (JNum z) => negb (z =? 0)%Z
  | Some (JStr s) => truthy s
  | Some (JArr _) | Some (JObj _) => true
  end.

(** The own property [key] of a parsed object: the last duplicate wins. *)
Fixpoint lookup_field (key : jsstring) (fields : list (jsstring * Json)) : JsValue :=
  match fields with
  | [] => None
  | (k, v) :: rest =>
      match lookup_field key rest with
      | Some v' => Some v'
      | None => if jseq k key then Some v else None
      end
  end.

(** [v?.key], for the keys the handler reads (none of them is a property of
    a string, number, boolean or array). *)
Definition opt_get (v : JsValue) (key : jsstring) : JsValue :=
  match v with
  | Some (JObj fields) => lookup_field key fields
  | _ => None
  end.

(** [v.key]: a [TypeError] on [null] and [undefined]. *)
Definition get (typeError : JsError) (v : JsValue) (key : jsstring) : Settled JsValue :=
  match v with
  | None | Some JNull => Rejected typeError
  | _ => Fulfilled (opt_get v key)
  end.

(** [v?.[0]] *)
Definition opt_first (v : JsValue) : JsValue :=
  match v with
  | Some (JArr (x :: _)) => Some x
  | Some (JStr (c :: _)) => Some (JStr [c])
  | Some (JObj fields) => lookup_field (js "0") fields
  | _ => None
  end.

#[export] Instance Settled_ret : MRet Settled := @Fulfilled.
#[export] Instance Settled_bind : MBind Settled :=
  fun A B f s => match s with Fulfilled v => f v | Rejected e => Rejected e end.

(** [if (c) throw e] *)
Definition throw_if (c : bool) (e : JsError) : Settled unit :=
  if c then Rejected e else Fulfilled tt.

(** What the handler sends upstream of the request: the truncated report
    and the formatted rule list (both are spliced into the prompt). *)
Record Prompt := mkPrompt {
  truncatedContent : jsstring;
  activeRules : jsstring
}.

(** The upstream response: [response.ok] and the outcome of
    [response.json()]. *)
Record Upstream := mkUpstream {
  up_ok : bool;
  up_data : Settled Json
}.

Inductive ResponseBody :=
| NoBody
| ErrorBody (error : jsstring)
| VerdictBody (status0 : jsstring) (summary0 : Json) (issues0 : Json)
              (processedAt0 : jsstring).

Record HttpResponse := mkHttp {
  code : N;
  body : ResponseBody
}.

Definition MAX_CONTENT_LENGTH : N := 80000.

(** [rules.map(r => `- ${r}`).join('\n')] *)
Fixpoint join_lines (l : list jsstring) : jsstring :=
  match l with
  | [] => []
  | [x] => x
  | x :: rest => x ++ [NEWLINE] ++ join_lines rest
  end.

(** The status written into the success response. *)
Definition coerce_status (overallStatus : JsValue) : jsstring :=
  match overallStatus with
  | Some (JStr s) =>
      if jseq s (js "FAIL") then js "FAIL"
      else if jseq s (js "WARNING") then js "WARNING"
      else js "PASS"
  | _ => js "PASS"
  end.

(** [v || d] *)
Definition or_else (v : JsValue) (d : Json) : Json :=
  match v with
  | Some x => if json_truthy v then x else d
  | None => d
  end.

Section Handler.
(** The environment of one call: the [TypeError] the engine throws, the
    library functions [JSON.parse] (applied to the value found in the
    upstream answer) and [JSON.stringify], the configured API key
    ([[]] when the variable is unset), the clock, and the upstream
    service. *)
Variable typeError : JsError.
Variable JSON_parse : Json -> Settled Json.
Variable JSON_stringify : Json -> jsstring.
Variable apiKey : jsstring.
Variable t : jsstring.
Variable upstream : Prompt -> Settled Upstream.

(** The [try] block; [req_body] is [None] when [req.body] is undefined. *)
Definition handler_try (req_body : option Request) : Settled HttpResponse :=
  rq ← match req_body with
       | Some rq => Fulfilled rq
       | None => Rejected typeError
       end;
  _ ← throw_if (negb (truthy apiKey))
        (Error (js "阿里云API Key未配置！请去Vercel的环境变量里填写ALIYUN_DASHSCOPE_API_KEY"));
  let truncated :=
    if MAX_CONTENT_LENGTH <? N.of_nat (length (docContent rq))
    then firstn (N.to_nat MAX_CONTENT_LENGTH) (docContent rq)
    else docContent rq in
  let active := join_lines (map (fun r => js "- " ++ r) (req_rules rq)) in
  response ← upstream (mkPrompt truncated active);
  data ← up_data response;
  _ ← throw_if (negb (up_ok response))
        (Error (js "阿里云AI返回错误：" ++ JSON_stringify data));
  output ← get typeError (Some data) (js "output");
  let jsonStr :=
    opt_get (opt_get (opt_first (opt_get output (js "choices"))) (js "message"))
            (js "content") in
  _ ← throw_if (negb (json_truthy jsonStr)) (Error (js "阿里云AI未返回有效审核结果"));
  auditResult0 ← JSON_parse (default JNull jsonStr);
  overallStatus ← get typeError (Some auditResult0) (js "overallStatus");
  mret (mkHttp 200
          (VerdictBody
             (coerce_status overallStatus)
             (or_else (opt_get (Some auditResult0) (js "summary"))
                      (JStr (js "未生成审核总结")))
             (or_else (opt_get (Some auditResult0) (js "issues")) (JArr []))
             t)).

Definition handler (method : jsstring) (req_body : option Request) : HttpResponse :=
  if jseq method (js "OPTIONS") then mkHttp 200 NoBody
  else if negb (jseq method (js "POST"))
  then mkHttp 405 (ErrorBody (js "只支持POST请求哦～"))
  else
    match handler_try req_body with
    | Fulfilled r => r
    | Rejected error =>
        mkHttp 500
          (VerdictBody
             (js "ERROR")
             (JStr (js "审核失败：" ++
                      (if truthy (message error) then message error
                       else js "未知错误")))
             (JArr
                [ JObj
                    [ (js "category", JStr (js "special_rules"));
                      (js "rule", JStr (js "AI审核服务异常"));
                      (js "description",
                        JStr (if truthy (message error) then message error
                              else js "请检查阿里云API Key是否正确，或阿里云账号是否开通通义千问服务"));
                      (js "severity", JStr (js "high"));
                      (js "location", JStr []) ] ])
             t)
    end.
End Handler.

(* ================================================================== *)
(** ** Invariants of a batch run *)
(* ================================================================== *)

(** A computation waiting for a promise. *)
Definition suspended {A} (p : Proc A) : Prop :=
  match p with
  | AwaitExtract _ _ | AwaitFetch _ _ | AwaitJson _ _ => True
  | _ => False
  end.

(** The extractor is called at the head of [p] or not at all. *)
Definition extract_first {A} (p : Proc A) : Prop :=
  match p with
  | AwaitExtract _ k => forall s, no_extract (k s)
  | _ => no_extract p
  end.

Definition never (e : JsError) : Prop := False.

(** A document as [processFile] returns it. *)
Definition judged (d : DocFile) : Prop :=
  has_result d = true /\ isProcessing d = false.

(** [d] is the outcome for the queued document [f]. *)
Definition outcome_for (f d : DocFile) : Prop :=
  id d = id f /\ judged d.

Definition good_worker (w : Worker) : Prop :=
  match w with
  | Running p => suspended p /\ wp judged never p /\ extract_first p
  | Exited => True
  | Crashed _ => False
  end.

(** Every entry of [fs] with the id [x] is judged. *)
Definition all_judged (x : jsstring) (fs : list DocFile) : Prop :=
  forall d, In d fs -> id d = x -> judged d.

(** Some worker of [ws] is processing [f]. *)
Definition in_progress (ws : list Worker) (f : DocFile) : Prop :=
  exists j p, ws !! j = Some (Running p) /\ wp (outcome_for f) never p.

(** Where a document of the starting snapshot is: still queued, with a
    worker, or written back. *)
Definition covered (ws : list Worker) (fs q : list DocFile) (f : DocFile) : Prop :=
  In f q \/ in_progress ws f \/ all_judged (id f) fs.

(** The number of settlements a worker still needs is at most [b]. *)
Definition budget_ok (w : Worker) (b : nat) : Prop :=
  match w with
  | Running p => within p b
  | _ => True
  end.

Definition empty_content (d : DocFile) : bool := negb (truthy (content d)).

(** The number of workers [runBatchAudit] starts for [files0]. *)
Definition pool_size (files0 : list DocFile) : nat :=
  Nat.min (length (filesToProcess files0)) CONCURRENT_LIMIT.

(** What the documents, the queue and the ghost logs satisfy throughout a
    run over [files0]; [ws] are the workers at rest and [extra] holds of
    the documents with the worker that is running. *)
Record Shared (files0 : list DocFile) (ws : list Worker) (extra : DocFile -> Prop)
    (st : Batch) : Prop := mkShared {
  sh_ids : map id (files st) = map id files0;
  sh_rest : forall d, In d (files st) ->
      has_result d = true \/ exists f, In f (filesToProcess files0) /\ id f = id d;
  sh_cover : forall f, In f (filesToProcess files0) ->
                       covered ws (files st) (queue st) f \/ extra f;
  sh_log : map snd (dequeued st) ++ queue st = filesToProcess files0;
  sh_log_idx : forall e, In e (dequeued st) -> (fst e < pool_size files0)%nat;
  sh_extract :
    extractions st = map file (List.filter empty_content (map snd (dequeued st)))
}.

(** The invariant of the workers started so far, after [steps] settlements. *)
Record Inv (files0 : list DocFile) (steps : nat) (st : Batch) : Prop := mkInv {
  inv_shared : Shared files0 (workers st) (fun _ => False) st;
  inv_good : forall i w, workers st !! i = Some w -> good_worker w;
  inv_exit : (exists i, workers st !! i = Some Exited) -> queue st = [];
  inv_budget : exists bs, Forall2 budget_ok (workers st) bs /\
      (steps + list_sum bs + 3 * length (queue st)
         <= 3 * length (filesToProcess files0))%nat
}.

(** The verdict [analyzeReport] makes up when the call failed. *)
Definition failure_verdict (r : AuditResult) : Prop :=
  status r = ERROR /\ summary r <> [] /\
  exists i, issues r = [i] /\ category i = special_rules /\ severity i = high
            /\ description i = summary r.

(** The documents the worker [w] is processing. *)
Definition held_by (w : Worker) (f : DocFile) : Prop :=
  exists p, w = Running p /\ wp (outcome_for f) never p.

(* ================================================================== *)
(** ** Executions, requests and the export table *)
(* ================================================================== *)

(** [p] run to its end, its promises settling as [os] says, one after the
    other, the clock showing [t]: the value returned or the error thrown. *)
Fixpoint exec {A} (t : jsstring) (p : Proc A) (os : list Outcome) : option (A + JsError) :=
  match p with
  | Ret a => match os with [] => Some (inl a) | _ => None end
  | Throw e => match os with [] => Some (inr e) | _ => None end
  | Now k => exec t (k t) os
  | AwaitExtract _ k =>
      match os with
      | ExtractSettled s :: os' => exec t (k s) os'
      | _ => None
      end
  | AwaitFetch _ k =>
      match os with
      | FetchSettled s :: os' => exec t (k s) os'
      | _ => None
      end
  | AwaitJson _ k =>
      match os with
      | JsonSettled s :: os' => exec t (k s) os'
      | _ => None
      end
  end.

(** The extraction failed: its promise was rejected. *)
Definition extraction_failed (o : Outcome) : bool :=
  match o with
  | ExtractSettled (Rejected _) => true
  | _ => false
  end.

(** The judgment call failed: [fetch] was rejected (network error, or the
    30 s timeout), the response was not ok, or its body could not be read. *)
Definition judgment_failed (o : Outcome) : bool :=
  match o with
  | FetchSettled (Rejected _) => true
  | FetchSettled (Fulfilled r) => negb (ok r)
  | JsonSettled (Rejected _) => true
  | _ => false
  end.

(** The verdict [processFile] makes up in its own [catch]. *)
Definition processing_failure_verdict (r : AuditResult) : Prop :=
  status r = ERROR /\ summary r = js "文件处理失败。" /\ issues r = [].

(** The judgment requests [p] sends while its promises settle as [os] says. *)
Fixpoint requests {A} (t : jsstring) (p : Proc A) (os : list Outcome) : list Request :=
  match p with
  | Ret _ | Throw _ => []
  | Now k => requests t (k t) os
  | AwaitExtract _ k =>
      match os with
      | ExtractSettled s :: os' => requests t (k s) os'
      | _ => []
      end
  | AwaitFetch req k =>
      req :: match os with
             | FetchSettled s :: os' => requests t (k s) os'
             | _ => []
             end
  | AwaitJson _ k =>
      match os with
      | JsonSettled s :: os' => requests t (k s) os'
      | _ => []
      end
  end.

(** [fields.join(",")] *)
Fixpoint join_comma (fields : list jsstring) : jsstring :=
  match fields with
  | [] => []
  | [x] => x
  | x :: rest => x ++ [COMMA] ++ join_comma rest
  end.

(** The values of the eight columns of the row of an issue. *)
Definition issue_values (f : DocFile) (r : AuditResult) (issue : AuditIssue) : list jsstring :=
  [ name (file f); statusLabel (status r); summary r;
    CATEGORY_MAP_label (category issue); rule issue; description issue;
    severityLabel (severity issue); default [] (location issue) ].

(** The values of the placeholder row of a verdict without issues. *)
Definition placeholder_values (f : DocFile) (r : AuditResult) : list jsstring :=
  [ name (file f); statusLabel (status r); summary r; []; []; []; []; [] ].

(** The table of the export: one list of values per row. *)
Definition csv_table (f : DocFile) (r : AuditResult) : list (list jsstring) :=
  match issues r with
  | [] => [placeholder_values f r]
  | _ :: _ => map (issue_values f r) (issues r)
  end.

(** A row of the table as it is written: every value escaped, the fields
    joined by commas, the line ended. *)
Definition csv_line (values : list jsstring) : jsstring :=
  join_comma (map escape values) ++ [NEWLINE].

(* ================================================================== *)
(** ** Sample data *)
(* ================================================================== *)

Definition sample_rules : list RuleConfig :=
  [ mkRule (js "default-0") (js "A") true workflow_logic;
    mkRule (js "default-1") (js "B") false result_determination;
    mkRule (js "default-2") (js "C") true text_editing ].

Definition sample_doc (k : N) : DocFile :=
  mkDocFile (js "doc" ++ decimal k)
            (mkFile (js "report" ++ decimal k ++ js ".docx") k) [] None false.

Definition five_docs : list DocFile := map sample_doc [1; 2; 3; 4; 5].

Definition pass_verdict : AuditResult := mkResult PASS (js "ok") [] (js "T1").

Definition extracted (i : nat) (html : jsstring) : Event :=
  mkEvent i (js "T1") (ExtractSettled (Fulfilled html)).
Definition responded (i : nat) : Event :=
  mkEvent i (js "T1") (FetchSettled (Fulfilled (mkResponse true 200))).
Definition timed_out (i : nat) : Event :=
  mkEvent i (js "T2")
    (FetchSettled (Rejected (mkError (js "TimeoutError") (js "signal timed out")))).
Definition passed (i : nat) : Event :=
  mkEvent i (js "T1") (JsonSettled (Fulfilled pass_verdict)).

(** Five uploads, the judgment call of the second one times out. *)
Definition five_docs_schedule : list Event :=
  [ extracted 0 (js "<p>1</p>"); extracted 1 (js "<p>2</p>"); extracted 2 (js "<p>3</p>");
    responded 0; timed_out 1; passed 0; responded 2; passed 2;
    extracted 1 (js "<p>4</p>"); extracted 0 (js "<p>5</p>");
    responded 1; responded 0; passed 0; passed 1 ].

Definition verdict_status (d : DocFile) : option AuditStatus :=
  match auditResult d with Some r => Some (status r) | None => None end.

Definition issue_count (d : DocFile) : option nat :=
  match auditResult d with Some r => Some (length (issues r)) | None => None end.

(** The statuses of the [AuditStatus] enum a verdict may carry. *)
Definition verdict_statuses : list jsstring :=
  [js "PASS"; js "FAIL"; js "WARNING"; js "ERROR"].

(** A sheet with the header of the specification's example. *)
Definition english_header_sheet : list Row :=
  [ [Some (js "type"); Some (js "content")];
    [Some (js "文本编辑"); Some (js "报告编号必须出现在页眉处")] ].

Definition template_sheet : list Row :=
  [ [Some (js "规则类型"); Some (js "规则内容")];
    [Some (js "文本编辑"); Some (js "报告编号必须出现在页眉处")];
    [Some (js "结果判定"); Some (js "检测结果数值不能为负数")];
    [Some (js "其他"); Some (js " 报告日期必须晚于检测结束日期 ")];
    [Some (js "流转逻辑")] ].

(** A rule file whose first type cell is the name of a member that every
    object literal inherits. *)
Definition inherited_label_sheet : list Row :=
  [ [Some (js "规则类型"); Some (js "规则内容")];
    [Some (js " constructor "); Some (js "x")];
    [Some (js "其他"); Some (js "y")] ].

(** An upstream answer: the text of the verdict sits at
    [output.choices[0].message.content]. *)
Definition upstream_answer : Json :=
  JObj [ (js "output",
          JObj [ (js "choices",
                  JArr [ JObj [ (js "message",
                                 JObj [ (js "content", JStr (js "{...}")) ]) ] ]) ]) ].

(** What [JSON.parse] makes of that text: a verdict with the status [s]. *)
Definition parsed_verdict (s : jsstring) : Json :=
  JObj [ (js "overallStatus", JStr s); (js "summary", JStr (js "done"));
         (js "issues", JArr []) ].

Definition a_type_error : JsError :=
  mkError (js "TypeError") (js "Cannot read properties of undefined").

(** Two files of one drop that have the same name. *)
Definition twin_a : File := mkFile (js "a.docx") 1.
Definition twin_b : File := mkFile (js "a.docx") 2.

(* ================================================================== *)
(** ** components/Dashboard.tsx: the rule list and its pages *)
(* ================================================================== *)

(** [setRules(prev => prev.map(r => r.id === id ? { ...r, enabled: !r.enabled } : r))] *)
Definition toggleRule (id0 : jsstring) (prev : list RuleConfig) : list RuleConfig :=
  map (fun r => if jseq (rule_id r) id0
                then mkRule (rule_id r) (text r) (negb (enabled r)) (rule_category r)
                else r) prev.

(** [setRules(prev => prev.filter(r => r.id !== id))] *)
Definition removeRule (id0 : jsstring) (prev : list RuleConfig) : list RuleConfig :=
  List.filter (fun r => negb (jseq (rule_id r) id0)) prev.

Definition ITEMS_PER_PAGE : Z := 5.

(** [Array.prototype.slice(start, end)], negative indices counting from the
    end of the array. *)
Definition slice {A} (start end_ : Z) (l : list A) : list A :=
  let len := Z.of_nat (length l) in
  let k := if (start <? 0)%Z then Z.max (len + start) 0 else Z.min start len in
  let final := if (end_ <? 0)%Z then Z.max (len + end_) 0 else Z.min end_ len in
  firstn (Z.to_nat (final - k)) (skipn (Z.to_nat k) l).

(** [Math.ceil(n / ITEMS_PER_PAGE)] for the length [n] of an array. *)
Definition page_count (n : nat) : Z :=
  ((Z.of_nat n + ITEMS_PER_PAGE - 1) / ITEMS_PER_PAGE)%Z.

(** [Math.ceil(rules.length / ITEMS_PER_PAGE) || 1] *)
Definition totalPages (rules : list RuleConfig) : Z :=
  if (page_count (length rules) =? 0)%Z then 1%Z else page_count (length rules).

(** [rules.slice(startIndex, startIndex + ITEMS_PER_PAGE)] with
    [startIndex = (currentPage - 1) * ITEMS_PER_PAGE]. *)
Definition currentRules (rules : list RuleConfig) (currentPage : Z) : list RuleConfig :=
  let startIndex := ((currentPage - 1) * ITEMS_PER_PAGE)%Z in
  slice startIndex (startIndex + ITEMS_PER_PAGE)%Z rules.

Definition goToPrevious (p : Z) : Z := Z.max 1 (p - 1).

Definition goToNext (rules : list RuleConfig) (p : Z) : Z :=
  Z.min (totalPages rules) (p + 1).

(** The effect that runs when the number of rules or the page changes. *)
Definition clamp_page (rules : list RuleConfig) (currentPage : Z) : Z :=
  if (totalPages rules <? currentPage)%Z then totalPages rules else currentPage.

(** The states [addRule] reads and writes. *)
Record RulePanel := mkRulePanel {
  panel_rules : list RuleConfig;
  newRuleInput : jsstring;
  newRuleCategory : RuleCategory;
  currentPage : Z
}.

(** [addRule()], called when [Date.now()] is [dateNow], with the page jump
    of its [setTimeout] done. *)
Definition addRule (dateNow : N) (ui : RulePanel) : RulePanel :=
  if negb (truthy (trim (newRuleInput ui))) then ui
  else
    let newRule := mkRule (decimal dateNow) (trim (newRuleInput ui)) true
                          (newRuleCategory ui) in
    mkRulePanel (panel_rules ui ++ [newRule]) [] (newRuleCategory ui)
                (page_count (length (panel_rules ui) + 1)).

(** The pages [1 .. totalPages]. *)
Definition page_numbers (rules : list RuleConfig) : list Z :=
  map (fun k => (Z.of_nat k + 1)%Z) (seq 0 (Z.to_nat (totalPages rules))).

(** A string without white space at its start. *)
Definition no_leading_ws (s : jsstring) : Prop :=
  match s with
  | [] => True
  | c :: _ => is_ws c = false
  end.

(* ================================================================== *)
(** ** components/Dashboard.tsx: dropping and previewing files *)
(* ================================================================== *)

(** [f.file.name] *)
Definition file_name (d : DocFile) : jsstring := name (file d).

(** [s.startsWith(prefix)] *)
Fixpoint startsWith (s prefix : jsstring) {struct prefix} : bool :=
  match prefix with
  | [] => true
  | p :: prefix' =>
      match s with
      | [] => false
      | c :: s' => (c =? p) && startsWith s' prefix'
      end
  end.

(** [s.endsWith(suffix)] *)
Definition endsWith (s suffix : jsstring) : bool :=
  startsWith (rev s) (rev suffix).

(** [f.name.endsWith('.docx') || f.name.endsWith('.DOCX')] *)
Definition is_docx (f : File) : bool :=
  endsWith (name f) (js ".docx") || endsWith (name f) (js ".DOCX").

(** [handleDrop]: the files of the drop are filtered, and handed to
    [processNewFiles] unless none is left (then an alert is shown). *)
Definition handleDrop (files : list DocFile) (confirm : nat -> bool)
    (randomId : nat -> jsstring) (dropped : list File) (prev : list DocFile)
  : list DocFile :=
  let droppedFiles := List.filter is_docx dropped in
  if (0 <? length droppedFiles)%nat
  then processNewFiles files confirm randomId droppedFiles prev
  else prev.

(** What a click on the preview button of [f] leads to: the document shown
    in the preview window with, when its content had to be extracted, the
    document written to the list; or the alert. *)
Inductive PreviewResult :=
| Previewed (previewFile : DocFile) (updatedFile : option DocFile)
| CannotPreview.

Definition previewClick (f : DocFile) : Proc PreviewResult :=
  if negb (truthy (content f))
  then
    try_catch
      (content' ← extractContentFromDocx (file f);
       let updatedFile :=
         mkDocFile (id f) (file f) content' (auditResult f) (isProcessing f) in
       mret (Previewed updatedFile (Some updatedFile)))
      (fun _ => mret CannotPreview)
  else mret (Previewed f None).

(** [setFiles(prev => prev.map(f => f.id === file.id ? updatedFile : f))] *)
Definition preview_files (r : PreviewResult) (prev : list DocFile) : list DocFile :=
  match r with
  | Previewed _ (Some updatedFile) => complete updatedFile prev
  | _ => prev
  end.

(* ================================================================== *)
(** ** services/ruleImporter.ts: rows, ids and the export *)
(* ================================================================== *)

(** The id given to the rule of row [i]: [`import-${Date.now()}-${i}`]. *)
Definition import_id (dateNow : nat -> N) (i : nat) : jsstring :=
  js "import-" ++ decimal (dateNow i) ++ js "-" ++ decimal (N.of_nat i).

(** A data row the loop of [parseRulesFile] makes a rule of: at least two
    cells, and a type and a content that are not empty once trimmed. *)
Definition valid_row (row : Row) : bool :=
  (2 <=? length row)%nat
  && opt_truthy (cell_trim row 0) && opt_truthy (cell_trim row 1).

(** [CATEGORY_REVERSE_MAP[typeCN] || 'special_rules'] for the row. *)
Definition row_category (row : Row) : CategoryValue :=
  match CATEGORY_REVERSE_MAP (default [] (cell_trim row 0)) with
  | Some c => c
  | None => Category special_rules
  end.

(** The trimmed type cell of the row, [row[0]?.trim()]. *)
Definition row_type (row : Row) : jsstring := default [] (cell_trim row 0).

Definition row_text (row : Row) : jsstring := default [] (cell_trim row 1).

(** The rule made of the row with index [k]. *)
Definition rule_of_row (dateNow : nat -> N) (kr : nat * Row) : RuleConfig :=
  mkRule (import_id dateNow (fst kr)) (row_text (snd kr)) true (row_category (snd kr)).

(** The rows with their indices in [jsonData], counted from [i]. *)
Definition numbered (i : nat) (rows : list Row) : list (nat * Row) :=
  combine (seq i (length rows)) rows.

(** [categoryMap[r.category] || '特殊规则'] of [exportRulesToExcel].  An
    inherited member used as a key is turned into its source text, which is
    no key of the literal nor of its prototype: the default label. *)
Definition categoryMap (c : CategoryValue) : jsstring :=
  match c with
  | Category text_editing => js "文本编辑"
  | Category workflow_logic => js "流转逻辑"
  | Category result_determination => js "结果判定"
  | Category special_rules => js "特殊规则"
  | ProtoMember _ => js "特殊规则"
  end.

(** The category whose label [exportRulesToExcel] writes for a rule. *)
Definition exported_category (c : CategoryValue) : RuleCategory :=
  match c with
  | Category c' => c'
  | ProtoMember _ => special_rules
  end.

(** The rows [exportRulesToExcel] hands to the spreadsheet library:
    [[headers, ...rules.map(r => [categoryMap[r.category], r.text])]]. *)
Definition export_rows (rules : list RuleConfig) : list Row :=
  [Some (js "规则类型"); Some (js "规则内容")]
    :: map (fun r => [Some (categoryMap (rule_category r)); Some (text r)]) rules.

(** A decimal digit. *)
Definition is_digit (c : N) : Prop := 48 <= c <= 57.

(* ================================================================== *)
(** ** api/analyze-report.ts: the prompt and the error response *)
(* ================================================================== *)

(** The report and the rule list the handler splices into its prompt for
    the request [rq]. *)
Definition prompt_of (rq : Request) : Prompt :=
  mkPrompt
    (if MAX_CONTENT_LENGTH <? N.of_nat (length (docContent rq))
     then firstn (N.to_nat MAX_CONTENT_LENGTH) (docContent rq)
     else docContent rq)
    (join_lines (map (fun r => js "- " ++ r) (req_rules rq))).

(** [data.output?.choices?.[0]?.message?.content] of the upstream answer
    [data]. *)
Definition answer_content (data : Json) : JsValue :=
  opt_get (opt_get (opt_first (opt_get (opt_get (Some data) (js "output")) (js "choices")))
                   (js "message"))
          (js "content").

(** The issues of a response body, when they are an array. *)
Definition body_issues (b : ResponseBody) : list Json :=
  match b with
  | VerdictBody _ _ (JArr items) _ => items
  | _ => []
  end.

(** The summary of a response body, when it is a string. *)
Definition body_summary (b : ResponseBody) : jsstring :=
  match b with
  | VerdictBody _ (JStr s) _ _ => s
  | _ => []
  end.

Definition body_status (b : ResponseBody) : jsstring :=
  match b with
  | VerdictBody s _ _ _ => s
  | _ => []
  end.

(** What [fetch] shows the client of a response of the handler:
    [response.ok] holds for the codes 200 to 299. *)
Definition http_response_of (h : HttpResponse) : Response :=
  mkResponse ((200 <=? code h) && (code h <=? 299)) (code h).

(* ================================================================== *)
(** ** Batch runs: what is tracked besides the verdicts *)
(* ================================================================== *)

(** [d] has the id of a document of the starting snapshot of [files0]. *)
Definition in_batch (files0 : list DocFile) (d : DocFile) : Prop :=
  exists f, In f (filesToProcess files0) /\ id f = id d.

(** The verdict of [d] lists at least one issue. *)
Definition has_issues (d : DocFile) : Prop :=
  exists r, auditResult d = Some r /\ issues r <> [].

(** A second invariant of a batch run over [files0] started with the
    expanded set [expanded0]: whom the workers work for, which documents
    are left alone, and what the expanded set holds. *)
Record Tracked (files0 : list DocFile) (expanded0 : list jsstring) (st : Batch)
  : Prop := mkTracked {
  tr_workers : forall i p, workers st !! i = Some (Running p) ->
      exists f, In f (filesToProcess files0) /\ wp (outcome_for f) never p;
  tr_queue : forall f, In f (queue st) -> In f (filesToProcess files0);
  tr_frame : forall k d0, files0 !! k = Some d0 -> ~ in_batch files0 d0 ->
      files st !! k = Some d0;
  tr_state : forall d, In d (files st) -> in_batch files0 d ->
      isProcessing d = true \/ judged d;
  tr_expand : forall d, In d (files st) -> in_batch files0 d ->
      isProcessing d = false -> has_issues d -> In (id d) (expandedFiles st);
  tr_expanded : forall x, In x (expandedFiles st) ->
      In x expanded0 \/ exists f, In f (filesToProcess files0) /\ id f = x;
  tr_kept : forall x, In x expanded0 -> In x (expandedFiles st)
}.

(** A list with a judged document and two new ones. *)
Definition judged_doc : DocFile :=
  mkDocFile (js "old") (mkFile (js "old.docx") 9) (js "<p>old</p>")
            (Some (mkResult FAIL (js "1 issue")
                     [mkIssue (js "A") (js "bad date") high None workflow_logic]
                     (js "T0")))
            false.

Definition mixed_docs : list DocFile := [sample_doc 1; judged_doc; sample_doc 2].

Definition failing_verdict : AuditResult :=
  mkResult FAIL (js "1 issue")
    [mkIssue (js "C") (js "no conclusion") medium (Some (js "p. 2")) text_editing]
    (js "T1").

Definition mixed_schedule : list Event :=
  [ extracted 0 (js "<p>1</p>"); responded 0;
    mkEvent 0 (js "T1") (JsonSettled (Fulfilled failing_verdict));
    extracted 1 (js "<p>2</p>"); responded 1; passed 1 ].

(* ================================================================== *)
(** ** services/wordParser.ts: the white space of the extracted text *)
(* ================================================================== *)

(** The scan of [html.replace(/\s+/g, ' ')]; [in_run] tells that the
    character before was white space, already replaced. *)
Fixpoint collapse_from (in_run : bool) (s : jsstring) : jsstring :=
  match s with
  | [] => []
  | c :: r =>
      if is_ws c
      then (if in_run then collapse_from true r else 32 :: collapse_from true r)
      else c :: collapse_from false r
  end.

(** [html.replace(/\s+/g, ' ')]: every maximal run of white space becomes
    one space.  [\s] matches the characters [trim] strips. *)
Definition collapse_whitespace (html : jsstring) : jsstring :=
  collapse_from false html.

(** No white space but single spaces, and no two of them in a row. *)
Fixpoint single_spaced (s : jsstring) : Prop :=
  match s with
  | [] => True
  | c :: r =>
      (is_ws c = true -> c = 32 /\ match r with
                                   | [] => True
                                   | d :: _ => is_ws d = false
                                   end)
      /\ single_spaced r
  end.

(** The characters of [s] that are not white space. *)
Definition visible (s : jsstring) : jsstring :=
  List.filter (fun c => negb (is_ws c)) s.

(* ================================================================== *)
(** ** Proof automation *)
(* ================================================================== *)

(** Case analysis on the ways the promises of a computation settle. *)
Ltac settle_all :=
  repeat first
    [ progress cbn
    | match goal with
      | |- forall _ : Settled _, _ => intros [?|?]
      | |- forall _ : jsstring, _ => intro
      | |- context [if negb (ok ?r) then _ else _] => destruct (ok r)
      | |- _ /\ _ => split
      end ].

(** Case analysis on the outcomes fed to [exec]. *)
Ltac exec_cases H :=
  repeat (cbn in H;
          match type of H with
          | context [match ?os with [] => _ | _ :: _ => _ end] =>
              is_var os; destruct os as [|[[?|?]|[?|?]|[?|?]] os]
          | context [if negb (ok ?r) then _ else _] => destruct (ok r) eqn:?
          end; try discriminate H).

(* ================================================================== *)
(** ** Strings and computations *)
(* ================================================================== *)

(** The literals of the sources, as code units. *)
Example js_header_labels :
  js "规则类型" = [35268; 21017; 31867; 22411]
  /\ js "规则内容" = [35268; 21017; 20869; 23481]
  /\ js "a.docx" = [97; 46; 100; 111; 99; 120].
Proof. vm_compute. repeat split. Qed.

Example decimal_examples :
  decimal 0 = js "0" /\ decimal 500 = js "500" /\ decimal 1700000000000 = js "1700000000000".
Proof. vm_compute. repeat split. Qed.

Example trim_examples :
  trim (js "  规则类型 ") = js "规则类型"
  /\ trim ([12288; 9] ++ js "a b" ++ [13; 10]) = js "a b"
  /\ trim (js "   ") = [].
Proof. vm_compute. repeat split. Qed.

Arguments js : simpl never.
Arguments decimal : simpl never.

Lemma jseq_eq (a b : jsstring) : jseq a b = true <-> a = b.
Proof.
  revert b; induction a as [|x a IH]; intros [|y b]; simpl; split; try congruence.
  - rewrite andb_true_iff, N.eqb_eq, IH. intros [-> ->]; reflexivity.
  - intros [= -> ->]. rewrite N.eqb_refl. simpl. apply IH. reflexivity.
Qed.

Lemma jseq_refl (a : jsstring) : jseq a a = true.
Proof. apply jseq_eq; reflexivity. Qed.

Lemma jseq_neq (a b : jsstring) : jseq a b = false <-> a <> b.
Proof.
  rewrite <- jseq_eq. destruct (jseq a b); split; congruence.
Qed.

Lemma truthy_nonempty (s : jsstring) : truthy s = true <-> s <> [].
Proof. destruct s; simpl; split; congruence. Qed.

Arguments jseq : simpl never.

(** *** Computations *)

Lemma wp_mono {A} (Q Q' : A -> Prop) (E E' : JsError -> Prop) (p : Proc A) :
  (forall a, Q a -> Q' a) -> (forall e, E e -> E' e) -> wp Q E p -> wp Q' E' p.
Proof.
  intros HQ HE. induction p; simpl; eauto.
Qed.

Lemma wp_bind {A B} (Q : B -> Prop) (E : JsError -> Prop) (p : Proc A) (f : A -> Proc B) :
  wp (fun a => wp Q E (f a)) E p -> wp Q E (bind p f).
Proof. induction p; simpl; eauto. Qed.

Lemma wp_try_catch {A} (Q : A -> Prop) (E : JsError -> Prop) (p : Proc A) h :
  wp Q (fun e => wp Q E (h e)) p -> wp Q E (try_catch p h).
Proof. induction p; simpl; eauto. Qed.

Lemma wp_advance {A} (Q : A -> Prop) E t (p : Proc A) :
  wp Q E p -> wp Q E (advance t p).
Proof. induction p; simpl; eauto. Qed.

Lemma within_advance {A} t (p : Proc A) n : within p n -> within (advance t p) n.
Proof. induction p; simpl; eauto. Qed.

Lemma no_extract_advance {A} t (p : Proc A) : no_extract p -> no_extract (advance t p).
Proof. induction p; simpl; eauto. Qed.

Lemma advance_suspended {A} t (p : Proc A) : suspended p -> advance t p = p.
Proof. destruct p; simpl; tauto. Qed.

Lemma advance_cases {A} t (p : Proc A) :
  (exists a, advance t p = Ret a) \/ (exists e, advance t p = Throw e)
  \/ suspended (advance t p).
Proof.
  induction p; simpl; eauto.
Qed.

Lemma wp_resume {A} (Q : A -> Prop) E (p p' : Proc A) o :
  resume p o = Some p' -> wp Q E p -> wp Q E p'.
Proof.
  destruct p, o; simpl; intros [= <-]; auto.
Qed.

Lemma within_resume {A} (p p' : Proc A) o n :
  resume p o = Some p' -> within p n -> exists m, n = S m /\ within p' m.
Proof.
  destruct p, o; simpl; intros [= <-]; destruct n; try tauto; eauto.
Qed.

Lemma no_extract_resume {A} (p p' : Proc A) o :
  resume p o = Some p' -> extract_first p -> no_extract p'.
Proof.
  destruct p, o; simpl; intros [= <-]; auto.
Qed.

Lemma resume_suspended {A} (p : Proc A) :
  suspended p -> exists o, is_Some (resume p o).
Proof.
  destruct p; simpl; try tauto; intros _.
  - exists (ExtractSettled (Fulfilled [])); eauto.
  - exists (FetchSettled (Fulfilled (mkResponse true 200))); eauto.
  - exists (JsonSettled (Rejected (Error []))); eauto.
Qed.

(* ================================================================== *)
(** ** Single-file processing *)
(* ================================================================== *)

(** *** analyzeReport *)


Lemma errorMessage_nonempty (e : JsError) :
  (if jseq (err_name e) (js "AbortError")
   then js "请求超时啦（文档太大或网络慢）"
   else if truthy (message e) then message e
        else js "审核服务调用失败，请稍后重试") <> [].
Proof.
  destruct (jseq _ _); [ discriminate | ].
  destruct (truthy (message e)) eqn:T; [ now apply truthy_nonempty | discriminate ].
Qed.

(** [analyzeReport] never throws; what it returns without a parsed body is
    a failure verdict. *)
Lemma analyzeReport_wp c rs : wp (fun _ => True) never (analyzeReport c rs).
Proof. unfold analyzeReport. settle_all; exact I. Qed.

Lemma processFile_outcome rules f :
  wp (outcome_for f) never (processFile rules (in_processing f)).
Proof.
  unfold processFile, outcome_for, judged.
  destruct (truthy (content (in_processing f))); settle_all; reflexivity.
Qed.

Lemma processFile_within rules d : within (processFile rules d) 3.
Proof.
  unfold processFile. destruct (truthy (content d)); settle_all; exact I.
Qed.

Lemma processFile_suspended rules d : suspended (processFile rules d).
Proof.
  unfold processFile. destruct (truthy (content d)); exact I.
Qed.

Lemma processFile_extract_first rules d : extract_first (processFile rules d).
Proof.
  unfold processFile. destruct (truthy (content d)); settle_all; exact I.
Qed.

Lemma processFile_note rules d st :
  note_extraction (processFile rules d) st =
  if empty_content d
  then mkBatch (files st) (expandedFiles st) (queue st) (workers st)
               (dequeued st) (extractions st ++ [file d])
  else st.
Proof.
  unfold processFile, empty_content. destruct (truthy (content d)); reflexivity.
Qed.

(* ================================================================== *)
(** ** The worker pool: invariants *)
(* ================================================================== *)

Open Scope nat_scope.

(** *** Write-back *)

Lemma complete_ids processed prev : map id (complete processed prev) = map id prev.
Proof.
  unfold complete. rewrite map_map. apply map_ext_in. intros f _.
  destruct (jseq (id f) (id processed)) eqn:E; [ | reflexivity ].
  apply jseq_eq in E. congruence.
Qed.

Lemma in_complete processed prev d :
  In d (complete processed prev) ->
  (d = processed /\ exists f, In f prev /\ id f = id processed)
  \/ (In d prev /\ id d <> id processed).
Proof.
  unfold complete. rewrite in_map_iff. intros (f & Hf & Hin).
  destruct (jseq (id f) (id processed)) eqn:E.
  - apply jseq_eq in E. left. split; [ congruence | eauto ].
  - apply jseq_neq in E. right. subst d. auto.
Qed.

Lemma all_judged_complete processed prev x :
  judged processed -> all_judged x prev -> all_judged x (complete processed prev).
Proof.
  intros Hp Hall d Hin Hid.
  destruct (in_complete _ _ _ Hin) as [[-> _]|[Hin' _]]; auto.
Qed.

Lemma all_judged_complete_self processed prev :
  judged processed -> all_judged (id processed) (complete processed prev).
Proof.
  intros Hp d Hin Hid.
  destruct (in_complete _ _ _ Hin) as [[-> _]|[_ Hne]]; [ auto | contradiction ].
Qed.

Lemma covered_complete ws processed fs q f :
  judged processed -> covered ws fs q f -> covered ws (complete processed fs) q f.
Proof.
  intros Hp [H|[H|H]]; [ left | right; left | right; right ]; auto.
  now apply all_judged_complete.
Qed.

Lemma mark_processing_ids toProcess prev :
  map id (mark_processing toProcess prev) = map id prev.
Proof.
  unfold mark_processing. rewrite map_map. apply map_ext. intros f.
  destruct (existsb _ _); reflexivity.
Qed.

(** *** One worker, from the head of its loop *)

Section PoolWorker.
Variable rules : list RuleConfig.
Variable files0 : list DocFile.

Lemma worker_loop_post ws i t st st' w :
  worker_loop rules i t (queue st) st = (st', w) ->
  i < pool_size files0 ->
  Shared files0 ws (fun _ => False) st ->
  Shared files0 ws (held_by w) st' /\ good_worker w /\ workers st' = workers st
  /\ (w = Exited -> queue st' = [])
  /\ length (queue st') <= length (queue st)
  /\ exists b, budget_ok w b /\ b + 3 * length (queue st') <= 3 * length (queue st).
Proof.
  intros Hloop Hi [Hids Hrest Hcov Hlog Hidx Hext].
  destruct (queue st) as [|f rest] eqn:Hq; simpl in Hloop.
  - injection Hloop as <- <-. rewrite Hq.
    split; [ constructor; rewrite ?Hq; auto | ].
    { intros f Hf. destruct (Hcov f Hf) as [H|[]]. now left. }
    repeat split; auto.
    exists 0. simpl. split; [ exact I | lia ].
  - pose proof (processFile_suspended rules (in_processing f)) as Hsus.
    rewrite (advance_suspended _ _ Hsus) in Hloop.
    assert (Hrun : (st', w) =
              (note_extraction (processFile rules (in_processing f))
                 (shift i f rest st),
               Running (processFile rules (in_processing f)))).
    { rewrite <- Hloop. destruct (processFile rules (in_processing f));
        simpl in Hsus; try contradiction; reflexivity. }
    clear Hloop. injection Hrun as -> ->.
    rewrite processFile_note.
    assert (Hec : empty_content (in_processing f) = empty_content f) by reflexivity.
    rewrite Hec.
    repeat split.
    + destruct (empty_content f); exact Hids.
    + destruct (empty_content f); exact Hrest.
    + intros g Hg. destruct (Hcov g Hg) as [[Hin|[Hin|Hin]]|[]].
      * destruct Hin as [<-|Hin].
        -- right. eexists; split; [ reflexivity | apply processFile_outcome ].
        -- left. left. destruct (empty_content f); exact Hin.
      * left. right. left. exact Hin.
      * left. right. right. destruct (empty_content f); exact Hin.
    + rewrite <- Hlog. destruct (empty_content f); simpl;
        rewrite map_app, <- app_assoc; reflexivity.
    + intros e He.
      assert (He' : In e (dequeued st ++ [(i, f)]))
        by (destruct (empty_content f); exact He).
      apply in_app_or in He'. destruct He' as [He'|[<-|[]]]; auto.
    + destruct (empty_content f) eqn:Ef; simpl;
        rewrite List.map_app, List.filter_app, List.map_app, Hext; simpl; rewrite Ef;
        simpl; rewrite ?app_nil_r; reflexivity.
    + exact Hsus.
    + eapply wp_mono; [ | | apply (processFile_outcome rules f) ];
        [ intros a [_ Ha]; exact Ha | auto ].
    + apply processFile_extract_first.
    + destruct (empty_content f); reflexivity.
    + discriminate.
    + destruct (empty_content f); simpl; lia.
    + exists 3. split; [ apply processFile_within | ].
      destruct (empty_content f); simpl; lia.
Qed.
End PoolWorker.

Lemma list_sum_insert (bs : list nat) i b b' :
  bs !! i = Some b -> list_sum (<[i:=b']> bs) + b = list_sum bs + b'.
Proof.
  revert i; induction bs as [|x bs IH]; intros [|i]; simpl; try discriminate.
  - intros [= ->]. lia.
  - intros H. specialize (IH _ H). lia.
Qed.

Lemma list_sum_snoc (bs : list nat) b : list_sum (bs ++ [b]) = list_sum bs + b.
Proof. rewrite list_sum_app. simpl. lia. Qed.

Section PoolStep.
Variable rules : list RuleConfig.
Variable files0 : list DocFile.

Lemma continue_post ws i t p st st' w m :
  continue rules i t p st = (st', w) ->
  i < pool_size files0 ->
  wp judged never p -> no_extract p -> within p m ->
  Shared files0 ws (fun f => wp (outcome_for f) never p) st ->
  Shared files0 ws (held_by w) st' /\ good_worker w /\ workers st' = workers st
  /\ (w = Exited -> queue st' = [])
  /\ length (queue st') <= length (queue st)
  /\ exists b, budget_ok w b /\ b + 3 * length (queue st') <= m + 3 * length (queue st).
Proof.
  intros Hc Hi Hwp Hne Hin [Hids Hrest Hcov Hlog Hidx Hext].
  unfold continue in Hc.
  pose proof (wp_advance _ _ t _ Hwp) as Hwp'.
  pose proof (no_extract_advance t _ Hne) as Hne'.
  pose proof (within_advance t _ _ Hin) as Hin'.
  destruct (advance_cases t p) as [[a Ha]|[[e He]|Hs]].
  - rewrite Ha in Hc, Hwp'. simpl in Hwp'.
    assert (Hsh : Shared files0 ws (fun _ => False) (write_back a st)).
    { constructor; simpl; auto.
      - now rewrite complete_ids.
      - intros d Hd. destruct (in_complete _ _ _ Hd) as [[-> _]|[Hd' _]]; auto.
        left. apply Hwp'.
      - intros f Hf. left. destruct (Hcov f Hf) as [H|H].
        + now apply covered_complete.
        + apply (wp_advance _ _ t) in H. rewrite Ha in H. destruct H as [Hid _].
          right; right. rewrite <- Hid. now apply all_judged_complete_self. }
    destruct (worker_loop_post rules files0 ws i t _ _ _ Hc Hi Hsh)
      as (H1 & H2 & H3 & H4 & H5 & b & H6 & H7).
    simpl in H3, H5, H7.
    split; [ exact H1 | ]. split; [ exact H2 | ]. split; [ exact H3 | ].
    split; [ exact H4 | ]. split; [ exact H5 | ].
    exists b. split; [ exact H6 | lia ].
  - rewrite He in Hwp'. destruct Hwp'.
  - assert (Hrun : (st', w) = (st, Running (advance t p))).
    { rewrite <- Hc. destruct (advance t p); simpl in Hs, Hne' |- *;
        try contradiction; reflexivity. }
    injection Hrun as -> ->.
    repeat split; auto.
    + intros f Hf. destruct (Hcov f Hf) as [H|H]; [ now left | right ].
      eexists; split; [ reflexivity | now apply wp_advance ].
    + destruct (advance t p); simpl in Hs, Hne' |- *; auto; contradiction.
    + discriminate.
    + exists m. split; [ exact Hin' | lia ].
Qed.

Lemma resolve_inv steps ev st st2 :
  Inv files0 steps st -> length (workers st) = pool_size files0 ->
  resolve rules ev st = Some st2 ->
  Inv files0 (S steps) st2 /\ length (workers st2) = length (workers st).
Proof.
  intros [[Hids Hrest Hcov Hlog Hidx Hext] Hgood Hexit (bs & Hbs & Hsum)] Hsize Hres.
  unfold resolve in Hres. set (i := ev_worker ev) in *.
  destruct (workers st !! i) as [[p| |]|] eqn:Hw; try discriminate.
  destruct (resume p (ev_outcome ev)) as [p'|] eqn:Hr; try discriminate.
  destruct (continue rules i (ev_time ev) p' st) as [st1 w] eqn:Hc.
  injection Hres as <-.
  pose proof (lookup_lt_Some _ _ _ Hw) as Hlt.
  destruct (Hgood _ _ Hw) as (Hsus & Hwp & Hef).
  destruct (Forall2_lookup_l _ _ _ _ _ Hbs Hw) as (b & Hb & Hin). simpl in Hin.
  destruct (within_resume _ _ _ _ Hr Hin) as (m & -> & Hin').
  assert (Hsh : Shared files0 (<[i:=Exited]> (workers st))
                  (fun f => wp (outcome_for f) never p') st).
  { constructor; auto. intros f Hf.
    destruct (Hcov f Hf) as [[H|[(j & pj & Hj & Hpj)|H]]|[]].
    - left; left; exact H.
    - destruct (decide (i = j)) as [<-|Hne].
      + right. rewrite Hw in Hj. injection Hj as <-.
        eapply wp_resume; eauto.
      + left; right; left. exists j, pj. split; auto.
        rewrite list_lookup_insert_ne; auto.
    - left; right; right; exact H. }
  destruct (continue_post _ _ _ _ _ _ _ _ Hc ltac:(lia)
              (wp_resume _ _ _ _ _ Hr Hwp) (no_extract_resume _ _ _ Hr Hef) Hin' Hsh)
    as ([Hids1 Hrest1 Hcov1 Hlog1 Hidx1 Hext1] & Hg & Hws & Hex & Hlen & b' & Hb' & Hsum').
  split; [ | simpl; rewrite Hws; apply length_insert ].
  constructor; simpl; rewrite ?Hws.
  - constructor; simpl; auto. intros f Hf.
    destruct (Hcov1 f Hf) as [[H|[(j & pj & Hj & Hpj)|H]]|(pw & -> & Hpw)].
    + left; left; exact H.
    + left; right; left. exists j, pj. split; auto.
      destruct (decide (i = j)) as [<-|Hne].
      * rewrite list_lookup_insert_eq in Hj by exact Hlt. discriminate.
      * rewrite list_lookup_insert_ne in Hj |- * by auto. exact Hj.
    + left; right; right; exact H.
    + left; right; left. exists i, pw. split; auto.
      apply list_lookup_insert_eq; exact Hlt.
  - intros j w' Hj. destruct (decide (i = j)) as [<-|Hne].
    + rewrite list_lookup_insert_eq in Hj by exact Hlt. injection Hj as <-. exact Hg.
    + rewrite list_lookup_insert_ne in Hj by auto. eauto.
  - intros (j & Hj). destruct (decide (i = j)) as [<-|Hne].
    + rewrite list_lookup_insert_eq in Hj by exact Hlt. injection Hj as Hj. auto.
    + rewrite list_lookup_insert_ne in Hj by auto.
      assert (Hq : queue st = []) by eauto.
      rewrite Hq in Hlen. destruct (queue st1); [ reflexivity | simpl in Hlen; lia ].
  - exists (<[i:=b']> bs). split.
    + apply Forall2_insert; auto.
    + pose proof (list_sum_insert bs i (S m) b' Hb). lia.
Qed.
End PoolStep.

Lemma lookup_snoc {A} (l : list A) (x y : A) j :
  (l ++ [x]) !! j = Some y -> l !! j = Some y \/ (j = length l /\ y = x).
Proof.
  intros H. apply lookup_app_Some in H. destruct H as [H|[Hle H]]; [ now left | right ].
  destruct (j - length l) as [|k] eqn:E; simpl in H; [ | discriminate ].
  injection H as <-. split; [ lia | reflexivity ].
Qed.

Section PoolRun.
Variable rules : list RuleConfig.
Variable files0 : list DocFile.

Lemma spawn_inv t n : forall st,
  Inv files0 0 st -> length (workers st) + n <= pool_size files0 ->
  Inv files0 0 (spawn rules t n (length (workers st)) st)
  /\ length (workers (spawn rules t n (length (workers st)) st))
     = length (workers st) + n.
Proof.
  induction n as [|n IH]; intros st Hinv Hn; simpl.
  - split; [ exact Hinv | lia ].
  - destruct (worker_loop rules (length (workers st)) t (queue st) st)
      as [st1 w] eqn:Hloop.
    destruct Hinv as [Hsh Hgood Hexit (bs & Hbs & Hsum)].
    destruct (worker_loop_post rules files0 _ _ _ _ _ _ Hloop ltac:(lia) Hsh)
      as ([Hids1 Hrest1 Hcov1 Hlog1 Hidx1 Hext1] & Hg & Hws & Hex & Hlen & b & Hb & Hsum').
    set (st2 := set_workers (workers st1 ++ [w]) st1).
    assert (Hlen2 : length (workers st2) = S (length (workers st))).
    { simpl. rewrite Hws, length_app. simpl. lia. }
    assert (Hinv2 : Inv files0 0 st2).
    { constructor; simpl; rewrite ?Hws.
      - constructor; simpl; auto. intros f Hf.
        destruct (Hcov1 f Hf) as [[H|[(j & pj & Hj & Hpj)|H]]|(pw & -> & Hpw)].
        + left; left; exact H.
        + left; right; left. exists j, pj. split; auto.
          now apply lookup_app_l_Some.
        + left; right; right; exact H.
        + left; right; left. exists (length (workers st)), pw. split; auto.
          now apply list_lookup_middle.
      - intros j w' Hj. destruct (lookup_snoc _ _ _ _ Hj) as [H|[_ ->]]; eauto.
      - intros (j & Hj). destruct (lookup_snoc _ _ _ _ Hj) as [H|[_ H]]; [ | auto ].
        assert (Hq : queue st = []) by eauto.
        rewrite Hq in Hlen. destruct (queue st1); [ reflexivity | simpl in Hlen; lia ].
      - exists (bs ++ [b]). split.
        + apply Forall2_app; auto.
        + rewrite list_sum_snoc. lia. }
    specialize (IH st2 Hinv2 ltac:(lia)).
    rewrite Hlen2 in IH. destruct IH as [IH1 IH2].
    split; [ exact IH1 | rewrite IH2; lia ].
Qed.

Lemma runBatchAudit_inv t expanded :
  Inv files0 0 (runBatchAudit rules t files0 expanded)
  /\ length (workers (runBatchAudit rules t files0 expanded)) = pool_size files0.
Proof.
  unfold runBatchAudit.
  set (st0 := mkBatch (mark_processing (filesToProcess files0) files0) expanded
                (filesToProcess files0) [] [] []).
  assert (H0 : Inv files0 0 st0).
  { constructor; simpl.
    - constructor; simpl; auto.
      + apply mark_processing_ids.
      + intros d Hd. unfold mark_processing in Hd. apply in_map_iff in Hd.
        destruct Hd as (f & Hf & Hin).
        destruct (has_result f) eqn:Hr.
        * left. subst d. destruct (existsb _ _); exact Hr.
        * right. exists f. split.
          -- unfold filesToProcess. apply List.filter_In. rewrite Hr. auto.
          -- subst d. destruct (existsb _ _); reflexivity.
      + intros f Hf. left; left; exact Hf.
      + intros e [].
    - intros i w Hi. destruct i; discriminate.
    - intros (i & Hi). destruct i; discriminate.
    - exists []. split; [ constructor | simpl; lia ]. }
  apply (spawn_inv t (pool_size files0) st0 H0). simpl. lia.
Qed.

Lemma run_inv evs : forall steps st st',
  Inv files0 steps st -> length (workers st) = pool_size files0 ->
  run rules st evs = Some st' ->
  Inv files0 (steps + length evs) st' /\ length (workers st') = pool_size files0.
Proof.
  induction evs as [|ev evs IH]; intros steps st st' Hinv Hsize Hrun; simpl in Hrun.
  - injection Hrun as <-. rewrite Nat.add_0_r. auto.
  - destruct (resolve rules ev st) as [st1|] eqn:Hres; [ | discriminate ].
    destruct (resolve_inv rules files0 _ _ _ _ Hinv Hsize Hres) as [Hinv1 Hlen1].
    destruct (IH (S steps) st1 st' Hinv1 ltac:(congruence) Hrun) as [H1 H2].
    split; [ | exact H2 ].
    simpl. replace (steps + S (length evs)) with (S steps + length evs) by lia.
    exact H1.
Qed.

Lemma batch_inv t expanded evs st :
  run rules (runBatchAudit rules t files0 expanded) evs = Some st ->
  Inv files0 (length evs) st /\ length (workers st) = pool_size files0.
Proof.
  intros Hrun. destruct (runBatchAudit_inv t expanded) as [H0 Hsize].
  apply (run_inv evs 0 _ _ H0 Hsize Hrun).
Qed.

(** When every worker has returned, the queue is empty. *)
Lemma done_queue_empty steps st :
  Inv files0 steps st -> length (workers st) = pool_size files0 ->
  batch_done st = true -> queue st = [].
Proof.
  intros [[_ _ _ Hlog _ _] _ Hexit _] Hsize Hdone.
  unfold batch_done in Hdone.
  destruct (workers st) as [|w ws] eqn:Hws.
  - unfold pool_size, CONCURRENT_LIMIT in Hsize. simpl in Hsize.
    destruct (filesToProcess files0) eqn:E; [ | simpl in Hsize; lia ].
    destruct (queue st); [ reflexivity | ].
    destruct (dequeued st); discriminate.
  - simpl in Hdone. apply andb_true_iff in Hdone. destruct Hdone as [Hw _].
    apply Hexit. exists 0. simpl. destruct w; try discriminate. reflexivity.
Qed.

(** When every worker has returned, every document of the snapshot has
    been written back. *)
Lemma done_all_judged steps st f :
  Inv files0 steps st -> length (workers st) = pool_size files0 ->
  batch_done st = true -> In f (filesToProcess files0) ->
  all_judged (id f) (files st).
Proof.
  intros Hinv Hsize Hdone Hf.
  pose proof (done_queue_empty _ _ Hinv Hsize Hdone) as Hq.
  destruct Hinv as [[_ _ Hcov _ _ _] _ _ _].
  destruct (Hcov f Hf) as [[H|[(j & p & Hj & _)|H]]|[]]; auto.
  - rewrite Hq in H. destruct H.
  - exfalso. unfold batch_done in Hdone. rewrite forallb_forall in Hdone.
    apply list_elem_of_lookup_2, list_elem_of_In in Hj.
    specialize (Hdone _ Hj). discriminate.
Qed.

(** While a worker is still running, some settlement is accepted. *)
Lemma not_done_progress steps st :
  Inv files0 steps st -> batch_done st = false ->
  exists i o, forall t, is_Some (resolve rules (mkEvent i t o) st).
Proof.
  intros [_ Hgood _ _] Hdone. unfold batch_done in Hdone.
  assert (Hex : exists i w, workers st !! i = Some w /\ exited w = false).
  { induction (workers st) as [|w ws IH]; simpl in Hdone; [ discriminate | ].
    destruct (exited w) eqn:Ew.
    - destruct IH as (i & w' & Hi & Hw'); auto.
      { intros j w' Hj. apply (Hgood (S j)). exact Hj. }
      exists (S i), w'. auto.
    - exists 0, w. auto. }
  destruct Hex as (i & w & Hi & Hw).
  pose proof (Hgood _ _ Hi) as Hg.
  destruct w as [p| |]; simpl in Hg, Hw; try discriminate; try contradiction.
  destruct Hg as (Hsus & _).
  destruct (resume_suspended p Hsus) as (o & p' & Hp').
  exists i, o. intros t. unfold resolve. simpl. rewrite Hi, Hp'.
  destruct (continue rules i t p' st). eauto.
Qed.
End PoolRun.

Lemma lookup_map {A B} (f : A -> B) (l : list A) i :
  map f l !! i = f <$> (l !! i).
Proof. revert i; induction l as [|x l IH]; intros [|i]; simpl; auto. Qed.

Lemma filter_none {A} (f : A -> bool) (l : list A) :
  (forall x, In x l -> f x = false) -> List.filter f l = [].
Proof.
  induction l as [|x l IH]; simpl; intros H; [ reflexivity | ].
  rewrite (H x) by auto. apply IH. intros y Hy. apply H. auto.
Qed.

Lemma mark_processing_nil prev : mark_processing [] prev = prev.
Proof. unfold mark_processing. simpl. apply map_id. Qed.

(** A run over documents that all have a verdict starts no worker and
    changes nothing. *)
Lemma run_nothing_to_do rules t files1 expanded evs st :
  filesToProcess files1 = [] ->
  run rules (runBatchAudit rules t files1 expanded) evs = Some st ->
  st = mkBatch files1 expanded [] [] [] [].
Proof.
  intros Hnone. unfold runBatchAudit. rewrite Hnone, mark_processing_nil. simpl.
  destruct evs as [|ev evs]; simpl.
  - intros [= <-]. reflexivity.
  - unfold resolve. simpl. discriminate.
Qed.

Lemma done_nothing_left files0 steps st :
  Inv files0 steps st -> length (workers st) = pool_size files0 ->
  batch_done st = true -> filesToProcess (files st) = [].
Proof.
  intros Hinv Hsize Hdone. apply filter_none. intros d Hd.
  destruct (inv_shared _ _ _ Hinv) as [_ Hrest _ _ _ _].
  destruct (Hrest d Hd) as [Hr|(f & Hf & Hid)].
  - now rewrite Hr.
  - pose proof (done_all_judged files0 _ _ f Hinv Hsize Hdone Hf d Hd (eq_sym Hid)) as [Hr _].
    now rewrite Hr.
Qed.

(** C1 (batch totality).  A batch run over any document list, under any
    order and outcome of the settlements: it takes at most three
    settlements per unprocessed document; as long as a worker has not
    returned, some settlement lets the run go on; and once all workers have
    returned, every document that lacked a verdict at the start is still at
    its place in the list, with a verdict and with [isProcessing = false]. *)
Theorem batch_totality rules files0 t expanded evs st :
  run rules (runBatchAudit rules t files0 expanded) evs = Some st ->
  length evs <= 3 * length (filesToProcess files0)
  /\ (batch_done st = false ->
      exists i o, forall t', is_Some (resolve rules (mkEvent i t' o) st))
  /\ (batch_done st = true ->
      length (files st) = length files0
      /\ forall i f, files0 !! i = Some f -> auditResult f = None ->
           exists d, files st !! i = Some d /\ id d = id f
                     /\ auditResult d <> None /\ isProcessing d = false).
Proof.
  intros Hrun. destruct (batch_inv rules files0 _ _ _ _ Hrun) as [Hinv Hsize].
  split; [ | split ].
  - destruct (inv_budget _ _ _ Hinv) as (bs & _ & Hsum). lia.
  - apply (not_done_progress rules files0 _ _ Hinv).
  - intros Hdone.
    pose proof (sh_ids _ _ _ _ (inv_shared _ _ _ Hinv)) as Hids.
    split.
    { rewrite <- (length_map id (files st)), Hids. apply length_map. }
    intros i f Hi Hnone.
    assert (Hf : In f (filesToProcess files0)).
    { unfold filesToProcess. apply List.filter_In. split.
      - apply list_elem_of_lookup_2, list_elem_of_In in Hi. exact Hi.
      - unfold has_result. rewrite Hnone. reflexivity. }
    pose proof (done_all_judged files0 _ _ f Hinv Hsize Hdone Hf) as Hall.
    assert (Hl : map id (files st) !! i = Some (id f)).
    { rewrite Hids, lookup_map, Hi. reflexivity. }
    rewrite lookup_map in Hl.
    destruct (files st !! i) as [d|] eqn:Hd; [ | discriminate ].
    injection Hl as Hid. exists d.
    apply list_elem_of_lookup_2, list_elem_of_In in Hd.
    destruct (Hall d Hd Hid) as [Hr Hp].
    repeat split; auto.
    unfold has_result in Hr. destruct (auditResult d); [ discriminate | discriminate ].
Qed.

(** The scenario of the specification: five uploads, cap 3, the judgment
    call of the second document times out, the others pass. *)
Lemma batch_totality_five_docs :
  exists st,
    run sample_rules (runBatchAudit sample_rules (js "T0") five_docs []) five_docs_schedule
      = Some st
    /\ batch_done st = true
    /\ map verdict_status (files st)
         = [Some PASS; Some ERROR; Some PASS; Some PASS; Some PASS]
    /\ map issue_count (files st) = [Some 0; Some 1; Some 0; Some 0; Some 0]
    /\ (length five_docs_schedule <= 3 * length (filesToProcess five_docs)
        /\ (batch_done st = false ->
            exists i o, forall t', is_Some (resolve sample_rules (mkEvent i t' o) st))
        /\ (batch_done st = true ->
            length (files st) = length five_docs
            /\ forall i f, five_docs !! i = Some f -> auditResult f = None ->
                 exists d, files st !! i = Some d /\ id d = id f
                           /\ auditResult d <> None /\ isProcessing d = false)).
Proof.
  eexists. split; [ vm_compute; reflexivity | ].
  split; [ reflexivity | ]. split; [ reflexivity | ]. split; [ reflexivity | ].
  apply (batch_totality sample_rules five_docs (js "T0") [] five_docs_schedule).
  vm_compute. reflexivity.
Defined.

(* ================================================================== *)
(** ** The worker pool: concurrency cap and memoization *)
(* ================================================================== *)

(** C2 (concurrency cap).  In every state of a batch run over [files0]:
    the number of workers is [min N K] for [N] unprocessed documents and
    [K = CONCURRENT_LIMIT = 3]; at most [K] judgment calls are in flight;
    the documents shifted off the queue, in order, followed by the queue
    are the starting snapshot, so that every document is taken exactly once,
    each by one worker of the pool; when all workers have returned, all
    documents have been taken. *)
Theorem concurrency_cap rules files0 t expanded evs st :
  run rules (runBatchAudit rules t files0 expanded) evs = Some st ->
  length (workers st) = Nat.min (length (filesToProcess files0)) CONCURRENT_LIMIT
  /\ in_flight st <= CONCURRENT_LIMIT
  /\ map snd (dequeued st) ++ queue st = filesToProcess files0
  /\ (forall e, In e (dequeued st) -> fst e < length (workers st))
  /\ (batch_done st = true -> map snd (dequeued st) = filesToProcess files0).
Proof.
  intros Hrun. destruct (batch_inv rules files0 _ _ _ _ Hrun) as [Hinv Hsize].
  destruct (inv_shared _ _ _ Hinv) as [_ _ _ Hlog Hidx _].
  split; [ exact Hsize | ]. split; [ | split; [ exact Hlog | split ] ].
  - unfold in_flight.
    pose proof (List.filter_length_le judging (workers st)) as Hle.
    rewrite Hsize in Hle. unfold pool_size in Hle. lia.
  - intros e He. rewrite Hsize. auto.
  - intros Hdone. rewrite <- Hlog.
    rewrite (done_queue_empty files0 _ _ Hinv Hsize Hdone). now rewrite app_nil_r.
Qed.

Lemma concurrency_cap_five_docs :
  exists st,
    run sample_rules (runBatchAudit sample_rules (js "T0") five_docs [])
        (firstn 5 five_docs_schedule) = Some st
    /\ in_flight st = 2
    /\ map fst (dequeued st) = [0; 1; 2; 1]
    /\ (length (workers st) = Nat.min (length (filesToProcess five_docs)) CONCURRENT_LIMIT
        /\ in_flight st <= CONCURRENT_LIMIT
        /\ map snd (dequeued st) ++ queue st = filesToProcess five_docs
        /\ (forall e, In e (dequeued st) -> fst e < length (workers st))
        /\ (batch_done st = true -> map snd (dequeued st) = filesToProcess five_docs)).
Proof.
  eexists. split; [ vm_compute; reflexivity | ].
  split; [ reflexivity | ]. split; [ reflexivity | ].
  apply (concurrency_cap sample_rules five_docs (js "T0") []
           (firstn 5 five_docs_schedule)).
  vm_compute. reflexivity.
Defined.

Lemma processFile_memo rules d :
  content d <> [] ->
  no_extract (processFile rules d)
  /\ wp (fun d' => content d' = content d) never (processFile rules d).
Proof.
  intros Hc. apply truthy_nonempty in Hc.
  unfold processFile. rewrite Hc. split; settle_all; solve [ exact I | reflexivity ].
Qed.

(** C7 (extraction memoization).  Processing a document whose content is
    populated never calls the extractor and returns the document with the
    same content.  In a batch run the extractor is called for the documents
    of the snapshot with empty content that have left the queue, once each,
    and for no other; after the run no document is left without a verdict,
    so that a further batch run over the resulting list calls the extractor
    for none of them and leaves the list as it is. *)
Theorem extraction_memoized rules files0 t expanded evs st :
  run rules (runBatchAudit rules t files0 expanded) evs = Some st ->
  (forall d, content d <> [] ->
     no_extract (processFile rules d)
     /\ wp (fun d' => content d' = content d) never (processFile rules d))
  /\ extractions st ++ map file (List.filter empty_content (queue st))
     = map file (List.filter empty_content (filesToProcess files0))
  /\ (batch_done st = true ->
      forall rules2 t2 expanded2 evs2 st2,
        run rules2 (runBatchAudit rules2 t2 (files st) expanded2) evs2 = Some st2 ->
        extractions st2 = [] /\ files st2 = files st).
Proof.
  intros Hrun. destruct (batch_inv rules files0 _ _ _ _ Hrun) as [Hinv Hsize].
  destruct (inv_shared _ _ _ Hinv) as [_ _ _ Hlog _ Hext].
  split; [ apply processFile_memo | split ].
  - rewrite Hext, <- Hlog, List.filter_app, List.map_app. reflexivity.
  - intros Hdone rules2 t2 expanded2 evs2 st2 Hrun2.
    pose proof (done_nothing_left files0 _ _ Hinv Hsize Hdone) as Hnone.
    rewrite (run_nothing_to_do _ _ _ _ _ _ Hnone Hrun2). auto.
Qed.

Lemma extraction_memoized_five_docs :
  exists st,
    run sample_rules (runBatchAudit sample_rules (js "T0") five_docs []) five_docs_schedule
      = Some st
    /\ map handle (extractions st) = [1; 2; 3; 4; 5]%N
    /\ ((forall d, content d <> [] ->
          no_extract (processFile sample_rules d)
          /\ wp (fun d' => content d' = content d) never (processFile sample_rules d))
        /\ extractions st ++ map file (List.filter empty_content (queue st))
           = map file (List.filter empty_content (filesToProcess five_docs))
        /\ (batch_done st = true ->
            forall rules2 t2 expanded2 evs2 st2,
              run rules2 (runBatchAudit rules2 t2 (files st) expanded2) evs2 = Some st2 ->
              extractions st2 = [] /\ files st2 = files st)).
Proof.
  eexists. split; [ vm_compute; reflexivity | ]. split; [ reflexivity | ].
  apply (extraction_memoized sample_rules five_docs (js "T0") [] five_docs_schedule).
  vm_compute. reflexivity.
Defined.

(* ================================================================== *)
(** ** Failure verdicts *)
(* ================================================================== *)

Open Scope N_scope.

Lemma failure_verdict_made (e : JsError) (t : jsstring) :
  let errorMessage :=
    if jseq (err_name e) (js "AbortError")
    then js "请求超时啦（文档太大或网络慢）"
    else if truthy (message e) then message e
         else js "审核服务调用失败，请稍后重试" in
  failure_verdict
    (mkResult ERROR errorMessage
       [mkIssue (js "服务调用失败") errorMessage high (Some []) special_rules] t).
Proof.
  intros m. split; [ reflexivity | ]. split; [ apply errorMessage_nonempty | ].
  eexists. repeat split.
Qed.

#[local] Opaque js decimal.

(** What [processFile] returns after a failure, [os] being the way its
    promises settled.  After a failed judgment call the verdict is the one
    of [analyzeReport]: ERROR, a non-empty summary, exactly one issue of
    category [special_rules] and severity [high].  After a failed
    extraction it is the one of the [catch] of [processFile]: ERROR, the
    fixed summary, no issue.  Either way the document comes back with its
    id and [isProcessing = false], and [processFile] never throws. *)
Theorem failure_verdicts rules d t os d' :
  exec t (processFile rules d) os = Some (inl d') ->
  (existsb judgment_failed os = true ->
     exists r, auditResult d' = Some r /\ failure_verdict r)
  /\ (existsb extraction_failed os = true ->
     exists r, auditResult d' = Some r /\ processing_failure_verdict r)
  /\ id d' = id d /\ isProcessing d' = false
  /\ wp (fun _ => True) never (processFile rules d).
Proof.
  intros H. split; [ | split; [ | split; [ | split ] ] ].
  5: { unfold processFile. destruct (truthy (content d)); settle_all; exact I. }
  all: unfold processFile in H; destruct (truthy (content d)); cbn in H;
    exec_cases H; cbn in H; injection H as <-;
    try reflexivity;
    intros Hf; cbn in Hf;
    repeat match goal with E : ok _ = _ |- _ => rewrite E in Hf; cbn in Hf end;
    try discriminate Hf;
    eexists; (split; [ reflexivity | ]);
    solve [ apply failure_verdict_made | apply (failure_verdict_made (Error _))
          | repeat split ].
Qed.
#[local] Transparent js decimal.

(** C3 (synthesized failure verdict), at the input where the code departs
    from it: the extraction of the only document of a batch fails.  The run
    ends, the failure is contained, and the verdict written back is an
    ERROR verdict, but its issues list is empty instead of holding the one
    [special_rules]/[high] entry, and the document is not expanded. *)
Lemma extraction_failure_has_no_issue :
  exists st,
    run sample_rules (runBatchAudit sample_rules (js "T0") [sample_doc 1] [])
      [mkEvent 0 (js "T1") (ExtractSettled (Rejected (Error (js "Failed to read file"))))]
    = Some st
    /\ batch_done st = true
    /\ map verdict_status (files st) = [Some ERROR]
    /\ map issue_count (files st) = [Some 0%nat]
    /\ expandedFiles st = [].
Proof. eexists. vm_compute. repeat split. Qed.

Lemma failure_verdicts_timeout :
  exists d',
    exec (js "T1") (processFile sample_rules (sample_doc 2))
      [ ExtractSettled (Fulfilled (js "<p>2</p>"));
        FetchSettled (Rejected (mkError (js "TimeoutError") (js "signal timed out"))) ]
    = Some (inl d')
    /\ ((existsb judgment_failed
           [ ExtractSettled (Fulfilled (js "<p>2</p>"));
             FetchSettled (Rejected (mkError (js "TimeoutError") (js "signal timed out"))) ]
         = true ->
         exists r, auditResult d' = Some r /\ failure_verdict r)
        /\ (existsb extraction_failed
              [ ExtractSettled (Fulfilled (js "<p>2</p>"));
                FetchSettled (Rejected (mkError (js "TimeoutError") (js "signal timed out"))) ]
            = true ->
            exists r, auditResult d' = Some r /\ processing_failure_verdict r)
        /\ id d' = id (sample_doc 2) /\ isProcessing d' = false
        /\ wp (fun _ => True) never (processFile sample_rules (sample_doc 2))).
Proof.
  eexists. split; [ vm_compute; reflexivity | ].
  apply (failure_verdicts sample_rules (sample_doc 2) (js "T1")
           [ ExtractSettled (Fulfilled (js "<p>2</p>"));
             FetchSettled (Rejected (mkError (js "TimeoutError") (js "signal timed out"))) ]).
  vm_compute. reflexivity.
Defined.

(* ================================================================== *)
(** ** Rule list and completion *)
(* ================================================================== *)

Lemma activeRuleTexts_app l1 l2 :
  activeRuleTexts (l1 ++ l2) = activeRuleTexts l1 ++ activeRuleTexts l2.
Proof. unfold activeRuleTexts. now rewrite List.filter_app, List.map_app. Qed.

(** C5 (active rule list).  Whatever the rule list, every judgment request
    of [processFile] carries [activeRuleTexts rules], and a request is sent
    as soon as the content is there; this list holds, in the order of the
    rule list, the text of every enabled rule and nothing for a disabled
    one; rules [A] (enabled), [B] (disabled), [C] (enabled) yield [A; C]. *)
Theorem active_rule_list (rules : list RuleConfig) :
  (forall d, sends_rules (activeRuleTexts rules) (processFile rules d))
  /\ (forall d t c,
        requests t (processFile rules d) [ExtractSettled (Fulfilled c)]
        = [mkRequest (if truthy (content d) then content d else c)
                     (activeRuleTexts rules)])
  /\ (forall l1 r l2,
        activeRuleTexts (l1 ++ r :: l2)
        = activeRuleTexts l1 ++ (if enabled r then [text r] else [])
            ++ activeRuleTexts l2)
  /\ activeRuleTexts [] = []
  /\ (forall ia ib ic a b c ca cb cc,
        activeRuleTexts [mkRule ia a true ca; mkRule ib b false cb; mkRule ic c true cc]
        = [a; c]).
Proof.
  split; [ | split; [ | split; [ | split ] ] ].
  - intros d. unfold processFile. destruct (truthy (content d)); settle_all;
      solve [ exact I | reflexivity ].
  - intros d t c. unfold processFile. destruct (truthy (content d)); reflexivity.
  - intros l1 r l2. rewrite activeRuleTexts_app.
    change (r :: l2) with ([r] ++ l2). rewrite activeRuleTexts_app.
    unfold activeRuleTexts at 2. simpl. destruct (enabled r); reflexivity.
  - reflexivity.
  - reflexivity.
Qed.

(** C6 (completion is a frame update).  The write-back of a processed
    document keeps the length of the list, leaves every entry with another
    id as it is, puts the processed document where its id is found, and
    changes nothing when no entry has that id, as after [removeFile]. *)
Theorem complete_frame (processed : DocFile) (prev : list DocFile) :
  length (complete processed prev) = length prev
  /\ (forall i f, prev !! i = Some f -> id f <> id processed ->
        complete processed prev !! i = Some f)
  /\ (forall i f, prev !! i = Some f -> id f = id processed ->
        complete processed prev !! i = Some processed)
  /\ ((forall f, In f prev -> id f <> id processed) ->
        complete processed prev = prev)
  /\ complete processed (removeFile (id processed) prev)
     = removeFile (id processed) prev.
Proof.
  assert (Hmiss : forall l, (forall f, In f l -> id f <> id processed) ->
                            complete processed l = l).
  { intros l Hl. unfold complete. rewrite <- (map_id l) at 2.
    apply map_ext_in. intros f Hf. apply Hl, jseq_neq in Hf. now rewrite Hf. }
  split; [ apply length_map | ]. split; [ | split; [ | split ] ].
  - intros i f Hi Hne. unfold complete. rewrite lookup_map, Hi. simpl.
    apply jseq_neq in Hne. now rewrite Hne.
  - intros i f Hi He. unfold complete. rewrite lookup_map, Hi. simpl.
    apply jseq_eq in He. now rewrite He.
  - apply Hmiss.
  - apply Hmiss. intros f Hf. unfold removeFile in Hf.
    apply List.filter_In in Hf. destruct Hf as [_ Hf].
    apply negb_true_iff, jseq_neq in Hf. exact Hf.
Qed.

(* ================================================================== *)
(** ** CSV export *)
(* ================================================================== *)

Lemma includes_In (s : jsstring) (c : N) : includes s c = true <-> In c s.
Proof.
  unfold includes. rewrite existsb_exists. split.
  - intros (x & Hx & He). apply N.eqb_eq in He. now subst.
  - intros H. exists c. split; [ exact H | apply N.eqb_refl ].
Qed.

Lemma escape_empty : escape [] = [].
Proof. reflexivity. Qed.

Lemma escape_quoted (s : jsstring) :
  In COMMA s \/ In DQUOTE s \/ In NEWLINE s ->
  escape s = [DQUOTE] ++ double_quotes s ++ [DQUOTE].
Proof.
  intros H. unfold escape.
  assert (Ht : truthy s = true) by (destruct s; [ simpl in H; tauto | reflexivity ]).
  rewrite Ht. simpl negb. cbv iota.
  assert (Hi : includes s COMMA || includes s DQUOTE || includes s NEWLINE = true).
  { rewrite !orb_true_iff, !includes_In. tauto. }
  now rewrite Hi.
Qed.

Lemma escape_verbatim (s : jsstring) :
  ~ (In COMMA s \/ In DQUOTE s \/ In NEWLINE s) -> escape s = s.
Proof.
  intros H. unfold escape. destruct s as [|c s]; [ reflexivity | ].
  simpl truthy. simpl negb. cbv iota.
  assert (Hi : includes (c :: s) COMMA || includes (c :: s) DQUOTE
               || includes (c :: s) NEWLINE = false).
  { apply not_true_is_false. rewrite !orb_true_iff, !includes_In. tauto. }
  now rewrite Hi.
Qed.

Lemma double_quotes_flat_map (s : jsstring) :
  double_quotes s = flat_map (fun c => if c =? DQUOTE then [DQUOTE; DQUOTE] else [c]) s.
Proof.
  induction s as [|c s IH]; simpl; [ reflexivity | ].
  destruct (c =? DQUOTE); simpl; now rewrite IH.
Qed.

Lemma fold_rows (common : jsstring) (l : list AuditIssue) (acc : jsstring) :
  fold_left (fun csv issue => csv ++ issue_row common issue ++ [NEWLINE]) l acc
  = acc ++ concat (map (fun issue => issue_row common issue ++ [NEWLINE]) l).
Proof.
  revert acc; induction l as [|x l IH]; intros acc; simpl.
  - now rewrite app_nil_r.
  - rewrite IH. now rewrite <- !app_assoc.
Qed.

Lemma issue_row_line (f : DocFile) (r : AuditResult) (issue : AuditIssue) :
  issue_row (commonData f r) issue ++ [NEWLINE] = csv_line (issue_values f r issue).
Proof.
  unfold issue_row, commonData, csv_line, issue_values.
  cbn [map join_comma].
  assert (Hl : match location issue with
               | Some l => if truthy l then l else []
               | None => []
               end = default [] (location issue)).
  { destruct (location issue) as [[|c l]|]; reflexivity. }
  rewrite Hl. repeat rewrite <- app_assoc. reflexivity.
Qed.

Lemma placeholder_line (f : DocFile) (r : AuditResult) :
  commonData f r ++ js ",,,,," ++ [NEWLINE] = csv_line (placeholder_values f r).
Proof.
  unfold commonData, csv_line, placeholder_values.
  cbn [map join_comma]. rewrite escape_empty.
  repeat rewrite <- app_assoc. reflexivity.
Qed.

(** C10 (CSV export escaping).  A value is written between quotes, its
    quote characters doubled, exactly when it holds a comma, a quote or a
    newline, and as it is otherwise; the summary [He said, "ok"] becomes
    the field of the specification; the text exported is the byte order
    mark, the header and one line per row of the table, every value of a
    row escaped; the table has one row per issue, or one placeholder row. *)
Theorem csv_export_escaping :
  (forall s, In COMMA s \/ In DQUOTE s \/ In NEWLINE s ->
     escape s = [DQUOTE] ++ double_quotes s ++ [DQUOTE])
  /\ (forall s, ~ (In COMMA s \/ In DQUOTE s \/ In NEWLINE s) -> escape s = s)
  /\ (forall s, double_quotes s
        = flat_map (fun c => if c =? DQUOTE then [DQUOTE; DQUOTE] else [c]) s)
  /\ escape (js "He said, " ++ [DQUOTE] ++ js "ok" ++ [DQUOTE])
     = [DQUOTE] ++ js "He said, " ++ [DQUOTE; DQUOTE] ++ js "ok"
         ++ [DQUOTE; DQUOTE] ++ [DQUOTE]
  /\ (forall f r, auditResult f = Some r ->
        exportToCSV f
        = Some ([BOM] ++ csv_header ++ concat (map csv_line (csv_table f r)))
        /\ length (csv_table f r) = Nat.max 1 (length (issues r))
        /\ Forall (fun row => length row = 8%nat) (csv_table f r))
  /\ (forall f, auditResult f = None -> exportToCSV f = None).
Proof.
  split; [ exact escape_quoted | ]. split; [ exact escape_verbatim | ].
  split; [ exact double_quotes_flat_map | ]. split; [ vm_compute; reflexivity | ].
  split.
  - intros f r Hr. unfold exportToCSV, csv_table. rewrite Hr.
    destruct (issues r) as [|i l] eqn:Hi.
    + simpl length. simpl Nat.eqb. cbv iota. split; [ | split ].
      * f_equal. rewrite <- !app_assoc. do 2 f_equal. simpl concat.
        rewrite app_nil_r. apply placeholder_line.
      * reflexivity.
      * repeat constructor.
    + split; [ | split ].
      * simpl length. simpl Nat.eqb. cbv iota.
        rewrite fold_rows, List.map_map, <- app_assoc.
        rewrite (map_ext _ _ (issue_row_line f r)). reflexivity.
      * rewrite length_map. simpl. reflexivity.
      * apply List.Forall_forall. intros row Hrow. apply in_map_iff in Hrow.
        destruct Hrow as (x & <- & _). reflexivity.
  - intros f Hf. unfold exportToCSV. now rewrite Hf.
Qed.

(* ================================================================== *)
(** ** Rule import *)
(* ================================================================== *)

Lemma differs_true (x : option jsstring) (label : jsstring) :
  x <> Some label -> differs x label = true.
Proof.
  destruct x as [s|]; simpl; [ | reflexivity ].
  intros H. apply negb_true_iff, jseq_neq. congruence.
Qed.

Lemma import_rejected_keeps_rules dateNow w prev e :
  parseRulesFile dateNow w = Rejected e -> handleRuleImport dateNow w prev = prev.
Proof. intros H. unfold handleRuleImport. now rewrite H. Qed.

(** C9 (rule import rejection).  A sheet with fewer than two rows, or whose
    first header cell is not "规则类型" or whose second is not "规则内容"
    (cells are compared after [trim], a missing cell never matches), is
    rejected with an error and the rule list stays as it was; and whenever
    the parser rejects a file, for whatever reason, the rule list stays as
    it was, while an accepted file adds all its rules, at least one. *)
Theorem rule_import_rejection dateNow (jsonData : list Row) (prev : list RuleConfig) :
  (length jsonData < 2)%nat
  \/ cell_trim (header_row jsonData) 0 <> Some (js "规则类型")
  \/ cell_trim (header_row jsonData) 1 <> Some (js "规则内容") ->
  (exists e, parseRulesFile dateNow (Sheet jsonData) = Rejected e)
  /\ handleRuleImport dateNow (Sheet jsonData) prev = prev
  /\ (forall w e, parseRulesFile dateNow w = Rejected e ->
        handleRuleImport dateNow w prev = prev)
  /\ (forall w importedRules, parseRulesFile dateNow w = Fulfilled importedRules ->
        importedRules <> []
        /\ handleRuleImport dateNow w prev = prev ++ importedRules).
Proof.
  intros H.
  assert (Hrej : exists e, parseRulesFile dateNow (Sheet jsonData) = Rejected e).
  { unfold parseRulesFile. fold (header_row jsonData).
    destruct (length jsonData <? 2)%nat eqn:Hlen; [ eauto | ].
    apply Nat.ltb_ge in Hlen.
    destruct H as [H|[H|H]]; [ lia | | ];
      apply differs_true in H; rewrite H, ?orb_true_r; simpl; eauto. }
  split; [ exact Hrej | ]. split; [ | split ].
  - destruct Hrej as (e & He). now apply import_rejected_keeps_rules with e.
  - intros w e. apply import_rejected_keeps_rules.
  - intros w rs Hw. split.
    + destruct w as [| |data]; simpl in Hw; try discriminate.
      destruct (length data <? 2)%nat; [ discriminate | ].
      destruct (_ || _); [ discriminate | ].
      destruct (length (data_rows dateNow 1 (tail data) []) =? 0)%nat eqn:Hn;
        [ discriminate | ].
      injection Hw as <-. apply Nat.eqb_neq in Hn. intros Hnil.
      now rewrite Hnil in Hn.
    + unfold handleRuleImport. now rewrite Hw.
Qed.

(** The example of the specification: the header ["type", "content"]. *)
Lemma rule_import_rejection_english_header :
  handleRuleImport (fun _ => 0) (Sheet english_header_sheet) [] = []
  /\ ((exists e, parseRulesFile (fun _ => 0) (Sheet english_header_sheet) = Rejected e)
      /\ handleRuleImport (fun _ => 0) (Sheet english_header_sheet) [] = []
      /\ (forall w e, parseRulesFile (fun _ => 0) w = Rejected e ->
            handleRuleImport (fun _ => 0) w [] = [])
      /\ (forall w importedRules,
            parseRulesFile (fun _ => 0) w = Fulfilled importedRules ->
            importedRules <> []
            /\ handleRuleImport (fun _ => 0) w [] = [] ++ importedRules)).
Proof.
  split; [ vm_compute; reflexivity | ].
  apply (rule_import_rejection (fun _ => 0) english_header_sheet []).
  right; left. vm_compute. discriminate.
Defined.

(** The template sheet is accepted: unknown types fall to [special_rules],
    texts are trimmed, short rows are skipped. *)
Example template_sheet_imported :
  match parseRulesFile (fun _ => 1700000000000) (Sheet template_sheet) with
  | Fulfilled rs =>
      map rule_category rs
      = map Category [text_editing; result_determination; special_rules]
      /\ map enabled rs = [true; true; true]
      /\ map rule_id rs = [js "import-1700000000000-1"; js "import-1700000000000-2";
                           js "import-1700000000000-3"]
      /\ nth_error (map text rs) 2 = Some (js "报告日期必须晚于检测结束日期")
  | Rejected _ => False
  end.
Proof. vm_compute. repeat split. Qed.

(* ================================================================== *)
(** ** The server-side handler *)
(* ================================================================== *)

Lemma coerce_status_cases (v : JsValue) :
  coerce_status v =
  match v with
  | Some (JStr s) =>
      if jseq s (js "FAIL") then js "FAIL"
      else if jseq s (js "WARNING") then js "WARNING" else js "PASS"
  | _ => js "PASS"
  end.
Proof. reflexivity. Qed.

Lemma coerce_status_range (v : JsValue) :
  In (coerce_status v) [js "PASS"; js "FAIL"; js "WARNING"].
Proof.
  unfold coerce_status. destruct v as [[| | |s| |]|]; simpl; auto.
  destruct (jseq s (js "FAIL")); [ auto | ].
  destruct (jseq s (js "WARNING")); auto.
Qed.

Lemma handler_try_status typeError JSON_parse JSON_stringify apiKey t upstream req_body r :
  handler_try typeError JSON_parse JSON_stringify apiKey t upstream req_body = Fulfilled r ->
  exists v sm iss, r = mkHttp 200 (VerdictBody (coerce_status v) sm iss t).
Proof.
  unfold handler_try, throw_if. intros H.
  repeat match type of H with
    | (mbind _ ?s) = Fulfilled _ =>
        let E := fresh "E" in destruct s eqn:E; simpl in H; [ | discriminate H ]
    | context [if ?c then Rejected _ else _] => destruct c; simpl in H
    | Rejected _ = Fulfilled _ => discriminate H
    | (match ?x with Some _ => _ | None => _ end) = _ => destruct x; simpl in H
    | _ => progress simpl in H
    end.
  injection H as <-. eauto.
Qed.

Lemma get_fulfilled typeError (d : Json) (key : jsstring) (o : JsValue) :
  get typeError (Some d) key = Fulfilled o <-> d <> JNull /\ o = opt_get (Some d) key.
Proof.
  unfold get. destruct d; split; try discriminate; try (intros [= <-]; split; [ discriminate | reflexivity ]);
    try (intros [_ ->]; reflexivity).
  intros [H _]. congruence.
Qed.

Lemma handler_try_fulfilled typeError JSON_parse JSON_stringify apiKey t upstream req_body r :
  handler_try typeError JSON_parse JSON_stringify apiKey t upstream req_body = Fulfilled r
  <-> exists rq u data verdict,
        req_body = Some rq /\ apiKey <> []
        /\ upstream (prompt_of rq) = Fulfilled u /\ up_ok u = true
        /\ up_data u = Fulfilled data
        /\ json_truthy (answer_content data) = true
        /\ JSON_parse (default JNull (answer_content data)) = Fulfilled verdict
        /\ verdict <> JNull
        /\ r = mkHttp 200
                 (VerdictBody
                    (coerce_status (opt_get (Some verdict) (js "overallStatus")))
                    (or_else (opt_get (Some verdict) (js "summary"))
                             (JStr (js "未生成审核总结")))
                    (or_else (opt_get (Some verdict) (js "issues")) (JArr []))
                    t).
Proof.
  unfold handler_try. split.
  - intros H. destruct req_body as [rq|]; [ | discriminate H ].
    cbn [mbind Settled_bind] in H.
    destruct (truthy apiKey) eqn:Hk; cbn [negb throw_if mbind Settled_bind] in H;
      [ | discriminate H ].
    match type of H with context [upstream ?p] => change p with (prompt_of rq) in H end.
    destruct (upstream (prompt_of rq)) as [u|] eqn:Hu; cbn [mbind Settled_bind] in H;
      [ | discriminate H ].
    destruct (up_data u) as [data|] eqn:Hd; cbn [mbind Settled_bind] in H;
      [ | discriminate H ].
    destruct (up_ok u) eqn:Hok; cbn [negb throw_if mbind Settled_bind] in H;
      [ | discriminate H ].
    destruct (get typeError (Some data) (js "output")) as [output|] eqn:Hg;
      cbn [mbind Settled_bind] in H; [ | discriminate H ].
    apply get_fulfilled in Hg. destruct Hg as [_ ->].
    fold (answer_content data) in H.
    destruct (json_truthy (answer_content data)) eqn:Hj;
      cbn [negb throw_if mbind Settled_bind] in H; [ | discriminate H ].
    destruct (JSON_parse (default JNull (answer_content data))) as [verdict|] eqn:Hp;
      cbn [mbind Settled_bind] in H; [ | discriminate H ].
    destruct (get typeError (Some verdict) (js "overallStatus")) as [os|] eqn:Hg;
      cbn [mbind Settled_bind] in H; [ | discriminate H ].
    apply get_fulfilled in Hg. destruct Hg as [Hv ->].
    injection H as <-.
    exists rq, u, data, verdict. apply truthy_nonempty in Hk. repeat split; auto.
  - intros (rq & u & data & verdict & -> & Hk & Hu & Hok & Hd & Hj & Hp & Hv & ->).
    apply truthy_nonempty in Hk.
    cbn [mbind Settled_bind]. rewrite Hk. cbn [negb throw_if mbind Settled_bind].
    match goal with |- context [upstream ?p] => change p with (prompt_of rq) end.
    rewrite Hu. cbn [mbind Settled_bind]. rewrite Hd. cbn [mbind Settled_bind].
    rewrite Hok. cbn [negb throw_if mbind Settled_bind].
    assert (Hdn : data <> JNull).
    { intros ->. vm_compute in Hj. discriminate Hj. }
    rewrite (proj2 (get_fulfilled typeError data (js "output") _) (conj Hdn eq_refl)).
    cbn [mbind Settled_bind]. fold (answer_content data). rewrite Hj.
    cbn [negb throw_if mbind Settled_bind]. rewrite Hp. cbn [mbind Settled_bind].
    rewrite (proj2 (get_fulfilled typeError verdict (js "overallStatus") _) (conj Hv eq_refl)).
    reflexivity.
Qed.

(** C4 (status coercion), as the code has it.  Every response to a POST
    request is a verdict whose status is one of PASS, FAIL, WARNING (code
    200) or ERROR (code 500).  The status of a success response is computed
    from the [overallStatus] field of the verdict parsed out of the upstream
    answer to this request, and from nothing else: it is FAIL when that field
    is the string FAIL, WARNING when it is the string WARNING, and PASS for
    every other value, recognized or not.  Conversely every upstream answer
    that is ok and carries a parsable verdict gives such a success
    response. *)
Theorem handler_status_coercion typeError JSON_parse JSON_stringify apiKey t upstream
    method req_body :
  jseq method (js "POST") = true ->
  (exists c s sm iss,
     handler typeError JSON_parse JSON_stringify apiKey t upstream method req_body
     = mkHttp c (VerdictBody s sm iss t)
     /\ In s verdict_statuses
     /\ ((c = 200
          /\ exists rq u data verdict,
               req_body = Some rq
               /\ upstream (prompt_of rq) = Fulfilled u
               /\ up_data u = Fulfilled data
               /\ JSON_parse (default JNull (answer_content data)) = Fulfilled verdict
               /\ s = coerce_status (opt_get (Some verdict) (js "overallStatus")))
         \/ (c = 500 /\ s = js "ERROR")))
  /\ (forall rq u data verdict,
        req_body = Some rq -> apiKey <> [] ->
        upstream (prompt_of rq) = Fulfilled u -> up_ok u = true ->
        up_data u = Fulfilled data ->
        json_truthy (answer_content data) = true ->
        JSON_parse (default JNull (answer_content data)) = Fulfilled verdict ->
        verdict <> JNull ->
        exists sm iss,
          handler typeError JSON_parse JSON_stringify apiKey t upstream method req_body
          = mkHttp 200
              (VerdictBody (coerce_status (opt_get (Some verdict) (js "overallStatus")))
                 sm iss t))
  /\ coerce_status (Some (JStr (js "FAIL"))) = js "FAIL"
  /\ coerce_status (Some (JStr (js "WARNING"))) = js "WARNING"
  /\ (forall v, v <> Some (JStr (js "FAIL")) -> v <> Some (JStr (js "WARNING")) ->
        coerce_status v = js "PASS").
Proof.
  intros Hm. apply jseq_eq in Hm. subst method.
  unfold handler.
  replace (jseq (js "POST") (js "OPTIONS")) with false by (vm_compute; reflexivity).
  replace (jseq (js "POST") (js "POST")) with true by (vm_compute; reflexivity).
  simpl negb. cbv iota.
  split; [ | split; [ | split; [ reflexivity | split; [ reflexivity | ] ] ] ].
  - destruct (handler_try _ _ _ _ _ _ _) as [r|e] eqn:Hr.
    + apply handler_try_fulfilled in Hr.
      destruct Hr as (rq & u & data & verdict & Hb & _ & Hu & _ & Hd & _ & Hp & _ & ->).
      eexists 200, _, _, _. split; [ reflexivity | ]. split.
      * pose proof (coerce_status_range (opt_get (Some verdict) (js "overallStatus")))
          as Hin.
        unfold verdict_statuses. simpl in Hin |- *. tauto.
      * left. split; [ reflexivity | ]. exists rq, u, data, verdict. auto.
    + eexists 500, (js "ERROR"), _, _. split; [ reflexivity | ].
      split; [ unfold verdict_statuses; simpl; tauto | right; auto ].
  - intros rq u data verdict Hb Hk Hu Hok Hd Hj Hp Hv.
    rewrite (proj2 (handler_try_fulfilled typeError JSON_parse JSON_stringify apiKey t
                      upstream req_body _)
               (ex_intro _ rq (ex_intro _ u (ex_intro _ data (ex_intro _ verdict
                  (conj Hb (conj Hk (conj Hu (conj Hok (conj Hd (conj Hj (conj Hp
                     (conj Hv eq_refl))))))))))))).
    eauto.
  - intros v Hf Hw. unfold coerce_status. destruct v as [[| | |s| |]|]; auto.
    destruct (jseq s (js "FAIL")) eqn:E1; [ apply jseq_eq in E1; congruence | ].
    destruct (jseq s (js "WARNING")) eqn:E2; [ apply jseq_eq in E2; congruence | ].
    reflexivity.
Qed.

Lemma handler_status_coercion_fail_verdict :
  handler a_type_error (fun _ => Fulfilled (parsed_verdict (js "FAIL"))) (fun _ => [])
    (js "sk-key") (js "T1") (fun _ => Fulfilled (mkUpstream true (Fulfilled upstream_answer)))
    (js "POST") (Some (mkRequest (js "<p>report</p>") [js "A"]))
  = mkHttp 200 (VerdictBody (js "FAIL") (JStr (js "done")) (JArr []) (js "T1"))
  /\ ((exists c s sm iss,
          handler a_type_error (fun _ => Fulfilled (parsed_verdict (js "FAIL"))) (fun _ => [])
            (js "sk-key") (js "T1")
            (fun _ => Fulfilled (mkUpstream true (Fulfilled upstream_answer)))
            (js "POST") (Some (mkRequest (js "<p>report</p>") [js "A"]))
          = mkHttp c (VerdictBody s sm iss (js "T1"))
          /\ In s verdict_statuses
          /\ ((c = 200
               /\ exists rq u data verdict,
                    Some (mkRequest (js "<p>report</p>") [js "A"]) = Some rq
                    /\ Fulfilled (mkUpstream true (Fulfilled upstream_answer)) = Fulfilled u
                    /\ up_data u = Fulfilled data
                    /\ Fulfilled (parsed_verdict (js "FAIL")) = Fulfilled verdict
                    /\ s = coerce_status (opt_get (Some verdict) (js "overallStatus")))
              \/ (c = 500 /\ s = js "ERROR")))
      /\ (forall rq u data verdict,
            Some (mkRequest (js "<p>report</p>") [js "A"]) = Some rq ->
            js "sk-key" <> [] ->
            Fulfilled (mkUpstream true (Fulfilled upstream_answer)) = Fulfilled u ->
            up_ok u = true ->
            up_data u = Fulfilled data ->
            json_truthy (answer_content data) = true ->
            Fulfilled (parsed_verdict (js "FAIL")) = Fulfilled verdict ->
            verdict <> JNull ->
            exists sm iss,
              handler a_type_error (fun _ => Fulfilled (parsed_verdict (js "FAIL"))) (fun _ => [])
            (js "sk-key") (js "T1")
            (fun _ => Fulfilled (mkUpstream true (Fulfilled upstream_answer)))
            (js "POST") (Some (mkRequest (js "<p>report</p>") [js "A"]))
              = mkHttp 200
                  (VerdictBody (coerce_status (opt_get (Some verdict) (js "overallStatus")))
                     sm iss (js "T1")))
      /\ coerce_status (Some (JStr (js "FAIL"))) = js "FAIL"
      /\ coerce_status (Some (JStr (js "WARNING"))) = js "WARNING"
      /\ (forall v, v <> Some (JStr (js "FAIL")) -> v <> Some (JStr (js "WARNING")) ->
            coerce_status v = js "PASS")).
Proof.
  split; [ vm_compute; reflexivity | ].
  apply (handler_status_coercion a_type_error
           (fun _ => Fulfilled (parsed_verdict (js "FAIL"))) (fun _ => [])
           (js "sk-key") (js "T1")
           (fun _ => Fulfilled (mkUpstream true (Fulfilled upstream_answer)))
           (js "POST") (Some (mkRequest (js "<p>report</p>") [js "A"]))).
  vm_compute. reflexivity.
Defined.

(** C4 as stated fails: an unrecognized [overallStatus] (here UNKNOWN, and
    likewise ERROR, a lower-case fail, or a missing field) is answered with
    the status PASS, which is not a non-PASS treatment. *)
Lemma unrecognized_status_passes :
  handler a_type_error (fun _ => Fulfilled (parsed_verdict (js "UNKNOWN"))) (fun _ => [])
    (js "sk-key") (js "T1") (fun _ => Fulfilled (mkUpstream true (Fulfilled upstream_answer)))
    (js "POST") (Some (mkRequest (js "<p>report</p>") [js "A"]))
  = mkHttp 200 (VerdictBody (js "PASS") (JStr (js "done")) (JArr []) (js "T1"))
  /\ coerce_status (Some (JStr (js "UNKNOWN"))) = js "PASS"
  /\ coerce_status (Some (JStr (js "ERROR"))) = js "PASS"
  /\ coerce_status (Some (JStr (js "fail"))) = js "PASS"
  /\ coerce_status None = js "PASS".
Proof. vm_compute. repeat split. Qed.

(** Requests that are not POST get no verdict at all. *)
Example handler_other_methods typeError JSON_parse JSON_stringify apiKey t upstream req_body :
  handler typeError JSON_parse JSON_stringify apiKey t upstream (js "OPTIONS") req_body
  = mkHttp 200 NoBody
  /\ handler typeError JSON_parse JSON_stringify apiKey t upstream (js "GET") req_body
     = mkHttp 405 (ErrorBody (js "只支持POST请求哦～")).
Proof. split; reflexivity. Qed.

(* ================================================================== *)
(** ** Adding files *)
(* ================================================================== *)

(** C8 (within-batch name deduplication), at the input where the code
    departs from it: two files of the same name dropped together on an
    empty list are both inserted, and the list then holds two documents
    named a.docx. *)
Lemma same_name_twice_in_one_batch :
  processNewFiles [] (fun _ => true) (fun i => js "id" ++ decimal (N.of_nat i))
    [twin_a; twin_b] []
  = [ newDocFile (js "id0") twin_a; newDocFile (js "id1") twin_b ]
  /\ map (fun d => name (file d))
       (processNewFiles [] (fun _ => true) (fun i => js "id" ++ decimal (N.of_nat i))
          [twin_a; twin_b] [])
     = [js "a.docx"; js "a.docx"].
Proof. vm_compute. split; reflexivity. Qed.

(** What the final merge does achieve: no document of the previous state
    keeps a name that a new document has. *)
Lemma merge_new_replaces (newDocFiles prev : list DocFile) (d : DocFile) :
  In d (merge_new newDocFiles prev) ->
  In d newDocFiles
  \/ (In d prev /\ forall nf, In nf newDocFiles -> name (file nf) <> name (file d)).
Proof.
  unfold merge_new. intros H. apply in_app_or in H. destruct H as [H|H]; [ right | now left ].
  apply List.filter_In in H. destruct H as [Hin Hf]. split; [ exact Hin | ].
  intros nf Hnf Heq. apply negb_true_iff in Hf.
  assert (Ht : existsb (jseq (name (file d))) (map (fun nf => name (file nf)) newDocFiles) = true).
  { apply existsb_exists. exists (name (file nf)). split.
    - apply in_map_iff. eauto.
    - apply jseq_eq. auto. }
  congruence.
Qed.

(** *** The rule list *)

Lemma toggleRule_absent id0 prev :
  (forall r, In r prev -> rule_id r <> id0) -> toggleRule id0 prev = prev.
Proof.
  intros H. unfold toggleRule. rewrite <- (map_id prev) at 2.
  apply map_ext_in. intros r Hr. apply H, jseq_neq in Hr. now rewrite Hr.
Qed.

Lemma toggleRule_app id0 l1 l2 :
  toggleRule id0 (l1 ++ l2) = toggleRule id0 l1 ++ toggleRule id0 l2.
Proof. apply List.map_app. Qed.

(** X1.  Switching a rule is undone by switching it again; it keeps every
    id, text and category and the order of the list; it changes nothing
    when no rule has the id; and when exactly one rule has the id, that
    rule's text enters or leaves the list sent to the judgment client
    while the texts of the other rules stay where they are. *)
Theorem toggleRule_by_id (id0 : jsstring) (prev : list RuleConfig) :
  toggleRule id0 (toggleRule id0 prev) = prev
  /\ map rule_id (toggleRule id0 prev) = map rule_id prev
  /\ map text (toggleRule id0 prev) = map text prev
  /\ map rule_category (toggleRule id0 prev) = map rule_category prev
  /\ ((forall r, In r prev -> rule_id r <> id0) -> toggleRule id0 prev = prev)
  /\ (forall l1 r l2,
        prev = l1 ++ r :: l2 -> rule_id r = id0 ->
        (forall x, In x (l1 ++ l2) -> rule_id x <> id0) ->
        activeRuleTexts (toggleRule id0 prev)
        = activeRuleTexts l1 ++ (if enabled r then [] else [text r])
            ++ activeRuleTexts l2).
Proof.
  split; [ | split; [ | split; [ | split; [ | split ] ] ] ].
  - unfold toggleRule. rewrite map_map. rewrite <- (map_id prev) at 2.
    apply map_ext. intros r. destruct (jseq (rule_id r) id0) eqn:E; simpl.
    + rewrite E. destruct r; simpl. now rewrite negb_involutive.
    + now rewrite E.
  - unfold toggleRule. rewrite map_map. apply map_ext. intros r.
    destruct (jseq _ _); reflexivity.
  - unfold toggleRule. rewrite map_map. apply map_ext. intros r.
    destruct (jseq _ _); reflexivity.
  - unfold toggleRule. rewrite map_map. apply map_ext. intros r.
    destruct (jseq _ _); reflexivity.
  - apply toggleRule_absent.
  - intros l1 r l2 -> Hr Hothers.
    change (r :: l2) with ([r] ++ l2).
    rewrite !toggleRule_app, !activeRuleTexts_app.
    rewrite (toggleRule_absent id0 l1), (toggleRule_absent id0 l2)
      by (intros x Hx; apply Hothers, in_or_app; auto).
    f_equal. f_equal. unfold toggleRule, activeRuleTexts. simpl.
    apply jseq_eq in Hr. rewrite Hr. simpl. destruct (enabled r); reflexivity.
Qed.

Lemma removeRule_absent id0 prev :
  (forall r, In r prev -> rule_id r <> id0) -> removeRule id0 prev = prev.
Proof.
  intros H. induction prev as [|r l IH]; simpl; [ reflexivity | ].
  assert (Hr : jseq (rule_id r) id0 = false) by (apply jseq_neq, H; simpl; auto).
  rewrite Hr. simpl. f_equal. apply IH. intros x Hx. apply H. simpl; auto.
Qed.

(** X2.  Removing a rule by id leaves exactly the rules with another id, in
    their order; it changes nothing when no rule has the id, also when done
    twice; the state of the switch of the removed rule does not matter; and
    the texts sent to the judgment client afterwards are those of the
    enabled rules with another id. *)
Theorem removeRule_by_id (id0 : jsstring) (prev : list RuleConfig) :
  (forall r, In r (removeRule id0 prev) <-> In r prev /\ rule_id r <> id0)
  /\ removeRule id0 prev `sublist_of` prev
  /\ ((forall r, In r prev -> rule_id r <> id0) -> removeRule id0 prev = prev)
  /\ removeRule id0 (removeRule id0 prev) = removeRule id0 prev
  /\ removeRule id0 (toggleRule id0 prev) = removeRule id0 prev
  /\ (forall id1, id1 <> id0 ->
        removeRule id0 (toggleRule id1 prev) = toggleRule id1 (removeRule id0 prev))
  /\ activeRuleTexts (removeRule id0 prev) `sublist_of` activeRuleTexts prev.
Proof.
  assert (Hin : forall r, In r (removeRule id0 prev) <-> In r prev /\ rule_id r <> id0).
  { intros r. unfold removeRule. rewrite List.filter_In, negb_true_iff, jseq_neq.
    reflexivity. }
  split; [ exact Hin | ]. split; [ | split; [ | split; [ | split; [ | split ] ] ] ].
  - clear Hin. unfold removeRule. induction prev as [|r l IH]; simpl; [ constructor | ].
    destruct (negb _); [ apply sublist_skip, IH | apply sublist_cons, IH ].
  - apply removeRule_absent.
  - apply removeRule_absent. intros r Hr. now apply Hin in Hr.
  - clear Hin. unfold removeRule, toggleRule.
    induction prev as [|r l IH]; simpl; [ reflexivity | ].
    destruct (jseq (rule_id r) id0) eqn:E; simpl; rewrite E; simpl; now rewrite IH.
  - clear Hin. intros id1 Hne. unfold removeRule, toggleRule.
    induction prev as [|r l IH]; simpl; [ reflexivity | ].
    destruct (jseq (rule_id r) id1) eqn:E1; simpl.
    + apply jseq_eq in E1.
      assert (E0 : jseq (rule_id r) id0 = false) by (apply jseq_neq; congruence).
      rewrite E0. simpl. apply jseq_eq in E1. rewrite E1. now rewrite IH.
    + destruct (jseq (rule_id r) id0); simpl; rewrite ?E1; now rewrite IH.
  - clear Hin. unfold removeRule, activeRuleTexts.
    induction prev as [|r l IH]; simpl; [ constructor | ].
    destruct (jseq (rule_id r) id0); simpl; destruct (enabled r); simpl;
      auto using sublist_skip, sublist_cons.
Qed.

Open Scope Z_scope.

(** *** Pages of the rule list *)

Lemma slice_window {A} (s : Z) (l : list A) :
  0 <= s -> slice s (s + 5) l = firstn 5 (skipn (Z.to_nat s) l).
Proof.
  intros Hs. unfold slice.
  destruct (s <? 0) eqn:E1; [ apply Z.ltb_lt in E1; lia | ].
  destruct (s + 5 <? 0) eqn:E2; [ apply Z.ltb_lt in E2; lia | ].
  set (len := Z.of_nat (length l)).
  destruct (Z_lt_le_dec s len) as [Hlt|Hge].
  - rewrite (Z.min_l s len) by lia.
    destruct (Z_le_gt_dec (s + 5) len) as [H5|H5].
    + rewrite (Z.min_l (s + 5) len) by lia.
      replace (s + 5 - s) with 5 by lia. reflexivity.
    + rewrite (Z.min_r (s + 5) len) by lia.
      assert (Hlen : length (skipn (Z.to_nat s) l) = Z.to_nat (len - s)).
      { rewrite length_skipn. unfold len. lia. }
      rewrite !firstn_all2; [ reflexivity | rewrite Hlen; lia | rewrite Hlen; lia ].
  - rewrite (Z.min_r s len), (Z.min_r (s + 5) len) by lia.
    replace (len - len) with 0 by lia.
    rewrite (skipn_all2 (n := Z.to_nat s) l) by (unfold len in Hge; lia).
    rewrite (skipn_all2 (n := Z.to_nat len) l) by (unfold len; lia).
    reflexivity.
Qed.

Lemma currentRules_window rules (k : nat) :
  currentRules rules (Z.of_nat k + 1) = firstn 5 (skipn (5 * k) rules).
Proof.
  unfold currentRules, ITEMS_PER_PAGE.
  replace ((Z.of_nat k + 1 - 1) * 5) with (Z.of_nat (5 * k)) by lia.
  rewrite slice_window by lia. now rewrite Nat2Z.id.
Qed.

Lemma pages_concat {A} (l : list A) (n : nat) :
  concat (map (fun k => firstn 5 (skipn (5 * k) l)) (seq 0 n)) = firstn (5 * n) l.
Proof.
  induction n as [|n IH]; [ reflexivity | ].
  rewrite seq_S, List.map_app, concat_app, IH, Nat.add_0_l.
  cbn [map concat]. rewrite app_nil_r, take_take_drop.
  f_equal. lia.
Qed.

Lemma page_count_spec (n : nat) :
  0 <= page_count n /\ Z.of_nat n <= 5 * page_count n < Z.of_nat n + 5.
Proof.
  unfold page_count, ITEMS_PER_PAGE.
  pose proof (Z.div_mod (Z.of_nat n + 5 - 1) 5 ltac:(lia)).
  pose proof (Z.mod_pos_bound (Z.of_nat n + 5 - 1) 5 ltac:(lia)).
  lia.
Qed.

Lemma totalPages_spec rules :
  1 <= totalPages rules
  /\ Z.of_nat (length rules) <= 5 * totalPages rules
  /\ (rules <> [] -> 5 * (totalPages rules - 1) < Z.of_nat (length rules)).
Proof.
  unfold totalPages. pose proof (page_count_spec (length rules)) as [H0 H1].
  destruct (page_count (length rules) =? 0) eqn:E.
  - apply Z.eqb_eq in E. rewrite E in H1. split; [ lia | split; [ lia | ] ].
    intros Hne. destruct rules; [ congruence | simpl in *; lia ].
  - apply Z.eqb_neq in E. split; [ lia | split; [ lia | ] ]. intros _. lia.
Qed.

(** X4.  The pages of the rule panel cut the rule list into consecutive
    pieces: there is always at least one page, the pages [1 .. totalPages]
    put one after the other are the whole list in its order, a page never
    shows more than five rules, and when there are rules none of these
    pages is empty. *)
Theorem pages_partition (rules : list RuleConfig) :
  1 <= totalPages rules
  /\ concat (map (currentRules rules) (page_numbers rules)) = rules
  /\ (forall p, (length (currentRules rules p) <= 5)%nat)
  /\ (forall p, rules <> [] -> 1 <= p <= totalPages rules ->
        currentRules rules p <> []).
Proof.
  pose proof (totalPages_spec rules) as (H1 & H2 & H3).
  split; [ exact H1 | split; [ | split ] ].
  - unfold page_numbers. rewrite map_map.
    rewrite (map_ext _ _ (currentRules_window rules)).
    rewrite pages_concat. apply firstn_all2. lia.
  - intros p. unfold currentRules, slice.
    rewrite length_firstn. unfold ITEMS_PER_PAGE.
    set (len := Z.of_nat (length rules)).
    set (s := (p - 1) * 5).
    destruct (s <? 0) eqn:E1; destruct (s + 5 <? 0) eqn:E2;
      try apply Z.ltb_lt in E1; try apply Z.ltb_lt in E2;
      try apply Z.ltb_ge in E1; try apply Z.ltb_ge in E2; lia.
  - intros p Hne [Hp1 Hp2].
    replace p with (Z.of_nat (Z.to_nat (p - 1)) + 1) by lia.
    rewrite currentRules_window. specialize (H3 Hne).
    assert (Hlt : (5 * Z.to_nat (p - 1) < length rules)%nat) by lia.
    destruct (skipn (5 * Z.to_nat (p - 1)) rules) as [|x xs] eqn:E.
    + apply (f_equal (@length _)) in E. rewrite length_skipn in E. simpl in E. lia.
    + discriminate.
Qed.

(** X5.  Page navigation stays on existing pages: from a page in
    [1 .. totalPages] both buttons lead to a page in that range, the first
    page has no previous page and the last no next one; and after the rule
    list has shrunk, the page effect brings any page number from 1 upwards
    back into the range. *)
Theorem page_navigation (rules : list RuleConfig) (p : Z) :
  1 <= p ->
  (p <= totalPages rules ->
     1 <= goToPrevious p <= totalPages rules
     /\ 1 <= goToNext rules p <= totalPages rules
     /\ clamp_page rules p = p)
  /\ goToPrevious 1 = 1
  /\ goToNext rules (totalPages rules) = totalPages rules
  /\ 1 <= clamp_page rules p <= totalPages rules
  /\ clamp_page rules (clamp_page rules p) = clamp_page rules p.
Proof.
  intros Hp. pose proof (totalPages_spec rules) as (H1 & _ & _).
  unfold goToPrevious, goToNext, clamp_page.
  split; [ | split; [ | split; [ | split ] ] ].
  - intros Hle. destruct (totalPages rules <? p) eqn:E;
      [ apply Z.ltb_lt in E | ]; lia.
  - reflexivity.
  - lia.
  - destruct (totalPages rules <? p) eqn:E;
      [ apply Z.ltb_lt in E | apply Z.ltb_ge in E ]; lia.
  - destruct (totalPages rules <? p) eqn:E.
    + rewrite Z.ltb_irrefl. reflexivity.
    + now rewrite E.
Qed.

Lemma page_navigation_after_removal :
  1 <= 3
  /\ ((3 <= totalPages (removeRule (js "default-1") sample_rules) ->
        1 <= goToPrevious 3 <= totalPages (removeRule (js "default-1") sample_rules)
        /\ 1 <= goToNext (removeRule (js "default-1") sample_rules) 3
             <= totalPages (removeRule (js "default-1") sample_rules)
        /\ clamp_page (removeRule (js "default-1") sample_rules) 3 = 3)
      /\ goToPrevious 1 = 1
      /\ goToNext (removeRule (js "default-1") sample_rules)
           (totalPages (removeRule (js "default-1") sample_rules))
         = totalPages (removeRule (js "default-1") sample_rules)
      /\ 1 <= clamp_page (removeRule (js "default-1") sample_rules) 3
           <= totalPages (removeRule (js "default-1") sample_rules)
      /\ clamp_page (removeRule (js "default-1") sample_rules)
           (clamp_page (removeRule (js "default-1") sample_rules) 3)
         = clamp_page (removeRule (js "default-1") sample_rules) 3).
Proof.
  split; [ lia | ].
  apply (page_navigation (removeRule (js "default-1") sample_rules) 3). lia.
Defined.

Close Scope Z_scope.

(** *** [trim] *)

Lemma trimStart_no_leading (s : jsstring) : no_leading_ws (trimStart s).
Proof.
  induction s as [|c s IH]; simpl; [ exact I | ].
  destruct (is_ws c) eqn:E; [ exact IH | exact E ].
Qed.

Lemma trimStart_fixed (s : jsstring) : no_leading_ws s -> trimStart s = s.
Proof. destruct s as [|c s]; simpl; [ reflexivity | ]. now intros ->. Qed.

Lemma trimStart_suffix (s : jsstring) : exists w, s = w ++ trimStart s.
Proof.
  induction s as [|c s (w & IH)]; simpl; [ now exists [] | ].
  destruct (is_ws c); [ exists (c :: w); simpl; congruence | now exists [] ].
Qed.

Lemma no_leading_rev_suffix (t w u : jsstring) :
  no_leading_ws t -> rev t = w ++ u -> no_leading_ws (rev u).
Proof.
  intros Ht Hr. destruct u as [|x u _] using rev_ind; [ exact I | ].
  rewrite rev_app_distr. simpl.
  assert (Ht' : t = x :: rev u ++ rev w).
  { rewrite <- (rev_involutive t), Hr, !rev_app_distr. reflexivity. }
  rewrite Ht' in Ht. exact Ht.
Qed.

Lemma trim_idempotent (s : jsstring) : trim (trim s) = trim s.
Proof.
  unfold trim, trimEnd.
  set (t := trimStart s). set (u := trimStart (rev t)).
  destruct (trimStart_suffix (rev t)) as (w & Hw). fold u in Hw.
  pose proof (no_leading_rev_suffix t w u (trimStart_no_leading s) Hw) as Hru.
  rewrite (trimStart_fixed (rev u) Hru), rev_involutive.
  now rewrite (trimStart_fixed u (trimStart_no_leading (rev t))).
Qed.

Lemma trim_no_leading (s : jsstring) : no_leading_ws (trim s).
Proof.
  unfold trim, trimEnd.
  destruct (trimStart_suffix (rev (trimStart s))) as (w & Hw).
  apply (no_leading_rev_suffix (trimStart s) w _ (trimStart_no_leading s) Hw).
Qed.

Lemma trim_no_trailing (s : jsstring) : no_leading_ws (rev (trim s)).
Proof.
  unfold trim, trimEnd. rewrite rev_involutive. apply trimStart_no_leading.
Qed.

(** *** Adding a rule *)

Lemma last_skipn {A} (l : list A) (n : nat) :
  (n < length l)%nat -> last (skipn n l) = last l.
Proof.
  revert n; induction l as [|x l IH]; intros [|n]; simpl; try lia; auto.
  intros H. rewrite IH by lia. destruct l; [ simpl in H; lia | reflexivity ].
Qed.

(** X3.  [addRule] ignores an input that is empty or white space only.
    Otherwise it appends one enabled rule of the chosen category whose text
    is the input without the white space around it (a text that trimming
    leaves as it is), so that this text is the last one sent to the judgment
    client; it clears the input; and the page it jumps to is the last page,
    whose last rule is the new one. *)
Theorem addRule_appends (dateNow : N) (ui : RulePanel) :
  (trim (newRuleInput ui) = [] -> addRule dateNow ui = ui)
  /\ (trim (newRuleInput ui) <> [] ->
      exists newRule,
        newRule = mkRule (decimal dateNow) (trim (newRuleInput ui)) true
                         (newRuleCategory ui)
        /\ trim (text newRule) = text newRule
        /\ panel_rules (addRule dateNow ui) = panel_rules ui ++ [newRule]
        /\ activeRuleTexts (panel_rules (addRule dateNow ui))
           = activeRuleTexts (panel_rules ui) ++ [trim (newRuleInput ui)]
        /\ newRuleInput (addRule dateNow ui) = []
        /\ currentPage (addRule dateNow ui)
           = totalPages (panel_rules (addRule dateNow ui))
        /\ last (currentRules (panel_rules (addRule dateNow ui))
                   (currentPage (addRule dateNow ui)))
           = Some newRule).
Proof.
  unfold addRule. split.
  - intros H. now rewrite H.
  - intros H. apply truthy_nonempty in H. rewrite H. simpl negb. cbv iota.
    eexists. split; [ reflexivity | ]. cbn [panel_rules newRuleInput currentPage text].
    split; [ apply trim_idempotent | ]. split; [ reflexivity | ].
    split; [ now rewrite activeRuleTexts_app | ]. split; [ reflexivity | ].
    set (r := mkRule _ _ _ _). set (rules' := panel_rules ui ++ [r]).
    assert (Hlen : length rules' = (length (panel_rules ui) + 1)%nat)
      by (unfold rules'; rewrite length_app; reflexivity).
    assert (HT : page_count (length (panel_rules ui) + 1) = totalPages rules').
    { unfold totalPages. rewrite Hlen.
      pose proof (page_count_spec (length (panel_rules ui) + 1)) as [H0 H1].
      destruct (page_count _ =? 0)%Z eqn:E; [ apply Z.eqb_eq in E; lia | reflexivity ]. }
    split; [ exact HT | ]. rewrite HT.
    pose proof (totalPages_spec rules') as (H1 & H2 & H3).
    assert (Hne : rules' <> []) by (unfold rules'; destruct (panel_rules ui); discriminate).
    specialize (H3 Hne).
    replace (totalPages rules')
      with (Z.of_nat (Z.to_nat (totalPages rules' - 1)) + 1)%Z by lia.
    rewrite currentRules_window.
    rewrite firstn_all2 by (rewrite length_skipn; lia).
    rewrite last_skipn by lia. unfold rules'. apply last_snoc.
Qed.

(** *** Adding files *)

Lemma sublist_map {A B} (f : A -> B) (l1 l2 : list A) :
  l1 `sublist_of` l2 -> map f l1 `sublist_of` map f l2.
Proof. induction 1; simpl; auto using sublist_nil, sublist_skip, sublist_cons. Qed.

Lemma sublist_List_filter {A} (p : A -> bool) (l : list A) :
  List.filter p l `sublist_of` l.
Proof.
  induction l as [|x l IH]; simpl; [ constructor | ].
  destruct (p x); auto using sublist_skip, sublist_cons.
Qed.

Lemma sublist_snoc {A} (l1 l2 : list A) (x : A) :
  l1 `sublist_of` l2 -> l1 `sublist_of` l2 ++ [x].
Proof. intros H. rewrite <- (app_nil_r l1). apply sublist_app; [ exact H | apply sublist_nil_l ]. Qed.

(** What the [forEach] of [processNewFiles] collects: new documents for
    some of the incoming files, in their order, and removals by id. *)
Lemma scan_files_spec files confirm randomId fileList :
  forall i acc upd nd upd',
    scan_files files confirm randomId i fileList acc upd = (nd, upd') ->
    exists sel ups,
      nd = acc ++ sel /\ upd' = upd ++ ups
      /\ map file_name sel `sublist_of` map name fileList
      /\ Forall (fun d => exists k f, fileList !! k = Some f
                                      /\ d = newDocFile (randomId (i + k)%nat) f) sel
      /\ Forall (fun u => exists x, u = removeFile x) ups
      /\ ((forall k, confirm k = false) ->
          ups = []
          /\ Forall (fun d => forall e, In e files -> file_name e <> file_name d) sel).
Proof.
  induction fileList as [|f rest IH]; intros i acc upd nd upd' H; simpl in H.
  - injection H as <- <-. exists [], []. rewrite !app_nil_r.
    repeat split; auto; constructor.
  - assert (Hshift : forall sel,
              Forall (fun d => exists k f0, rest !! k = Some f0
                         /\ d = newDocFile (randomId (S i + k)%nat) f0) sel ->
              Forall (fun d => exists k f0, (f :: rest) !! k = Some f0
                         /\ d = newDocFile (randomId (i + k)%nat) f0) sel).
    { intros sel Hsel0. eapply List.Forall_impl; [ | exact Hsel0 ].
      intros d (k & f0 & Hk & ->).
      exists (S k), f0. split; [ exact Hk | ]. f_equal. f_equal. lia. }
    destruct (find (fun d => jseq (name (file d)) (name f)) files) as [existing|] eqn:Hfind.
    + destruct (confirm i) eqn:Hc; simpl in H.
      * destruct (IH _ _ _ _ _ H) as (sel & ups & -> & -> & Hs & Hf & Hu & Hd).
        exists (newDocFile (randomId i) f :: sel), (removeFile (id existing) :: ups).
        rewrite <- !app_assoc. simpl.
        split; [ reflexivity | ]. split; [ reflexivity | ].
        split; [ now apply sublist_skip | ].
        split; [ constructor; [ exists 0%nat, f; split; [ reflexivity | ];
                                f_equal; f_equal; lia | now apply Hshift ] | ].
        split; [ constructor; eauto | ].
        intros Hall. rewrite Hall in Hc. discriminate.
      * destruct (IH _ _ _ _ _ H) as (sel & ups & -> & -> & Hs & Hf & Hu & Hd).
        exists sel, ups. split; [ reflexivity | ]. split; [ reflexivity | ].
        split; [ now apply sublist_cons | ]. split; [ now apply Hshift | ].
        split; [ exact Hu | exact Hd ].
    + destruct (IH _ _ _ _ _ H) as (sel & ups & -> & -> & Hs & Hf & Hu & Hd).
      exists (newDocFile (randomId i) f :: sel), ups.
      rewrite <- !app_assoc. simpl.
      split; [ reflexivity | ]. split; [ reflexivity | ].
      split; [ now apply sublist_skip | ].
      split; [ constructor; [ exists 0%nat, f; split; [ reflexivity | ];
                              f_equal; f_equal; lia | now apply Hshift ] | ].
      split; [ exact Hu | ].
      intros Hall. destruct (Hd Hall) as [-> Hsel]. split; [ reflexivity | ].
      constructor; [ | exact Hsel ].
      intros e He Heq. apply (find_none _ _ Hfind) in He.
      apply jseq_neq in He. apply He. exact Heq.
Qed.

Lemma removals_sublist (ups : list (list DocFile -> list DocFile)) :
  Forall (fun u => exists x, u = removeFile x) ups ->
  forall prev, fold_left (fun p u => u p) ups prev `sublist_of` prev.
Proof.
  induction 1 as [|u ups (x & ->) _ IH]; intros prev; simpl; [ reflexivity | ].
  etransitivity; [ apply IH | apply sublist_List_filter ].
Qed.

Lemma processNewFiles_shape files confirm randomId fileList prev :
  exists sel ups,
    scan_files files confirm randomId 0 fileList [] [] = (sel, ups)
    /\ processNewFiles files confirm randomId fileList prev
       = (if (0 <? length sel)%nat
          then merge_new sel (fold_left (fun p u => u p) ups prev)
          else fold_left (fun p u => u p) ups prev).
Proof.
  unfold processNewFiles.
  destruct (scan_files files confirm randomId 0 fileList [] []) as [sel ups].
  eauto.
Qed.

(** X6.  When the incoming files have pairwise different names, adding them
    keeps the names of the list pairwise different, whatever the operator
    answers to the overwrite questions. *)
Theorem processNewFiles_unique_names files confirm randomId fileList prev :
  NoDup (map name fileList) ->
  NoDup (map file_name prev) ->
  NoDup (map file_name (processNewFiles files confirm randomId fileList prev)).
Proof.
  intros Hnew Hprev.
  destruct (processNewFiles_shape files confirm randomId fileList prev)
    as (nd & ups & Hscan & ->).
  destruct (scan_files_spec _ _ _ _ _ _ _ _ _ Hscan)
    as (sel & ups' & Hnd & Hups & Hsub & _ & Hrem & _).
  simpl in Hnd, Hups. subst nd ups.
  pose proof (removals_sublist ups' Hrem prev) as Hp1.
  set (prev1 := fold_left (fun p u => u p) ups' prev) in *.
  assert (Hprev1 : NoDup (map file_name prev1)).
  { eapply sublist_NoDup; [ exact Hprev | now apply sublist_map ]. }
  destruct (0 <? length sel)%nat; [ | exact Hprev1 ].
  unfold merge_new. rewrite List.map_app. apply NoDup_app. split; [ | split ].
  - eapply sublist_NoDup; [ exact Hprev1 | apply sublist_map, sublist_List_filter ].
  - intros x Hx Hx'. apply list_elem_of_In, in_map_iff in Hx.
    destruct Hx as (d & <- & Hd). apply List.filter_In in Hd. destruct Hd as [_ Hd].
    apply negb_true_iff in Hd.
    apply list_elem_of_In, in_map_iff in Hx'. destruct Hx' as (d' & Heq & Hd').
    assert (Ht : existsb (jseq (name (file d)))
                   (map (fun nf => name (file nf)) sel) = true).
    { apply existsb_exists. exists (name (file d')). split.
      - apply in_map_iff. eauto.
      - apply jseq_eq. symmetry. exact Heq. }
    congruence.
  - eapply sublist_NoDup; [ exact Hnew | exact Hsub ].
Qed.

Lemma processNewFiles_unique_names_example :
  NoDup (map file_name
           (processNewFiles [sample_doc 1; sample_doc 2] (fun _ => true)
              (fun i => js "id" ++ decimal (N.of_nat i))
              [mkFile (js "report2.docx") 7; mkFile (js "new.docx") 8]
              [sample_doc 1; sample_doc 2])).
Proof.
  apply (processNewFiles_unique_names [sample_doc 1; sample_doc 2] (fun _ => true)
           (fun i => js "id" ++ decimal (N.of_nat i))
           [mkFile (js "report2.docx") 7; mkFile (js "new.docx") 8]
           [sample_doc 1; sample_doc 2]).
  - vm_compute. repeat constructor; simpl; intros H;
      repeat (apply elem_of_cons in H; destruct H as [H|H]; [ discriminate H | ]);
      apply elem_of_nil in H; exact H.
  - vm_compute. repeat constructor; simpl; intros H;
      repeat (apply elem_of_cons in H; destruct H as [H|H]; [ discriminate H | ]);
      apply elem_of_nil in H; exact H.
Defined.

Lemma processNewFiles_parts files confirm randomId fileList prev :
  exists kept added,
    processNewFiles files confirm randomId fileList prev = kept ++ added
    /\ kept `sublist_of` prev
    /\ Forall (fun d => exists k f, fileList !! k = Some f
                                    /\ d = newDocFile (randomId k) f) added
    /\ map file_name added `sublist_of` map name fileList.
Proof.
  destruct (processNewFiles_shape files confirm randomId fileList prev)
    as (nd & ups & Hscan & Heq).
  destruct (scan_files_spec _ _ _ _ _ _ _ _ _ Hscan)
    as (sel & ups' & Hnd & Hups & Hsub & Hfresh & Hrem & Hdecl).
  simpl in Hnd, Hups. subst nd ups.
  rewrite Heq. destruct (0 <? length sel)%nat eqn:Hlen.
  - exists (List.filter
              (fun f => negb (existsb (jseq (name (file f)))
                                (map (fun nf => name (file nf)) sel)))
              (fold_left (fun p u => u p) ups' prev)), sel.
    split; [ reflexivity | ]. split; [ | split; [ exact Hfresh | exact Hsub ] ].
    etransitivity; [ apply sublist_List_filter | apply removals_sublist, Hrem ].
  - exists (fold_left (fun p u => u p) ups' prev), [].
    rewrite app_nil_r. split; [ reflexivity | ].
    split; [ apply removals_sublist, Hrem | ].
    split; [ constructor | apply sublist_nil_l ].
Qed.

(** X7.  Every document of the list after [processNewFiles] was in the
    list before or is a fresh document for one of the incoming files
    (empty content, no verdict, not processing), and the new documents
    come last; nothing changes when no file comes in; and when the
    operator declines every overwrite, no document is removed and no
    incoming file whose name the list already has is added. *)
Theorem processNewFiles_result files confirm randomId fileList prev :
  (exists kept added,
     processNewFiles files confirm randomId fileList prev = kept ++ added
     /\ kept `sublist_of` prev
     /\ Forall (fun d => exists k f, fileList !! k = Some f
                                     /\ d = newDocFile (randomId k) f) added
     /\ map file_name added `sublist_of` map name fileList)
  /\ processNewFiles files confirm randomId [] prev = prev
  /\ ((forall k, confirm k = false) ->
      exists added,
        processNewFiles files confirm randomId fileList files = files ++ added
        /\ Forall (fun d => forall e, In e files -> file_name e <> file_name d) added).
Proof.
  split; [ apply processNewFiles_parts | split ].
  - reflexivity.
  - intros Hall.
    destruct (processNewFiles_shape files confirm randomId fileList files)
      as (nd & ups & Hscan & Heq2).
    destruct (scan_files_spec _ _ _ _ _ _ _ _ _ Hscan)
      as (sel & ups' & Hnd & Hups & _ & _ & _ & Hdecl).
    simpl in Hnd, Hups. subst nd ups.
    destruct (Hdecl Hall) as [-> Hsel]. simpl in Heq2.
    exists sel. split; [ | exact Hsel ]. rewrite Heq2.
    destruct (0 <? length sel)%nat eqn:Hlen.
    + unfold merge_new. f_equal. rewrite <- (List.filter_true files) at 2.
      apply List.filter_ext_in. intros e He. apply negb_true_iff.
      apply not_true_is_false. intros Hex. apply existsb_exists in Hex.
      destruct Hex as (n & Hn & Hj). apply in_map_iff in Hn.
      destruct Hn as (d & <- & Hd). apply jseq_eq in Hj.
      rewrite List.Forall_forall in Hsel. apply (Hsel d Hd e He). exact Hj.
    + apply Nat.ltb_ge in Hlen. destruct sel; [ now rewrite app_nil_r | simpl in Hlen; lia ].
Qed.

(** *** Dropped files *)

Lemma startsWith_prefix (s prefix : jsstring) :
  startsWith s prefix = true <-> exists rest, s = prefix ++ rest.
Proof.
  revert s; induction prefix as [|p prefix IH]; intros s; simpl.
  - split; [ eauto | reflexivity ].
  - destruct s as [|c s]; [ split; [ discriminate | intros (r & Hr); discriminate ] | ].
    rewrite andb_true_iff, N.eqb_eq, IH. split.
    + intros (-> & r & ->). eauto.
    + intros (r & [= -> ->]). eauto.
Qed.

Lemma endsWith_suffix (s suffix : jsstring) :
  endsWith s suffix = true <-> exists front, s = front ++ suffix.
Proof.
  unfold endsWith. rewrite startsWith_prefix. split.
  - intros (r & Hr). exists (rev r).
    rewrite <- (rev_involutive s), Hr, rev_app_distr, rev_involutive. reflexivity.
  - intros (front & ->). exists (rev front). apply rev_app_distr.
Qed.

(** X8.  A drop only ever adds files whose name ends in .docx or in .DOCX:
    every document of the list afterwards was there before or has such a
    name, and a drop without any such file leaves the list as it is.  The
    test is on the exact letters: a name ending in .Docx is refused. *)
Theorem handleDrop_docx_only files confirm randomId dropped prev :
  (forall d, In d (handleDrop files confirm randomId dropped prev) ->
     In d prev
     \/ (exists front, file_name d = front ++ js ".docx")
     \/ (exists front, file_name d = front ++ js ".DOCX"))
  /\ ((forall f, In f dropped -> is_docx f = false) ->
      handleDrop files confirm randomId dropped prev = prev)
  /\ is_docx (mkFile (js "Report.Docx") 0) = false
  /\ is_docx (mkFile (js "docx") 0) = false
  /\ is_docx (mkFile (js ".docx") 0) = true.
Proof.
  split; [ | split; [ | vm_compute; repeat split ] ].
  - intros d Hd. unfold handleDrop in Hd.
    destruct (0 <? length (List.filter is_docx dropped))%nat; [ | now left ].
    destruct (processNewFiles_parts files confirm randomId
                (List.filter is_docx dropped) prev)
      as (kept & added & Heq & Hk & Ha & _).
    rewrite Heq in Hd. apply in_app_or in Hd. destruct Hd as [Hd|Hd].
    + left. apply list_elem_of_In. eapply elem_of_sublist; [ | exact Hk ].
      now apply list_elem_of_In.
    + right. rewrite List.Forall_forall in Ha.
      destruct (Ha d Hd) as (k & f & Hf & ->).
      apply list_elem_of_lookup_2, list_elem_of_In, List.filter_In in Hf.
      destruct Hf as [_ Hf]. unfold is_docx in Hf. apply orb_true_iff in Hf.
      unfold file_name. simpl.
      destruct Hf as [Hf|Hf]; apply endsWith_suffix in Hf; auto.
  - intros Hnone. unfold handleDrop.
    rewrite filter_none by exact Hnone. reflexivity.
Qed.

(** *** Preview *)

(** X9.  The preview button extracts the content only when the document
    has none.  When the extraction fails the list is left as it is.  When it
    succeeds, the document written to the list differs from the clicked one
    in its content only.  If that content is not empty, a further click
    shows the document as it is, and processing it sends that content to the
    judgment client without calling the extractor again.  If the extraction
    gave the empty string, the written document still counts as having no
    content: a further click and the processing each call the extractor
    again. *)
Theorem preview_memoizes (rules : list RuleConfig) (f : DocFile) (t c : jsstring) :
  (content f <> [] -> previewClick f = Ret (Previewed f None))
  /\ (content f = [] ->
      (forall e prev,
         exists r, exec t (previewClick f) [ExtractSettled (Rejected e)] = Some (inl r)
                   /\ r = CannotPreview /\ preview_files r prev = prev)
      /\ (exists u,
            exec t (previewClick f) [ExtractSettled (Fulfilled c)]
            = Some (inl (Previewed u (Some u)))
            /\ u = mkDocFile (id f) (file f) c (auditResult f) (isProcessing f)
            /\ (forall prev, preview_files (Previewed u (Some u)) prev = complete u prev)
            /\ (c <> [] ->
                previewClick u = Ret (Previewed u None)
                /\ no_extract (processFile rules u)
                /\ requests t (processFile rules u) []
                   = [mkRequest c (activeRuleTexts rules)])
            /\ (c = [] ->
                (exists k, previewClick u = AwaitExtract (file f) k)
                /\ (exists k, processFile rules u = AwaitExtract (file f) k)
                /\ ~ no_extract (processFile rules u)))).
Proof.
  split.
  - intros H. apply truthy_nonempty in H. unfold previewClick. now rewrite H.
  - intros H. unfold previewClick at 1 2. rewrite H. simpl truthy. simpl negb. cbv iota.
    split.
    + intros e prev. eexists. split; [ reflexivity | ]. split; reflexivity.
    + eexists. split; [ reflexivity | ]. split; [ reflexivity | ].
      split; [ reflexivity | ]. split.
      * intros Hc. split; [ | split ].
        -- unfold previewClick. simpl content. apply truthy_nonempty in Hc.
           now rewrite Hc.
        -- apply processFile_memo. exact Hc.
        -- unfold processFile. simpl content. apply truthy_nonempty in Hc. rewrite Hc.
           reflexivity.
      * intros ->. split; [ | split ].
        -- unfold previewClick. simpl. eexists. reflexivity.
        -- unfold processFile. simpl. eexists. reflexivity.
        -- unfold processFile. simpl. intros Hn. exact Hn.
Qed.

(** *** Decimal numerals *)

Lemma N_of_ascii_inj (a b : ascii) : N_of_ascii a = N_of_ascii b -> a = b.
Proof. intros H. rewrite <- (ascii_N_embedding a), <- (ascii_N_embedding b). now rewrite H. Qed.

Lemma map_N_of_ascii_inj (l1 l2 : list ascii) :
  map N_of_ascii l1 = map N_of_ascii l2 -> l1 = l2.
Proof.
  revert l2; induction l1 as [|a l1 IH]; intros [|b l2]; simpl; try discriminate; auto.
  intros [= Ha Hl]. f_equal; [ now apply N_of_ascii_inj | now apply IH ].
Qed.

Lemma to_uint_nonnil (n : N) : N.to_uint n <> Decimal.Nil.
Proof. destruct n; simpl; [ discriminate | apply Unsigned.to_uint_nonnil ]. Qed.

Lemma decimal_inj (a b : N) : decimal a = decimal b -> a = b.
Proof.
  unfold decimal. intros H. apply map_N_of_ascii_inj in H.
  apply (f_equal string_of_list_ascii) in H.
  rewrite !string_of_list_ascii_of_string in H.
  apply (f_equal NilZero.uint_of_string) in H.
  rewrite !NilZero.usu in H by apply to_uint_nonnil.
  injection H as H. apply (f_equal N.of_uint) in H.
  now rewrite !DecimalN.Unsigned.of_to in H.
Qed.

Lemma string_of_uint_digits (d : Decimal.uint) :
  Forall is_digit (map N_of_ascii (list_ascii_of_string (NilEmpty.string_of_uint d))).
Proof.
  induction d; simpl; constructor; auto; unfold is_digit; simpl; lia.
Qed.

Lemma decimal_digits (n : N) : Forall is_digit (decimal n).
Proof.
  unfold decimal, NilZero.string_of_uint.
  destruct (N.to_uint n) eqn:E;
    [ now apply to_uint_nonnil in E | apply string_of_uint_digits .. ].
Qed.

Lemma split_at_dash (x y u v : jsstring) :
  Forall is_digit x -> Forall is_digit y ->
  x ++ 45 :: u = y ++ 45 :: v -> x = y /\ u = v.
Proof.
  intros Hx; revert y; induction Hx as [|c x Hc Hx IH]; intros y Hy H.
  - destruct Hy as [|d y Hd Hy]; simpl in H.
    + injection H as ->. auto.
    + injection H as <- _. unfold is_digit in Hd. lia.
  - destruct Hy as [|d y Hd Hy]; simpl in H.
    + injection H as -> _. unfold is_digit in Hc. lia.
    + injection H as -> H. destruct (IH y Hy H) as [-> ->]. auto.
Qed.

Lemma import_id_inj dateNow (i j : nat) :
  import_id dateNow i = import_id dateNow j -> i = j.
Proof.
  unfold import_id. intros H. apply app_inv_head in H.
  change (js "-") with [45] in H. simpl in H.
  apply split_at_dash in H; try apply decimal_digits.
  destruct H as [_ H]. apply decimal_inj in H. lia.
Qed.

(** *** The rows of an import *)

Lemma NoDup_map_inj {A B} (f : A -> B) (l : list A) :
  (forall x y, f x = f y -> x = y) -> NoDup l -> NoDup (map f l).
Proof.
  intros Hinj. induction 1 as [|x l Hx Hl IH]; simpl; constructor; [ | exact IH ].
  intros Hin. apply list_elem_of_In, in_map_iff in Hin.
  destruct Hin as (y & Hy & Hyl). apply Hinj in Hy. subst y.
  apply Hx. now apply list_elem_of_In.
Qed.

Lemma data_rows_spec dateNow (rows : list Row) :
  forall i newRules,
    data_rows dateNow i rows newRules
    = newRules ++ map (rule_of_row dateNow)
                      (List.filter (fun kr => valid_row (snd kr)) (numbered i rows)).
Proof.
  induction rows as [|row rest IH]; intros i acc; simpl.
  - now rewrite app_nil_r.
  - unfold numbered. simpl. fold (numbered (S i) rest). unfold valid_row at 1. simpl snd.
    destruct (length row <? 2)%nat eqn:Hlen.
    + apply Nat.ltb_lt in Hlen.
      assert (H2 : (2 <=? length row)%nat = false) by (apply Nat.leb_gt; lia).
      rewrite H2. simpl. apply IH.
    + apply Nat.ltb_ge in Hlen.
      assert (H2 : (2 <=? length row)%nat = true) by (apply Nat.leb_le; lia).
      rewrite H2. simpl andb.
      destruct (opt_truthy (cell_trim row 0) && opt_truthy (cell_trim row 1)) eqn:Hv.
      * rewrite IH. simpl. rewrite <- app_assoc. reflexivity.
      * apply IH.
Qed.

Lemma numbered_fst (i : nat) (rows : list Row) :
  map fst (numbered i rows) = seq i (length rows).
Proof.
  unfold numbered. revert i; induction rows as [|r rows IH]; intros i; simpl;
    [ reflexivity | now rewrite IH ].
Qed.

Lemma numbered_snd (i : nat) (rows : list Row) : map snd (numbered i rows) = rows.
Proof.
  unfold numbered. revert i; induction rows as [|r rows IH]; intros i; simpl;
    [ reflexivity | now rewrite IH ].
Qed.

Lemma filter_snd {A B} (p : B -> bool) (l : list (A * B)) :
  map snd (List.filter (fun kr => p (snd kr)) l) = List.filter p (map snd l).
Proof.
  induction l as [|[a b] l IH]; simpl; [ reflexivity | ].
  destruct (p b); simpl; now rewrite IH.
Qed.

Lemma valid_row_text (row : Row) :
  valid_row row = true -> row_text row <> [] /\ trim (row_text row) = row_text row.
Proof.
  unfold valid_row, row_text. rewrite !andb_true_iff. intros [[_ _] H].
  unfold cell_trim in *. destruct (row !! 1%nat) as [[s|]|]; simpl in *; try discriminate.
  split; [ now apply truthy_nonempty | apply trim_idempotent ].
Qed.

Lemma parsed_rules_fields dateNow (jsonData : list Row) (rs : list RuleConfig) :
  parseRulesFile dateNow (Sheet jsonData) = Fulfilled rs ->
  map text rs = map row_text (List.filter valid_row (tail jsonData))
  /\ map rule_category rs = map row_category (List.filter valid_row (tail jsonData))
  /\ Forall (fun r => enabled r = true /\ text r <> [] /\ trim (text r) = text r) rs.
Proof.
  intros H. unfold parseRulesFile in H.
  destruct (length jsonData <? 2)%nat; [ discriminate | ].
  destruct (_ || _); [ discriminate | ].
  destruct (length (data_rows dateNow 1 (tail jsonData) []) =? 0)%nat eqn:Hn;
    [ discriminate | ].
  injection H as <-. clear Hn.
  rewrite data_rows_spec. simpl app.
  set (sel := List.filter (fun kr => valid_row (snd kr)) (numbered 1 (tail jsonData))) in *.
  assert (Hsnd : map snd sel = List.filter valid_row (tail jsonData)).
  { unfold sel. now rewrite filter_snd, numbered_snd. }
  split; [ | split ].
  - rewrite <- Hsnd, !map_map. reflexivity.
  - rewrite <- Hsnd, !map_map. reflexivity.
  - apply List.Forall_forall. intros r Hr. apply in_map_iff in Hr.
    destruct Hr as ([k row] & <- & Hkr). simpl.
    split; [ reflexivity | ]. apply valid_row_text.
    unfold sel in Hkr. apply List.filter_In in Hkr. apply Hkr.
Qed.

Lemma row_category_cases (row : Row) :
  (row_type row = js "文本编辑" -> row_category row = Category text_editing)
  /\ (row_type row = js "流转逻辑" -> row_category row = Category workflow_logic)
  /\ (row_type row = js "结果判定" -> row_category row = Category result_determination)
  /\ (row_type row = js "特殊规则" -> row_category row = Category special_rules)
  /\ (In (row_type row) Object_prototype_keys ->
      row_category row = ProtoMember (row_type row))
  /\ (~ In (row_type row) [js "文本编辑"; js "流转逻辑"; js "结果判定"; js "特殊规则"] ->
      ~ In (row_type row) Object_prototype_keys ->
      row_category row = Category special_rules).
Proof.
  unfold row_category, row_type. generalize (default [] (cell_trim row 0)).
  intros t. repeat split.
  - intros ->. vm_compute. reflexivity.
  - intros ->. vm_compute. reflexivity.
  - intros ->. vm_compute. reflexivity.
  - intros ->. vm_compute. reflexivity.
  - intros Hin. unfold Object_prototype_keys in Hin. simpl in Hin.
    repeat (destruct Hin as [<-|Hin]; [ vm_compute; reflexivity | ]).
    destruct Hin.
  - intros Hl Hk. unfold CATEGORY_REVERSE_MAP.
    assert (Hne : forall l, In l [js "文本编辑"; js "流转逻辑"; js "结果判定"; js "特殊规则"] ->
                            jseq t l = false).
    { intros l Hin. apply jseq_neq. intros ->. apply Hl. exact Hin. }
    rewrite !Hne by (simpl; tauto).
    assert (Hex : existsb (jseq t) Object_prototype_keys = false).
    { apply not_true_is_false. intros Hex. apply existsb_exists in Hex.
      destruct Hex as (k & Hin & Hk'). apply jseq_eq in Hk'. subst k. apply Hk. exact Hin. }
    rewrite Hex. reflexivity.
Qed.

(** X10.  What an accepted rule file yields: one rule for every data row
    with at least two cells whose type and content are not empty once
    trimmed, in the order of the rows, and none for any other row.  The
    rule is enabled, its text is the trimmed content (never empty), and the
    ids of the imported rules are pairwise different.  Its category is what
    indexing the table of labels with the trimmed type gives: the category
    the label names for the four labels; for a type that is the name of a
    member every object inherits (constructor, toString, ...), that member,
    which is no category; and [special_rules] for every other type. *)
Theorem import_rows_to_rules dateNow (jsonData : list Row) (rs : list RuleConfig) :
  parseRulesFile dateNow (Sheet jsonData) = Fulfilled rs ->
  map text rs = map row_text (List.filter valid_row (tail jsonData))
  /\ map rule_category rs = map row_category (List.filter valid_row (tail jsonData))
  /\ (forall row,
        (row_type row = js "文本编辑" -> row_category row = Category text_editing)
        /\ (row_type row = js "流转逻辑" -> row_category row = Category workflow_logic)
        /\ (row_type row = js "结果判定" ->
            row_category row = Category result_determination)
        /\ (row_type row = js "特殊规则" -> row_category row = Category special_rules)
        /\ (In (row_type row) Object_prototype_keys ->
            row_category row = ProtoMember (row_type row))
        /\ (~ In (row_type row)
                 [js "文本编辑"; js "流转逻辑"; js "结果判定"; js "特殊规则"] ->
            ~ In (row_type row) Object_prototype_keys ->
            row_category row = Category special_rules))
  /\ Forall (fun r => enabled r = true /\ text r <> [] /\ trim (text r) = text r) rs
  /\ NoDup (map rule_id rs)
  /\ (0 < length rs <= length jsonData - 1)%nat.
Proof.
  intros H.
  destruct (parsed_rules_fields dateNow jsonData rs H) as (Ht & Hc & Hen).
  split; [ exact Ht | split; [ exact Hc | ] ].
  split; [ exact row_category_cases | split; [ exact Hen | ] ].
  clear Ht Hc Hen. unfold parseRulesFile in H.
  destruct (length jsonData <? 2)%nat; [ discriminate | ].
  destruct (_ || _); [ discriminate | ].
  destruct (length (data_rows dateNow 1 (tail jsonData) []) =? 0)%nat eqn:Hn;
    [ discriminate | ].
  injection H as <-. apply Nat.eqb_neq in Hn.
  rewrite data_rows_spec in Hn |- *. simpl app in Hn |- *.
  set (sel := List.filter (fun kr => valid_row (snd kr)) (numbered 1 (tail jsonData))) in *.
  split.
  - rewrite map_map. simpl.
    rewrite <- (map_map fst (import_id dateNow)).
    apply NoDup_map_inj; [ intros i j; apply import_id_inj | ].
    eapply sublist_NoDup; [ | apply sublist_map, sublist_List_filter ].
    rewrite numbered_fst. apply NoDup_ListNoDup, seq_NoDup.
  - split; [ lia | ]. rewrite length_map.
    etransitivity; [ apply List.filter_length_le | ].
    unfold numbered. rewrite length_combine, length_seq, Nat.min_id.
    destruct jsonData; simpl; lia.
Qed.

Lemma import_rows_to_rules_inherited_label :
  exists rs,
    parseRulesFile (fun _ => 1700000000000) (Sheet inherited_label_sheet) = Fulfilled rs
    /\ map rule_category rs = [ProtoMember (js "constructor"); Category special_rules]
    /\ (map text rs = map row_text (List.filter valid_row (tail inherited_label_sheet))
        /\ map rule_category rs
           = map row_category (List.filter valid_row (tail inherited_label_sheet))
        /\ (forall row,
              (row_type row = js "文本编辑" -> row_category row = Category text_editing)
              /\ (row_type row = js "流转逻辑" ->
                  row_category row = Category workflow_logic)
              /\ (row_type row = js "结果判定" ->
                  row_category row = Category result_determination)
              /\ (row_type row = js "特殊规则" ->
                  row_category row = Category special_rules)
              /\ (In (row_type row) Object_prototype_keys ->
                  row_category row = ProtoMember (row_type row))
              /\ (~ In (row_type row)
                       [js "文本编辑"; js "流转逻辑"; js "结果判定"; js "特殊规则"] ->
                  ~ In (row_type row) Object_prototype_keys ->
                  row_category row = Category special_rules))
        /\ Forall (fun r => enabled r = true /\ text r <> [] /\ trim (text r) = text r) rs
        /\ NoDup (map rule_id rs)
        /\ (0 < length rs <= length inherited_label_sheet - 1)%nat).
Proof.
  eexists. split; [ vm_compute; reflexivity | ].
  split; [ vm_compute; reflexivity | ].
  apply (import_rows_to_rules (fun _ => 1700000000000) inherited_label_sheet).
  vm_compute. reflexivity.
Defined.

(** *** Export, then import *)

Lemma exported_row_valid (r : RuleConfig) :
  text r <> [] -> trim (text r) = text r ->
  let row := [Some (categoryMap (rule_category r)); Some (text r)] in
  valid_row row = true /\ row_text row = text r
  /\ row_category row = Category (exported_category (rule_category r)).
Proof.
  intros Hne Htrim row. unfold row, valid_row, row_text, row_category, cell_trim. simpl.
  rewrite Htrim. apply truthy_nonempty in Hne. rewrite Hne.
  destruct (rule_category r) as [[| | |]|k]; vm_compute; repeat split.
Qed.

Lemma parse_with_header dateNow (rows : list Row) :
  rows <> [] ->
  parseRulesFile dateNow (Sheet ([Some (js "规则类型"); Some (js "规则内容")] :: rows))
  = (if (length (map (rule_of_row dateNow)
                   (List.filter (fun kr => valid_row (snd kr)) (numbered 1 rows))) =? 0)%nat
     then Rejected (Error (js "未在文件中找到有效的规则数据。"))
     else Fulfilled (map (rule_of_row dateNow)
                       (List.filter (fun kr => valid_row (snd kr)) (numbered 1 rows)))).
Proof.
  intros Hne. destruct rows as [|r rows']; [ congruence | ].
  unfold parseRulesFile.
  change (length (([Some (js "规则类型"); Some (js "规则内容")] : Row) :: r :: rows') <? 2)%nat
    with false. cbv iota.
  change (header_row ([Some (js "规则类型"); Some (js "规则内容")] :: r :: rows'))
    with ([Some (js "规则类型"); Some (js "规则内容")] : Row).
  replace (differs (cell_trim [Some (js "规则类型"); Some (js "规则内容")] 0) (js "规则类型")
           || differs (cell_trim [Some (js "规则类型"); Some (js "规则内容")] 1) (js "规则内容"))
    with false by (vm_compute; reflexivity).
  cbv iota. cbn [tail]. rewrite data_rows_spec. reflexivity.
Qed.

(** X11.  Exporting a rule list and importing the exported rows gives back
    the same texts with the same categories, in the same order, provided
    there is at least one rule and every text is non-empty and has no white
    space around it (as the texts made by [addRule] and by an import are).
    A rule whose category field holds an inherited member instead of a
    category (see X10) comes back with [special_rules], the category whose
    label the export writes for it.  The rules come back enabled, whatever
    their switch was.  An empty rule list exports to rows that the import
    rejects. *)
Theorem export_import_round_trip dateNow (rules : list RuleConfig) :
  rules <> [] ->
  Forall (fun r => text r <> [] /\ trim (text r) = text r) rules ->
  (exists rs,
     parseRulesFile dateNow (Sheet (export_rows rules)) = Fulfilled rs
     /\ map text rs = map text rules
     /\ map rule_category rs
        = map (fun r => Category (exported_category (rule_category r))) rules
     /\ (Forall (fun r => exists c, rule_category r = Category c) rules ->
         map rule_category rs = map rule_category rules)
     /\ Forall (fun r => enabled r = true) rs)
  /\ (exists e, parseRulesFile dateNow (Sheet (export_rows [])) = Rejected e).
Proof.
  intros Hne Hall. split; [ | vm_compute; eauto ].
  set (rows := map (fun r => [Some (categoryMap (rule_category r)); Some (text r)]) rules).
  assert (Hvalid : List.filter valid_row rows = rows).
  { unfold rows. clear Hne. induction Hall as [|r l [H1 H2] _ IH]; simpl; [ reflexivity | ].
    destruct (exported_row_valid r H1 H2) as (Hv & _ & _). simpl in Hv.
    rewrite Hv. now rewrite IH. }
  assert (Htext : map row_text rows = map text rules).
  { unfold rows. clear Hne Hvalid. rewrite map_map.
    induction Hall as [|r l [H1 H2] _ IH]; simpl; [ reflexivity | ].
    destruct (exported_row_valid r H1 H2) as (_ & Ht & _). simpl in Ht.
    now rewrite Ht, IH. }
  assert (Hcat : map row_category rows
                 = map (fun r => Category (exported_category (rule_category r))) rules).
  { unfold rows. clear Hne Hvalid Htext. rewrite map_map.
    induction Hall as [|r l [H1 H2] _ IH]; simpl; [ reflexivity | ].
    destruct (exported_row_valid r H1 H2) as (_ & _ & Hc). simpl in Hc.
    now rewrite Hc, IH. }
  destruct (parseRulesFile dateNow (Sheet (export_rows rules))) as [rs|e] eqn:Hp.
  - exists rs. split; [ reflexivity | ].
    destruct (parsed_rules_fields dateNow _ rs Hp) as (Ht & Hc & Hen).
    unfold export_rows in Ht, Hc. simpl tail in Ht, Hc. fold rows in Ht, Hc.
    rewrite Hvalid in Ht, Hc. split; [ congruence | split; [ congruence | ] ].
    split.
    + intros Hgen. rewrite Hc, Hcat. apply map_ext_in. intros r Hr.
      rewrite List.Forall_forall in Hgen. destruct (Hgen r Hr) as (c & ->). reflexivity.
    + eapply List.Forall_impl; [ | exact Hen ]. intros r Hr. apply Hr.
  - exfalso. unfold export_rows in Hp. fold rows in Hp.
    rewrite (parse_with_header dateNow rows) in Hp.
    + rewrite length_map in Hp.
      assert (Hcount : length (List.filter (fun kr => valid_row (snd kr)) (numbered 1 rows))
                       = length rows).
      { rewrite <- (length_map snd), filter_snd, numbered_snd, Hvalid. reflexivity. }
      rewrite Hcount in Hp.
      assert (Hpos : (length rows =? 0)%nat = false).
      { apply Nat.eqb_neq. unfold rows. rewrite length_map.
        destruct rules; [ congruence | simpl; lia ]. }
      rewrite Hpos in Hp. discriminate.
    + unfold rows. destruct rules; [ congruence | discriminate ].
Qed.

Lemma export_import_round_trip_sample :
  map text sample_rules = [js "A"; js "B"; js "C"]
  /\ ((exists rs,
         parseRulesFile (fun _ => 0) (Sheet (export_rows sample_rules)) = Fulfilled rs
         /\ map text rs = map text sample_rules
         /\ map rule_category rs
            = map (fun r => Category (exported_category (rule_category r))) sample_rules
         /\ (Forall (fun r => exists c, rule_category r = Category c) sample_rules ->
             map rule_category rs = map rule_category sample_rules)
         /\ Forall (fun r => enabled r = true) rs)
      /\ (exists e, parseRulesFile (fun _ => 0) (Sheet (export_rows [])) = Rejected e)).
Proof.
  split; [ reflexivity | ].
  apply (export_import_round_trip (fun _ => 0) sample_rules).
  - discriminate.
  - repeat constructor; try discriminate; vm_compute; reflexivity.
Defined.

(** *** The handler: what goes upstream *)

Lemma handler_try_upstream typeError JSON_parse JSON_stringify apiKey t
    (upstream upstream' : Prompt -> Settled Upstream) rq :
  upstream (prompt_of rq) = upstream' (prompt_of rq) ->
  handler_try typeError JSON_parse JSON_stringify apiKey t upstream (Some rq)
  = handler_try typeError JSON_parse JSON_stringify apiKey t upstream' (Some rq).
Proof.
  intros H. unfold handler_try. cbn [mbind Settled_bind].
  destruct (throw_if (negb (truthy apiKey)) _); cbn [mbind Settled_bind];
    [ | reflexivity ].
  match goal with
  | |- context [upstream ?p] => change p with (prompt_of rq)
  end.
  match goal with
  | |- context [upstream' ?p] => change p with (prompt_of rq)
  end.
  rewrite H. reflexivity.
Qed.

Lemma handler_try_no_key typeError JSON_parse JSON_stringify t upstream req_body :
  exists e, handler_try typeError JSON_parse JSON_stringify [] t upstream req_body
            = Rejected e
            /\ (req_body <> None ->
                e = Error (js "阿里云API Key未配置！请去Vercel的环境变量里填写ALIYUN_DASHSCOPE_API_KEY")).
Proof.
  unfold handler_try. destruct req_body as [rq|]; simpl.
  - eexists. split; [ reflexivity | reflexivity ].
  - eexists. split; [ reflexivity | congruence ].
Qed.

(** X12.  Of a report the handler sends upstream at most the first 80000
    code units: what it sends is a prefix of the report, the whole report
    when that is not longer.  The upstream service is asked once, with this
    prompt, and its answer there is all the response depends on; without a
    configured API key it is not asked at all and the response is the 500
    error verdict. *)
Theorem handler_truncates typeError JSON_parse JSON_stringify apiKey t
    (upstream upstream' : Prompt -> Settled Upstream) (method : jsstring) (rq : Request) :
  N.of_nat (length (truncatedContent (prompt_of rq))) <= MAX_CONTENT_LENGTH
  /\ (exists rest, docContent rq = truncatedContent (prompt_of rq) ++ rest)
  /\ (N.of_nat (length (docContent rq)) <= MAX_CONTENT_LENGTH ->
      truncatedContent (prompt_of rq) = docContent rq)
  /\ (upstream (prompt_of rq) = upstream' (prompt_of rq) ->
      handler typeError JSON_parse JSON_stringify apiKey t upstream method (Some rq)
      = handler typeError JSON_parse JSON_stringify apiKey t upstream' method (Some rq))
  /\ handler typeError JSON_parse JSON_stringify [] t upstream (js "POST") (Some rq)
     = handler typeError JSON_parse JSON_stringify [] t upstream' (js "POST") (Some rq)
  /\ code (handler typeError JSON_parse JSON_stringify [] t upstream (js "POST") (Some rq))
     = 500.
Proof.
  unfold prompt_of. cbn [truncatedContent].
  split; [ | split; [ | split; [ | split; [ | split ] ] ] ].
  - destruct (MAX_CONTENT_LENGTH <? N.of_nat (length (docContent rq))) eqn:E.
    + rewrite length_firstn. lia.
    + apply N.ltb_ge in E. exact E.
  - destruct (MAX_CONTENT_LENGTH <? N.of_nat (length (docContent rq))).
    + exists (skipn (N.to_nat MAX_CONTENT_LENGTH) (docContent rq)).
      symmetry. apply firstn_skipn.
    + exists []. now rewrite app_nil_r.
  - intros Hle. apply N.ltb_ge in Hle. now rewrite Hle.
  - intros H. unfold handler.
    now rewrite (handler_try_upstream _ _ _ _ _ upstream upstream' rq H).
  - unfold handler.
    destruct (handler_try_no_key typeError JSON_parse JSON_stringify t upstream (Some rq))
      as (e & -> & He).
    destruct (handler_try_no_key typeError JSON_parse JSON_stringify t upstream' (Some rq))
      as (e' & -> & He').
    rewrite He, He' by discriminate. reflexivity.
  - unfold handler.
    destruct (handler_try_no_key typeError JSON_parse JSON_stringify t upstream (Some rq))
      as (e & -> & _).
    vm_compute. reflexivity.
Qed.

(** *** The handler: the error response *)

Lemma handler_error_body typeError JSON_parse JSON_stringify apiKey t upstream
    (req_body : option Request) :
  code (handler typeError JSON_parse JSON_stringify apiKey t upstream (js "POST") req_body)
  = 500 ->
  exists msg issue,
    body (handler typeError JSON_parse JSON_stringify apiKey t upstream (js "POST") req_body)
    = VerdictBody (js "ERROR") (JStr (js "审核失败：" ++ msg)) (JArr [issue]) t
    /\ msg <> []
    /\ opt_get (Some issue) (js "category") = Some (JStr (js "special_rules"))
    /\ opt_get (Some issue) (js "severity") = Some (JStr (js "high")).
Proof.
  unfold handler.
  replace (jseq (js "POST") (js "OPTIONS")) with false by (vm_compute; reflexivity).
  replace (jseq (js "POST") (js "POST")) with true by (vm_compute; reflexivity).
  simpl negb. cbv iota.
  destruct (handler_try _ _ _ _ _ _ _) as [r|e] eqn:Hr.
  - destruct (handler_try_status _ _ _ _ _ _ _ _ Hr) as (v & sm & iss & ->).
    simpl. discriminate.
  - intros _. cbn [body].
    exists (if truthy (message e) then message e else js "未知错误"). eexists.
    split; [ reflexivity | ].
    split; [ destruct (truthy (message e)) eqn:E;
             [ now apply truthy_nonempty | discriminate ] | ].
    split; vm_compute; reflexivity.
Qed.

(** X13.  Every failure inside the handler of a POST request is answered
    with code 500 and a verdict of status ERROR, whose summary starts with
    the failure prefix and whose issues are exactly one entry of category
    special_rules and severity high; a missing request body, a missing API
    key, an unreachable upstream service, an unreadable upstream answer or
    an upstream error code are such failures. *)
Theorem handler_error_response typeError JSON_parse JSON_stringify apiKey t upstream
    (req_body : option Request) :
  (code (handler typeError JSON_parse JSON_stringify apiKey t upstream (js "POST") req_body)
   = 500 ->
   exists msg issue,
     body (handler typeError JSON_parse JSON_stringify apiKey t upstream (js "POST") req_body)
     = VerdictBody (js "ERROR") (JStr (js "审核失败：" ++ msg)) (JArr [issue]) t
     /\ msg <> []
     /\ opt_get (Some issue) (js "category") = Some (JStr (js "special_rules"))
     /\ opt_get (Some issue) (js "severity") = Some (JStr (js "high")))
  /\ (req_body = None \/ apiKey = []
      \/ (exists rq, req_body = Some rq
          /\ ((exists e, upstream (prompt_of rq) = Rejected e)
              \/ (exists u, upstream (prompt_of rq) = Fulfilled u
                            /\ (up_ok u = false \/ exists e, up_data u = Rejected e)))) ->
      code (handler typeError JSON_parse JSON_stringify apiKey t upstream (js "POST") req_body)
      = 500).
Proof.
  split; [ apply handler_error_body | ].
  unfold handler.
  replace (jseq (js "POST") (js "OPTIONS")) with false by (vm_compute; reflexivity).
  replace (jseq (js "POST") (js "POST")) with true by (vm_compute; reflexivity).
  simpl negb. cbv iota.
  - assert (Hrej : forall e,
              handler_try typeError JSON_parse JSON_stringify apiKey t upstream req_body
              = Rejected e ->
              code match handler_try typeError JSON_parse JSON_stringify apiKey t upstream
                           req_body with
                   | Fulfilled r => r
                   | Rejected error => mkHttp 500 (VerdictBody (js "ERROR")
                       (JStr (js "审核失败：" ++
                                (if truthy (message error) then message error
                                 else js "未知错误")))
                       (JArr
                          [ JObj
                              [ (js "category", JStr (js "special_rules"));
                                (js "rule", JStr (js "AI审核服务异常"));
                                (js "description",
                                  JStr (if truthy (message error) then message error
                                        else js "请检查阿里云API Key是否正确，或阿里云账号是否开通通义千问服务"));
                                (js "severity", JStr (js "high"));
                                (js "location", JStr []) ] ]) t)
                   end = 500).
    { intros e He. rewrite He. reflexivity. }
    intros [->|[->|(rq & -> & Hup)]].
    + eapply Hrej. reflexivity.
    + destruct (handler_try_no_key typeError JSON_parse JSON_stringify t upstream req_body)
        as (e & He & _). eapply Hrej. exact He.
    + unfold handler_try in *. cbn [mbind Settled_bind] in *.
      destruct (throw_if (negb (truthy apiKey)) _) eqn:Hk; cbn [mbind Settled_bind] in *;
        [ | eapply Hrej; reflexivity ].
      repeat match goal with
      | |- context [upstream ?p] =>
          progress change p with (prompt_of rq)
      | H : context [upstream ?p] |- _ =>
          progress change p with (prompt_of rq) in H
      end.
      destruct Hup as [(e & He)|(u & Hu & [Hok|(e & He)])].
      * rewrite He in *. eapply Hrej. reflexivity.
      * rewrite Hu in *. cbn [mbind Settled_bind] in *.
        destruct (up_data u); cbn [mbind Settled_bind] in *;
          [ rewrite Hok in *; eapply Hrej; reflexivity | eapply Hrej; reflexivity ].
      * rewrite Hu in *. cbn [mbind Settled_bind] in *. rewrite He in *.
        eapply Hrej. reflexivity.
Qed.

(** *** The judgment client *)

Lemma request_failed_message (n : N) :
  truthy (js "请求失败啦 [" ++ decimal n ++ js "]") = true.
Proof. change (js "请求失败啦 [") with ([35831; 27714; 22833; 36133; 21862; 32; 91] : jsstring). reflexivity. Qed.

Lemma analyzeReport_not_ok (c : jsstring) (rs : list jsstring) (t : jsstring)
    (resp : Response) :
  ok resp = false ->
  exists v,
    exec t (analyzeReport c rs) [FetchSettled (Fulfilled resp)] = Some (inl v)
    /\ failure_verdict v
    /\ summary v = js "请求失败啦 [" ++ decimal (http_status resp) ++ js "]".
Proof.
  intros Hok. unfold analyzeReport. cbn. rewrite Hok. cbn.
  eexists. split; [ reflexivity | ].
  split; [ apply (failure_verdict_made (Error _)) | ].
  cbn. replace (jseq (js "Error") (js "AbortError")) with false
    by (vm_compute; reflexivity).
  now rewrite request_failed_message.
Qed.

(** X14.  [analyzeReport] sends exactly one request, whatever happens to
    it, and never retries.  A verdict read from an ok response is returned
    as it is.  A response that is not ok is not read: the verdict is the
    client's own failure verdict, whose summary names the HTTP status.  An
    error named AbortError gives the timeout message, and any other error
    with a message gives that message. *)
Theorem analyzeReport_client (c : jsstring) (rs : list jsstring) (t : jsstring) :
  (forall os, requests t (analyzeReport c rs) os = [mkRequest c rs])
  /\ (forall resp r, ok resp = true ->
        exec t (analyzeReport c rs) [FetchSettled (Fulfilled resp); JsonSettled (Fulfilled r)]
        = Some (inl r))
  /\ (forall resp, ok resp = false ->
        exists v,
          exec t (analyzeReport c rs) [FetchSettled (Fulfilled resp)] = Some (inl v)
          /\ failure_verdict v
          /\ summary v = js "请求失败啦 [" ++ decimal (http_status resp) ++ js "]")
  /\ (forall e, exists v,
        exec t (analyzeReport c rs) [FetchSettled (Rejected e)] = Some (inl v)
        /\ failure_verdict v
        /\ (err_name e = js "AbortError" ->
            summary v = js "请求超时啦（文档太大或网络慢）")
        /\ (err_name e <> js "AbortError" -> message e <> [] ->
            summary v = message e)).
Proof.
  split; [ | split; [ | split ] ].
  - intros os. unfold analyzeReport. cbn.
    destruct os as [|[s|[resp|e]|s] os]; cbn; try reflexivity.
    + destruct (ok resp); cbn; [ | reflexivity ].
      destruct os as [|[s|s|[r|e]] os]; reflexivity.
  - intros resp r Hok. unfold analyzeReport. cbn. rewrite Hok. reflexivity.
  - intros resp. apply analyzeReport_not_ok.
  - intros e. unfold analyzeReport. cbn. eexists. split; [ reflexivity | ].
    split; [ apply failure_verdict_made | ]. cbn. split.
    + intros Hn. apply jseq_eq in Hn. now rewrite Hn.
    + intros Hn Hm. apply jseq_neq in Hn. apply truthy_nonempty in Hm.
      now rewrite Hn, Hm.
Qed.

(** X15.  Client and server together: when the handler answers a POST
    request with its 500 error verdict, the client does not read that
    verdict; what the document gets is the client's own failure verdict
    with the summary of a failed request with status 500, so that the
    reason the server gave does not reach the operator. *)
Theorem server_error_seen_by_client typeError JSON_parse JSON_stringify apiKey t upstream
    (req_body : option Request) (c : jsstring) (rs : list jsstring) :
  code (handler typeError JSON_parse JSON_stringify apiKey t upstream (js "POST") req_body)
  = 500 ->
  exists v,
    exec t (analyzeReport c rs)
      [FetchSettled (Fulfilled (http_response_of
         (handler typeError JSON_parse JSON_stringify apiKey t upstream (js "POST") req_body)))]
    = Some (inl v)
    /\ failure_verdict v
    /\ summary v = js "请求失败啦 [500]"
    /\ summary v
       <> body_summary
            (body (handler typeError JSON_parse JSON_stringify apiKey t upstream
                     (js "POST") req_body)).
Proof.
  intros Hcode.
  destruct (analyzeReport_not_ok c rs t (http_response_of
              (handler typeError JSON_parse JSON_stringify apiKey t upstream
                 (js "POST") req_body)))
    as (v & Hv & Hf & Hs).
  { unfold http_response_of. rewrite Hcode. reflexivity. }
  exists v. split; [ exact Hv | ]. split; [ exact Hf | ].
  assert (Hs' : summary v = js "请求失败啦 [500]").
  { rewrite Hs. unfold http_response_of. rewrite Hcode. vm_compute. reflexivity. }
  split; [ exact Hs' | ].
  destruct (handler_error_body typeError JSON_parse JSON_stringify apiKey t upstream
              req_body Hcode) as (msg & issue & -> & _). rewrite Hs'. cbn [body_summary].
  intros Heq. apply (f_equal (fun l => nth 0 l 0)) in Heq. vm_compute in Heq.
  discriminate Heq.
Qed.

Lemma server_error_seen_by_client_no_key :
  exists v,
    exec (js "T1") (analyzeReport (js "<p>r</p>") [js "A"])
      [FetchSettled (Fulfilled (http_response_of
         (handler a_type_error (fun _ => Rejected a_type_error) (fun _ => []) []
            (js "T1") (fun _ => Rejected a_type_error) (js "POST")
            (Some (mkRequest (js "<p>r</p>") [js "A"])))))]
    = Some (inl v)
    /\ failure_verdict v
    /\ summary v = js "请求失败啦 [500]"
    /\ summary v
       <> body_summary
            (body (handler a_type_error (fun _ => Rejected a_type_error) (fun _ => []) []
                     (js "T1") (fun _ => Rejected a_type_error) (js "POST")
                     (Some (mkRequest (js "<p>r</p>") [js "A"])))).
Proof.
  apply (server_error_seen_by_client a_type_error (fun _ => Rejected a_type_error)
           (fun _ => []) [] (js "T1") (fun _ => Rejected a_type_error)
           (Some (mkRequest (js "<p>r</p>") [js "A"])) (js "<p>r</p>") [js "A"]).
  vm_compute. reflexivity.
Defined.

Open Scope nat_scope.

(** *** The steps of the pool, spelled out *)

Lemma worker_loop_eq rules i t q st :
  worker_loop rules i t q st
  = match q with
    | [] => (st, Exited)
    | f :: rest =>
        (note_extraction (processFile rules (in_processing f)) (shift i f rest st),
         Running (processFile rules (in_processing f)))
    end.
Proof.
  destruct q as [|f rest]; [ reflexivity | ]. simpl.
  pose proof (processFile_suspended rules (in_processing f)) as Hs.
  rewrite (advance_suspended _ _ Hs).
  destruct (processFile rules (in_processing f)); simpl in Hs; try contradiction;
    reflexivity.
Qed.

Lemma note_extraction_fields p st :
  files (note_extraction p st) = files st
  /\ expandedFiles (note_extraction p st) = expandedFiles st
  /\ queue (note_extraction p st) = queue st
  /\ workers (note_extraction p st) = workers st.
Proof. destruct p; repeat split. Qed.

Lemma worker_loop_fields rules i t st st1 w :
  worker_loop rules i t (queue st) st = (st1, w) ->
  files st1 = files st /\ expandedFiles st1 = expandedFiles st
  /\ workers st1 = workers st
  /\ (forall f, In f (queue st1) -> In f (queue st))
  /\ (forall p, w = Running p ->
        exists f, In f (queue st) /\ wp (outcome_for f) never p).
Proof.
  rewrite worker_loop_eq. destruct (queue st) as [|f rest] eqn:Hq.
  - intros [= <- <-]. rewrite Hq. repeat split; auto. discriminate.
  - intros [= <- <-].
    destruct (note_extraction_fields (processFile rules (in_processing f))
                (shift i f rest st)) as (H1 & H2 & H3 & H4).
    rewrite H1, H2, H3, H4. simpl.
    repeat split; auto.
    intros p [= <-]. exists f. split; [ auto | apply processFile_outcome ].
Qed.

Lemma set_add_In x y prev : In y (set_add x prev) <-> In y prev \/ y = x.
Proof.
  unfold set_add. destruct (existsb (jseq x) prev) eqn:E.
  - split; [ auto | ]. intros [H| ->]; [ exact H | ].
    apply existsb_exists in E. destruct E as (z & Hz & Hj).
    apply jseq_eq in Hj. now subst.
  - rewrite in_app_iff. simpl. split; [ intros [H|[H|[]]]; auto | intros [H|H]; auto ].
Qed.

Section Tracking.
Variable rules : list RuleConfig.
Variable files0 : list DocFile.
Variable expanded0 : list jsstring.

Lemma tracked_write_back processed f st :
  Tracked files0 expanded0 st ->
  In f (filesToProcess files0) -> outcome_for f processed ->
  Tracked files0 expanded0 (write_back processed st).
Proof.
  intros [Hw Hq Hf Hs He Hx Hk] Hin [Hid Hj].
  constructor; simpl; auto.
  - intros k d0 Hk0 Hnb. unfold complete. rewrite lookup_map, (Hf k d0 Hk0 Hnb). simpl.
    assert (Hne : jseq (id d0) (id processed) = false).
    { apply jseq_neq. intros Heq. apply Hnb. exists f. split; [ exact Hin | congruence ]. }
    now rewrite Hne.
  - intros d Hd Hb. destruct (in_complete _ _ _ Hd) as [[-> _]|[Hd' _]]; auto.
  - intros d Hd Hb Hp Hi.
    assert (Hgrow : forall x, In x (expandedFiles st) ->
              In x match auditResult processed with
                   | Some r => if 0 <? length (issues r)
                               then set_add (id processed) (expandedFiles st)
                               else expandedFiles st
                   | None => expandedFiles st
                   end).
    { intros x Hx0. destruct (auditResult processed) as [r|]; [ | exact Hx0 ].
      destruct (0 <? length (issues r)); [ apply set_add_In; auto | exact Hx0 ]. }
    destruct (in_complete _ _ _ Hd) as [[-> _]|[Hd' _]].
    + destruct Hi as (r & Hr & Hne). rewrite Hr.
      destruct (issues r) as [|x l]; [ congruence | ]. simpl.
      apply set_add_In. auto.
    + apply Hgrow. auto.
  - intros x Hx0. destruct (auditResult processed) as [r|]; [ | auto ].
    destruct (0 <? length (issues r)); [ | auto ].
    apply set_add_In in Hx0. destruct Hx0 as [Hx0| ->]; [ auto | ].
    right. exists f. auto.
  - intros x Hx0. specialize (Hk x Hx0).
    destruct (auditResult processed) as [r|]; [ | auto ].
    destruct (0 <? length (issues r)); [ apply set_add_In | ]; auto.
Qed.

(** A worker started from the head of its loop keeps the invariant. *)
Lemma tracked_worker_loop i t st st1 w (ws : list Worker) :
  Tracked files0 expanded0 st ->
  worker_loop rules i t (queue st) st = (st1, w) ->
  (forall j p, ws !! j = Some (Running p) ->
     w = Running p \/ exists j', workers st !! j' = Some (Running p)) ->
  Tracked files0 expanded0 (set_workers ws st1).
Proof.
  intros [Hw Hq Hf Hs He Hx Hk] Hloop Hws.
  destruct (worker_loop_fields _ _ _ _ _ _ Hloop) as (H1 & H2 & H3 & H4 & H5).
  constructor; simpl; rewrite ?H1, ?H2; auto.
  intros j p Hj. destruct (Hws j p Hj) as [-> |(j' & Hj')]; [ | eauto ].
  destruct (H5 p eq_refl) as (f & Hf1 & Hf2). eauto.
Qed.

Lemma tracked_resolve ev st st' :
  Tracked files0 expanded0 st -> resolve rules ev st = Some st' ->
  Tracked files0 expanded0 st'.
Proof.
  intros Htr Hres. unfold resolve in Hres. set (i := ev_worker ev) in *.
  destruct (workers st !! i) as [[p| |]|] eqn:Hw; try discriminate.
  destruct (resume p (ev_outcome ev)) as [p'|] eqn:Hr; try discriminate.
  destruct (continue rules i (ev_time ev) p' st) as [st1 w] eqn:Hc.
  injection Hres as <-.
  destruct (tr_workers _ _ _ Htr _ _ Hw) as (f & Hf & Hwp).
  pose proof (wp_advance _ _ (ev_time ev) _ (wp_resume _ _ _ _ _ Hr Hwp)) as Hwp'.
  assert (Hothers : forall w0 j q,
            (<[i:=w0]> (workers st)) !! j = Some (Running q) ->
            w0 = Running q \/ exists j', workers st !! j' = Some (Running q)).
  { intros w0 j q Hj. destruct (decide (i = j)) as [<-|Hne].
    - rewrite list_lookup_insert_eq in Hj by (eapply lookup_lt_Some; eauto).
      left. congruence.
    - rewrite list_lookup_insert_ne in Hj by auto. eauto. }
  unfold continue in Hc.
  destruct (advance_cases (ev_time ev) p') as [[a Ha]|[[e He]|Hs]].
  - rewrite Ha in Hc, Hwp'. simpl in Hwp'.
    pose proof (tracked_write_back a f st Htr Hf Hwp') as Htr1.
    destruct (worker_loop_fields _ _ _ _ _ _ Hc) as (_ & _ & H3 & _ & _).
    rewrite H3. simpl workers.
    eapply tracked_worker_loop; [ exact Htr1 | exact Hc | ].
    intros j q Hj. simpl. eapply Hothers. exact Hj.
  - rewrite He in Hwp'. destruct Hwp'.
  - assert (Hrun : (st1, w) = (note_extraction (advance (ev_time ev) p') st,
                               Running (advance (ev_time ev) p'))).
    { rewrite <- Hc. destruct (advance (ev_time ev) p'); simpl in Hs;
        try contradiction; reflexivity. }
    injection Hrun as -> ->.
    destruct (note_extraction_fields (advance (ev_time ev) p') st) as (H1 & H2 & H3 & H4).
    destruct Htr as [Hw0 Hq Hf0 Hs0 He0 Hx Hk].
    constructor; simpl; rewrite ?H1, ?H2, ?H3, ?H4; auto.
    intros j q Hj. destruct (Hothers _ _ _ Hj) as [[= <-]|(j' & Hj')]; eauto.
Qed.

Lemma tracked_spawn t n : forall st,
  Tracked files0 expanded0 st ->
  Tracked files0 expanded0 (spawn rules t n (length (workers st)) st).
Proof.
  induction n as [|n IH]; intros st Htr; simpl; [ exact Htr | ].
  destruct (worker_loop rules (length (workers st)) t (queue st) st) as [st1 w] eqn:Hloop.
  destruct (worker_loop_fields _ _ _ _ _ _ Hloop) as (_ & _ & H3 & _ & _).
  assert (Htr2 : Tracked files0 expanded0 (set_workers (workers st1 ++ [w]) st1)).
  { eapply tracked_worker_loop; [ exact Htr | exact Hloop | ].
    intros j p Hj. rewrite H3 in Hj.
    destruct (lookup_snoc _ _ _ _ Hj) as [H|[_ H]]; eauto. }
  specialize (IH _ Htr2). simpl in IH. rewrite H3, length_app in IH. simpl in IH.
  replace (S (length (workers st))) with (length (workers st) + 1) by lia.
  rewrite H3. exact IH.
Qed.

Lemma tracked_start t :
  Tracked files0 expanded0 (runBatchAudit rules t files0 expanded0).
Proof.
  unfold runBatchAudit.
  apply (tracked_spawn t _
           (mkBatch (mark_processing (filesToProcess files0) files0) expanded0
              (filesToProcess files0) [] [] [])).
  constructor; simpl; auto.
  - intros i p Hi. destruct i; discriminate.
  - intros k d0 Hk Hnb. unfold mark_processing. rewrite lookup_map, Hk. simpl.
    destruct (existsb _ _) eqn:E; [ | reflexivity ].
    exfalso. apply Hnb. apply existsb_exists in E. destruct E as (f & Hf & Hj).
    apply jseq_eq in Hj. exists f. auto.
  - intros d Hd (f & Hf & Hid). left. unfold mark_processing in Hd.
    apply in_map_iff in Hd. destruct Hd as (d1 & <- & Hd1).
    assert (E : existsb (fun ftp => jseq (id ftp) (id d1)) (filesToProcess files0) = true).
    { apply existsb_exists. exists f. split; [ exact Hf | ]. apply jseq_eq.
      rewrite Hid. destruct (existsb _ _); reflexivity. }
    rewrite E. reflexivity.
  - intros d Hd (f & Hf & Hid) Hp. exfalso. unfold mark_processing in Hd.
    apply in_map_iff in Hd. destruct Hd as (d1 & <- & Hd1).
    assert (E : existsb (fun ftp => jseq (id ftp) (id d1)) (filesToProcess files0) = true).
    { apply existsb_exists. exists f. split; [ exact Hf | ]. apply jseq_eq.
      rewrite Hid. destruct (existsb _ _); reflexivity. }
    rewrite E in Hp. discriminate.
Qed.

Lemma tracked_run evs : forall st st',
  Tracked files0 expanded0 st -> run rules st evs = Some st' ->
  Tracked files0 expanded0 st'.
Proof.
  induction evs as [|ev evs IH]; intros st st' Htr Hrun; simpl in Hrun.
  - now injection Hrun as <-.
  - destruct (resolve rules ev st) as [st1|] eqn:Hres; [ | discriminate ].
    eapply IH; [ eapply tracked_resolve; eauto | exact Hrun ].
Qed.
End Tracking.

Lemma batch_tracked rules files0 t expanded0 evs st :
  run rules (runBatchAudit rules t files0 expanded0) evs = Some st ->
  Tracked files0 expanded0 st.
Proof.
  intros Hrun. eapply tracked_run; [ apply tracked_start | exact Hrun ].
Qed.

Lemma unique_id_same (l : list DocFile) (a b : DocFile) :
  NoDup (map id l) -> In a l -> In b l -> id a = id b -> a = b.
Proof.
  induction l as [|x l IH]; simpl; [ tauto | ].
  intros Hnd Ha Hb Hid. apply NoDup_cons in Hnd. destruct Hnd as [Hx Hnd].
  destruct Ha as [->|Ha], Hb as [->|Hb]; auto.
  - exfalso. apply Hx. apply list_elem_of_In, in_map_iff. exists b. auto.
  - exfalso. apply Hx. apply list_elem_of_In, in_map_iff. exists a. auto.
Qed.

(** X16.  A batch run leaves alone the documents it is not about: in every
    state of the run, a document whose id no unprocessed document shares is
    in the list at its place exactly as it was; when the ids of the list
    are pairwise different, that holds of every document that already had
    a verdict.  And a document the run is about is never shown idle: it is
    marked as processing until its verdict is written. *)
Theorem batch_leaves_others rules files0 t expanded0 evs st :
  run rules (runBatchAudit rules t files0 expanded0) evs = Some st ->
  (forall k d0, files0 !! k = Some d0 -> ~ in_batch files0 d0 ->
     files st !! k = Some d0)
  /\ (NoDup (map id files0) ->
      forall k d0, files0 !! k = Some d0 -> auditResult d0 <> None ->
        files st !! k = Some d0)
  /\ (forall d, In d (files st) -> in_batch files0 d ->
        isProcessing d = true \/ judged d).
Proof.
  intros Hrun. pose proof (batch_tracked _ _ _ _ _ _ Hrun) as Htr.
  split; [ apply (tr_frame _ _ _ Htr) | split; [ | apply (tr_state _ _ _ Htr) ] ].
  intros Hnd k d0 Hk Hres. apply (tr_frame _ _ _ Htr k d0 Hk).
  intros (f & Hf & Hid). unfold filesToProcess in Hf. apply List.filter_In in Hf.
  destruct Hf as [Hf Hnone].
  apply list_elem_of_lookup_2, list_elem_of_In in Hk.
  pose proof (unique_id_same files0 f d0 Hnd Hf Hk Hid) as ->.
  unfold has_result in Hnone. destruct (auditResult d0); [ discriminate | congruence ].
Qed.

Lemma batch_leaves_others_mixed :
  exists st,
    run sample_rules (runBatchAudit sample_rules (js "T0") mixed_docs []) mixed_schedule
    = Some st
    /\ files st !! 1 = Some judged_doc
    /\ ((forall k d0, mixed_docs !! k = Some d0 -> ~ in_batch mixed_docs d0 ->
           files st !! k = Some d0)
        /\ (NoDup (map id mixed_docs) ->
            forall k d0, mixed_docs !! k = Some d0 -> auditResult d0 <> None ->
              files st !! k = Some d0)
        /\ (forall d, In d (files st) -> in_batch mixed_docs d ->
              isProcessing d = true \/ judged d)).
Proof.
  eexists. split; [ vm_compute; reflexivity | ]. split; [ reflexivity | ].
  apply (batch_leaves_others sample_rules mixed_docs (js "T0") [] mixed_schedule).
  vm_compute. reflexivity.
Defined.

(** X17.  The expanded set during a batch run: nothing that was expanded is
    collapsed; only documents of the batch are added; a document of the
    batch whose written verdict lists an issue is expanded; and when all
    workers have returned, every document that lacked a verdict at the
    start and got one with an issue is expanded. *)
Theorem batch_auto_expands rules files0 t expanded0 evs st :
  run rules (runBatchAudit rules t files0 expanded0) evs = Some st ->
  (forall x, In x expanded0 -> In x (expandedFiles st))
  /\ (forall x, In x (expandedFiles st) ->
        In x expanded0 \/ exists f, In f (filesToProcess files0) /\ id f = x)
  /\ (forall d, In d (files st) -> in_batch files0 d -> isProcessing d = false ->
        has_issues d -> In (id d) (expandedFiles st))
  /\ (batch_done st = true ->
      forall k f d, files0 !! k = Some f -> auditResult f = None ->
        files st !! k = Some d -> has_issues d -> In (id f) (expandedFiles st)).
Proof.
  intros Hrun. pose proof (batch_tracked _ _ _ _ _ _ Hrun) as Htr.
  split; [ apply (tr_kept _ _ _ Htr) | ].
  split; [ apply (tr_expanded _ _ _ Htr) | ].
  split; [ apply (tr_expand _ _ _ Htr) | ].
  intros Hdone k f d Hk Hnone Hd Hi.
  destruct (batch_inv rules files0 _ _ _ _ Hrun) as [Hinv Hsize].
  assert (Hf : In f (filesToProcess files0)).
  { unfold filesToProcess. apply List.filter_In. split.
    - apply list_elem_of_lookup_2, list_elem_of_In in Hk. exact Hk.
    - unfold has_result. now rewrite Hnone. }
  assert (Hid : id d = id f).
  { pose proof (sh_ids _ _ _ _ (inv_shared _ _ _ Hinv)) as Hids.
    assert (Hl : map id (files st) !! k = Some (id f))
      by (rewrite Hids, lookup_map, Hk; reflexivity).
    rewrite lookup_map, Hd in Hl. now injection Hl. }
  apply list_elem_of_lookup_2, list_elem_of_In in Hd.
  destruct (done_all_judged files0 _ _ f Hinv Hsize Hdone Hf d Hd Hid) as [_ Hp].
  rewrite <- Hid. apply (tr_expand _ _ _ Htr d Hd); auto.
  exists f. auto.
Qed.

Lemma batch_auto_expands_mixed :
  exists st,
    run sample_rules (runBatchAudit sample_rules (js "T0") mixed_docs [js "old"])
      mixed_schedule = Some st
    /\ expandedFiles st = [js "old"; js "doc1"]
    /\ ((forall x, In x [js "old"] -> In x (expandedFiles st))
        /\ (forall x, In x (expandedFiles st) ->
              In x [js "old"] \/ exists f, In f (filesToProcess mixed_docs) /\ id f = x)
        /\ (forall d, In d (files st) -> in_batch mixed_docs d -> isProcessing d = false ->
              has_issues d -> In (id d) (expandedFiles st))
        /\ (batch_done st = true ->
            forall k f d, mixed_docs !! k = Some f -> auditResult f = None ->
              files st !! k = Some d -> has_issues d -> In (id f) (expandedFiles st))).
Proof.
  eexists. split; [ vm_compute; reflexivity | ]. split; [ vm_compute; reflexivity | ].
  apply (batch_auto_expands sample_rules mixed_docs (js "T0") [js "old"] mixed_schedule).
  vm_compute. reflexivity.
Defined.

Open Scope N_scope.

(** *** CSV fields can be told apart *)

Lemma double_quotes_inj (s s' : jsstring) :
  double_quotes s = double_quotes s' -> s = s'.
Proof.
  revert s'; induction s as [|c s IH]; intros [|d s']; simpl.
  - reflexivity.
  - destruct (d =? DQUOTE); discriminate.
  - destruct (c =? DQUOTE); discriminate.
  - destruct (c =? DQUOTE) eqn:Ec, (d =? DQUOTE) eqn:Ed.
    + apply N.eqb_eq in Ec, Ed. intros [= H]. subst. f_equal. now apply IH.
    + apply N.eqb_neq in Ed. intros [= <- _]. congruence.
    + apply N.eqb_neq in Ec. intros [= -> _]. congruence.
    + intros [= -> H]. f_equal. now apply IH.
Qed.

Lemma escape_cases (s : jsstring) :
  (escape s = s /\ ~ In DQUOTE s)
  \/ escape s = [DQUOTE] ++ double_quotes s ++ [DQUOTE].
Proof.
  destruct (includes s COMMA || includes s DQUOTE || includes s NEWLINE) eqn:E.
  - right. apply escape_quoted. rewrite !orb_true_iff, !includes_In in E. tauto.
  - left. assert (H : ~ (In COMMA s \/ In DQUOTE s \/ In NEWLINE s)).
    { rewrite <- !includes_In. intros Hi.
      rewrite <- orb_true_iff, <- orb_true_iff, orb_assoc in Hi. congruence. }
    split; [ now apply escape_verbatim | tauto ].
Qed.

(** X18.  Two values that are written as the same CSV field are the same
    value: escaping loses nothing, so a reader of the file can recover the
    value of every field. *)
Theorem escape_injective (s s' : jsstring) : escape s = escape s' -> s = s'.
Proof.
  intros H.
  destruct (escape_cases s) as [[Hs Hq]|Hs], (escape_cases s') as [[Hs' Hq']|Hs'];
    rewrite Hs, Hs' in H.
  - exact H.
  - exfalso. apply Hq. rewrite H. simpl. auto.
  - exfalso. apply Hq'. rewrite <- H. simpl. auto.
  - simpl in H. injection H as H. apply app_inv_tail in H.
    now apply double_quotes_inj.
Qed.

Lemma escape_injective_quoted :
  escape (js "a,b") = escape [97; 44; 98] /\ js "a,b" = [97; 44; 98].
Proof.
  split; [ vm_compute; reflexivity | ].
  apply (escape_injective (js "a,b") [97; 44; 98]). vm_compute. reflexivity.
Defined.

(** *** White space of the extracted content *)

Lemma collapse_from_visible b s : visible (collapse_from b s) = visible s.
Proof.
  revert b; induction s as [|c s IH]; intros b; simpl; [ reflexivity | ].
  unfold visible in *. destruct (is_ws c) eqn:E.
  - destruct b; simpl; rewrite ?E; simpl; apply IH.
  - simpl. rewrite E. simpl. now rewrite IH.
Qed.

Lemma collapse_true_head s :
  match collapse_from true s with [] => True | d :: _ => is_ws d = false end.
Proof.
  induction s as [|c s IH]; simpl; [ exact I | ].
  destruct (is_ws c) eqn:E; [ exact IH | exact E ].
Qed.

Lemma collapse_from_single_spaced b s : single_spaced (collapse_from b s).
Proof.
  revert b; induction s as [|c s IH]; intros b; simpl; [ exact I | ].
  destruct (is_ws c) eqn:E.
  - destruct b; [ apply IH | ]. simpl. split; [ | apply IH ].
    intros _. split; [ reflexivity | apply collapse_true_head ].
  - simpl. split; [ | apply IH ]. intros H. congruence.
Qed.

Lemma collapse_fixed s :
  single_spaced s ->
  collapse_from false s = s
  /\ (match s with [] => True | d :: _ => is_ws d = false end ->
      collapse_from true s = s).
Proof.
  induction s as [|c s IH]; simpl; [ auto | ].
  intros [Hc Hs]. destruct (IH Hs) as [IH1 IH2].
  destruct (is_ws c) eqn:E.
  - destruct (Hc eq_refl) as [-> Hnext]. split.
    + f_equal. now apply IH2.
    + intros H. vm_compute in E. congruence.
  - split; [ now rewrite IH1 | intros _; now rewrite IH1 ].
Qed.

Lemma collapse_from_length b s :
  (length (collapse_from b s) <= length s)%nat.
Proof.
  revert b; induction s as [|c s IH]; intros b; simpl; [ lia | ].
  destruct (is_ws c); [ destruct b | ]; simpl.
  - specialize (IH true). lia.
  - specialize (IH true). lia.
  - specialize (IH false). lia.
Qed.

(** X19.  The last step of the cleaning of the extracted HTML leaves no
    white space but single spaces, never two in a row; it keeps every other
    character, in order; and cleaning a cleaned text changes nothing. *)
Theorem collapse_whitespace_normalizes (html : jsstring) :
  single_spaced (collapse_whitespace html)
  /\ visible (collapse_whitespace html) = visible html
  /\ collapse_whitespace (collapse_whitespace html) = collapse_whitespace html
  /\ (length (collapse_whitespace html) <= length html)%nat
  /\ collapse_whitespace (js "a" ++ [9; 10; 32] ++ js "b" ++ [12288] ++ js "c ")
     = js "a b c ".
Proof.
  unfold collapse_whitespace.
  split; [ apply collapse_from_single_spaced | ].
  split; [ apply collapse_from_visible | ].
  split; [ apply collapse_fixed, collapse_from_single_spaced | ].
  split; [ apply collapse_from_length | vm_compute; reflexivity ].
Qed.
